(** * agent-go: capture, transport and breakpoint packages

  A shallow embedding of the Go sources

    - [pkg/capture/capture.go]   (value inspector, stack sampler,
                                  fingerprint, capture assembly),
    - the transport package      ([Connection]: connect loop, outbound
                                  queue, inbound [error] handling),
    - the breakpoint package     ([Manager]: probe registry, rate
                                  limiter, probe stack walker),

  together with the properties the specification states about them.

  Conventions.  Go's [int], [int64] and [time.Duration] are [Z]; where
  the source can leave the 64-bit range the wrap-around is written out
  ([wrap64]).  Go strings are byte strings, here [string] (a list of
  8-bit [ascii]).  Go maps with string keys are [gmap string _].  A Go
  panic is the [Panic] outcome of the [result] monad.  Reads of the clock,
  of the call stack and of the network are inputs of the functions that
  perform them. *)

From Stdlib Require Import ZArith List Bool Ascii String DecimalString Lia.
From stdpp Require Import base option list gmap strings.

#[local] Set Warnings "-register-all".  (* nested inductives: induction principles are written by hand *)

Import ListNotations.
Local Open Scope string_scope.

(* ===================================================================== *)
(** * Go primitives used by the three packages                            *)
(* ===================================================================== *)

Module Go.

Local Open Scope Z_scope.

(** Two's-complement wrap-around of an [int64] result. *)
Definition wrap64 (z : Z) : Z := (z + 2 ^ 63) mod 2 ^ 64 - 2 ^ 63.

(** [uint(x)] of an [int]. *)
Definition to_uint (x : Z) : Z := x mod 2 ^ 64.

(** [x << k] on an [int64] left operand and an unsigned shift count: a
    count of 64 or more shifts every bit out. *)
Definition shl64 (x k : Z) : Z :=
  if k >=? 64 then 0 else wrap64 (Z.shiftl x k).

(** [a * b] on [int64]. *)
Definition mul64 (a b : Z) : Z := wrap64 (a * b).

(** [time.Second], a [time.Duration]: a number of nanoseconds. *)
Definition Second : Z := 1000000000.

(** The verb [%d] of [fmt] on an integer. *)
Definition fmt_d (z : Z) : string := NilZero.string_of_int (Z.to_int z).

(** [len(s)] of a string (bytes) and of a slice. *)
Definition len_s (s : string) : Z := Z.of_nat (String.length s).
Definition len {A} (l : list A) : Z := Z.of_nat (List.length l).

(** [strings.HasPrefix(s, p)]. *)
Definition HasPrefix (s p : string) : bool := String.prefix p s.

(** [strings.Join(parts, sep)]. *)
Fixpoint Join (parts : list string) (sep : string) : string :=
  match parts with
  | [] => ""
  | [p] => p
  | p :: rest => p ++ sep ++ Join rest sep
  end.

(** [strings.Contains(s, sub)]. *)
Definition Contains (s sub : string) : bool :=
  match String.index 0 sub s with Some _ => true | None => false end.

(** [strings.Index(s, sub)]: -1 when [sub] does not occur. *)
Definition Index (s sub : string) : Z :=
  match String.index 0 sub s with Some n => Z.of_nat n | None => -1 end.

(** [strings.LastIndex(s, sub)]: the scan keeps the last position [i] at
    which [sub] starts. *)
Fixpoint LastIndexFrom (s sub : string) (i best : Z) : Z :=
  let best := if String.prefix sub s then i else best in
  match s with
  | EmptyString => best
  | String _ s' => LastIndexFrom s' sub (i + 1) best
  end.

Definition LastIndex (s sub : string) : Z := LastIndexFrom s sub 0 (-1).

(** [strings.Split(s, sep)] for a separator of one byte. *)
Fixpoint Split (s : string) (sep : ascii) : list string :=
  match s with
  | EmptyString => [""]
  | String c s' =>
      if Ascii.eqb c sep then "" :: Split s' sep
      else match Split s' sep with
           | [] => [String c ""]
           | p :: ps => String c p :: ps
           end
  end.

(** [s[i:]] and [s[:j]]. *)
Definition slice_from (s : string) (i : Z) : string :=
  substring (Z.to_nat i) (String.length s - Z.to_nat i) s.
Definition slice_to (s : string) (j : Z) : string :=
  substring 0 (Z.to_nat j) s.

(** [runtime.Frame], as far as the packages read it. *)
Record Frame : Type := mkFrame {
  Function : string;
  File : string;
  Line : Z
}.

(** [runtime.Callers(skip, pcs)] followed by [pcs[:n]], on a goroutine whose
    call stack is [stack], innermost frame first, the frame of [Callers]
    itself at index 0: [skip] frames are skipped and at most [len(pcs)] are
    recorded.  Each recorded program counter stands for one frame. *)
Definition Callers (skip : nat) (size : nat) (stack : list Frame) : list Frame :=
  List.firstn size (List.skipn skip stack).

(** [Next] of [runtime.Frames]: the next frame, whether a further call will
    return a valid frame, and the iterator after the call.  An exhausted
    iterator returns the zero [Frame]. *)
Definition Next (it : list Frame) : Frame * bool * list Frame :=
  match it with
  | [] => (mkFrame "" "" 0, false, [])
  | frame :: rest => (frame, match rest with [] => false | _ => true end, rest)
  end.

(** [[]byte(s)]: the bytes of a string, as numbers below 256. *)
Definition bytes_of (s : string) : list Z :=
  List.map (fun a => Z.of_N (N_of_ascii a)) (list_ascii_of_string s).

(** The outcome of a Go call: a value, or a run-time panic that unwinds
    the caller (nothing in the modelled packages calls [recover]). *)
Inductive result (A : Type) : Type :=
| Ok (a : A)
| Panic (msg : string).
Arguments Ok {A} a.
Arguments Panic {A} msg.

#[global] Instance result_ret : MRet result := @Ok.

#[global] Instance result_bind : MBind result := fun A B k r =>
  match r with
  | Ok a => k a
  | Panic msg => Panic msg
  end.

#[global] Instance result_fmap : FMap result := fun A B f r =>
  match r with
  | Ok a => Ok (f a)
  | Panic msg => Panic msg
  end.

Definition is_ok {A} (r : result A) : bool :=
  match r with Ok _ => true | Panic _ => false end.

End Go.

(* ===================================================================== *)
(** * crypto/sha256 and encoding/hex                                       *)
(* ===================================================================== *)

Module Sha256.

Local Open Scope Z_scope.

Definition w32 (x : Z) : Z := x mod 2 ^ 32.
Definition add32 (x y : Z) : Z := w32 (x + y).
Definition rotr (n x : Z) : Z :=
  Z.lor (Z.shiftr x n) (w32 (Z.shiftl x (32 - n))).
Definition shr (n x : Z) : Z := Z.shiftr x n.
Definition not32 (x : Z) : Z := 2 ^ 32 - 1 - x.

Definition Ch (x y z : Z) : Z := Z.lxor (Z.land x y) (Z.land (not32 x) z).
Definition Maj (x y z : Z) : Z :=
  Z.lxor (Z.lxor (Z.land x y) (Z.land x z)) (Z.land y z).
Definition bsig0 (x : Z) : Z := Z.lxor (Z.lxor (rotr 2 x) (rotr 13 x)) (rotr 22 x).
Definition bsig1 (x : Z) : Z := Z.lxor (Z.lxor (rotr 6 x) (rotr 11 x)) (rotr 25 x).
Definition ssig0 (x : Z) : Z := Z.lxor (Z.lxor (rotr 7 x) (rotr 18 x)) (shr 3 x).
Definition ssig1 (x : Z) : Z := Z.lxor (Z.lxor (rotr 17 x) (rotr 19 x)) (shr 10 x).

(** The first [n] primes, by trial division. *)
Definition is_prime (p : Z) : bool :=
  (1 <? p)
  && List.forallb (fun d => negb (p mod Z.of_nat d =? 0))
       (List.seq 2 (Z.to_nat (Z.sqrt p) - 1)).

Definition primes (n : nat) : list Z :=
  List.firstn n (List.filter is_prime (List.map Z.of_nat (List.seq 2 320))).

(** The integer cube root, one bit at a time from bit [b] down. *)
Fixpoint cbrt_bits (b : nat) (n r : Z) : Z :=
  let try_ := r + 2 ^ Z.of_nat b in
  let r := if try_ * try_ * try_ <=? n then try_ else r in
  match b with
  | O => r
  | S b' => cbrt_bits b' n r
  end.

(** The round constants: the first 32 bits of the fractional parts of the
    cube roots of the first 64 primes. *)
Definition K : list Z :=
  Eval vm_compute in
    List.map (fun p => w32 (cbrt_bits 40 (p * 2 ^ 96) 0)) (primes 64).

(** The initial hash value: the first 32 bits of the fractional parts of
    the square roots of the first 8 primes. *)
Definition H0 : list Z :=
  Eval vm_compute in
    List.map (fun p => w32 (Z.sqrt (p * 2 ^ 64))) (primes 8).

(** Big-endian encoding of [x] on [n] bytes. *)
Fixpoint be_bytes (n : nat) (x : Z) : list Z :=
  match n with
  | O => []
  | S n' => (Z.shiftr x (8 * Z.of_nat n')) mod 256 :: be_bytes n' x
  end.

(** Message padding: a one bit, zeros up to 56 modulo 64, the bit length. *)
Definition pad (msg : list Z) : list Z :=
  let l := Z.of_nat (List.length msg) in
  let k := Z.to_nat ((55 - l) mod 64) in
  msg ++ [0x80] ++ List.repeat 0 k ++ be_bytes 8 (8 * l).

Fixpoint words (n : nat) (bs : list Z) : list Z :=
  match n, bs with
  | S n', b0 :: b1 :: b2 :: b3 :: rest =>
      (b0 * 2 ^ 24 + b1 * 2 ^ 16 + b2 * 2 ^ 8 + b3) :: words n' rest
  | _, _ => []
  end.

(** Message schedule: [extend] appends the next word to the words so far. *)
Definition extend (w : list Z) : list Z :=
  let t := List.length w in
  let at_ (i : nat) := List.nth (t - i) w 0 in
  w ++ [add32 (add32 (ssig1 (at_ 2%nat)) (at_ 7%nat))
              (add32 (ssig0 (at_ 15%nat)) (at_ 16%nat))].

Definition schedule (block : list Z) : list Z :=
  Nat.iter 48 extend (words 16 block).

Definition round (s : list Z) (kw : Z * Z) : list Z :=
  match s with
  | [a; b; c; d; e; f; g; h] =>
      let t1 := add32 (add32 (add32 h (bsig1 e)) (add32 (Ch e f g) (fst kw))) (snd kw) in
      let t2 := add32 (bsig0 a) (Maj a b c) in
      [add32 t1 t2; a; b; c; add32 d t1; e; f; g]
  | _ => s
  end.

Definition compress (h : list Z) (block : list Z) : list Z :=
  let s := List.fold_left round (List.combine K (schedule block)) h in
  List.map (fun p => add32 (fst p) (snd p)) (List.combine h s).

Fixpoint blocks (n : nat) (bs : list Z) (h : list Z) : list Z :=
  match n with
  | O => h
  | S n' => blocks n' (List.skipn 64 bs) (compress h (List.firstn 64 bs))
  end.

(** [sha256.Sum256]: the 32 bytes of the digest. *)
Definition Sum256 (msg : list Z) : list Z :=
  let p := pad msg in
  List.concat (List.map (be_bytes 4) (blocks (List.length p / 64) p H0)).

Definition hexdigit (d : Z) : ascii :=
  List.nth (Z.to_nat d) (list_ascii_of_string "0123456789abcdef") "0"%char.

(** [hex.EncodeToString]. *)
Fixpoint EncodeToString (bs : list Z) : string :=
  match bs with
  | [] => ""
  | b :: rest =>
      String (hexdigit (b / 16)) (String (hexdigit (b mod 16)) (EncodeToString rest))
  end.

End Sha256.

(* ===================================================================== *)
(** * Package capture                                                      *)
(* ===================================================================== *)

Module Capture.

Import Go.
Local Open Scope Z_scope.

(** ** Values as [reflect] sees them *)

(** [reflect.Kind]. *)
Inductive Kind : Type :=
| KInvalid | KBool
| KInt | KInt8 | KInt16 | KInt32 | KInt64
| KUint | KUint8 | KUint16 | KUint32 | KUint64 | KUintptr
| KFloat32 | KFloat64 | KComplex64 | KComplex128
| KArray | KChan | KFunc | KInterface | KMap | KPointer | KSlice
| KString | KStruct | KUnsafePointer.

(** [Kind.String()]. *)
Definition KindString (k : Kind) : string :=
  match k with
  | KInvalid => "invalid" | KBool => "bool"
  | KInt => "int" | KInt8 => "int8" | KInt16 => "int16" | KInt32 => "int32"
  | KInt64 => "int64"
  | KUint => "uint" | KUint8 => "uint8" | KUint16 => "uint16"
  | KUint32 => "uint32" | KUint64 => "uint64" | KUintptr => "uintptr"
  | KFloat32 => "float32" | KFloat64 => "float64"
  | KComplex64 => "complex64" | KComplex128 => "complex128"
  | KArray => "array" | KChan => "chan" | KFunc => "func"
  | KInterface => "interface" | KMap => "map" | KPointer => "ptr"
  | KSlice => "slice" | KString => "string" | KStruct => "struct"
  | KUnsafePointer => "unsafe.Pointer"
  end.

(** [reflect.Type], by the way the type is written.  A type declared by a
    type definition is rendered by [Type.String()] with the name of its
    package in front; every dynamic type of an [error] is such a type, a
    pointer to one, or an unnamed struct type with an embedded field. *)
Inductive RType : Type :=
| TBasic (name : string)
| TDefined (pkg name : string)
| TPointer (elem : RType)
| TLiteral (text : string).

(** [Type.String()]. *)
Fixpoint TypeString (t : RType) : string :=
  match t with
  | TBasic name => name
  | TDefined pkg name => pkg ++ "." ++ name
  | TPointer elem => "*" ++ TypeString elem
  | TLiteral text => text
  end.

(** [Type.Name()]: empty for unnamed types. *)
Definition TypeName (t : RType) : string :=
  match t with
  | TBasic name => name
  | TDefined _ name => name
  | TPointer _ => ""
  | TLiteral _ => ""
  end.

(** What an [interface{}] holds.  [VNil] is the nil interface.
    [VScalar] is a value without parts (booleans, numbers, [uintptr],
    channels, functions, [unsafe.Pointer]) with its kind and its [%v]
    rendering.  A field is its name, whether it is exported, and its value;
    a map entry is the [%v] rendering of its key, whether the key equals
    itself (a NaN key does not, and [MapIndex] then finds nothing), and the
    value stored under it.  Map entries come in the order of [MapKeys].
    Values are finite trees: a reference graph with a cycle is not a
    [GoValue]. *)
Inductive GoValue : Type :=
| VNil
| VScalar (t : RType) (k : Kind) (text : string)
| VString (t : RType) (s : string)
| VNilPointer (t : RType)
| VPointer (t : RType) (elem : GoValue)
| VSlice (t : RType) (is_array : bool) (elems : list GoValue)
| VMap (t : RType) (entries : list (string * bool * GoValue))
| VStruct (t : RType) (fields : list (string * bool * GoValue)).

(** [reflect.TypeOf(value)]; [None] is the nil [Type]. *)
Definition TypeOf (value : GoValue) : option RType :=
  match value with
  | VNil => None
  | VScalar t _ _ | VString t _ | VNilPointer t | VPointer t _
  | VSlice t _ _ | VMap t _ | VStruct t _ => Some t
  end.

(** [reflect.ValueOf(value).Kind()]. *)
Definition KindOf (value : GoValue) : Kind :=
  match value with
  | VNil => KInvalid
  | VScalar _ k _ => k
  | VString _ _ => KString
  | VNilPointer _ | VPointer _ _ => KPointer
  | VSlice _ is_array _ => if is_array then KArray else KSlice
  | VMap _ _ => KMap
  | VStruct _ _ => KStruct
  end.

(** ** The captured records *)

Record StackFrame : Type := mkStackFrame {
  MethodName : string;
  FileName : string;
  FilePath : string;
  LineNumber : Z;
  PackageName : string;
  IsNative : bool;
  SourceAvailable : bool
}.

(** The struct [Variable] ([Variable] and [Type] are reserved words here).
    [Children] and [ArrayElements] left out of a struct literal are the nil
    map and the nil slice, here the empty ones. *)
Inductive Variable_ : Type := mkVariable {
  Name : string;
  Type_ : string;
  Value : string;
  IsNull : bool;
  IsTruncated : bool;
  Children : gmap string Variable_;
  ArrayElements : list Variable_;
  ArrayLength : option Z
}.

Definition leaf (name type value : string) (isNull isTruncated : bool) : Variable_ :=
  {| Name := name; Type_ := type; Value := value; IsNull := isNull;
     IsTruncated := isTruncated; Children := ∅; ArrayElements := [];
     ArrayLength := None |}.

(** ** captureValue *)

(** The kinds of the second [case] of the switch. *)
Definition is_scalar_kind (k : Kind) : bool :=
  match k with
  | KBool | KInt | KInt8 | KInt16 | KInt32 | KInt64
  | KUint | KUint8 | KUint16 | KUint32 | KUint64
  | KFloat32 | KFloat64 | KComplex64 | KComplex128 => true
  | _ => false
  end.

Definition type_string (value : GoValue) : string :=
  match TypeOf value with
  | Some t => TypeString t
  | None => ""
  end.

(** The three loops of [captureValue].  [capture name x] stands for the
    recursive call [captureValue(name, x, depth+1, maxDepth)]. *)
Section Loops.

Variable capture : string -> GoValue -> result Variable_.

(** [for i := 0; i < maxElements; i++] over [v.Index(i)]; [rest] holds the
    elements from index [i] on. *)
Fixpoint sliceLoop (maxElements : Z) (rest : list GoValue) (i : Z)
  (elements : list Variable_) : result (list Variable_) :=
  if i <? maxElements then
    match rest with
    | [] => Panic "reflect: slice index out of range"
    | x :: rest' =>
        elem ← capture ("[" ++ fmt_d i ++ "]") x;
        sliceLoop maxElements rest' (i + 1) (elements ++ [elem])%list
    end
  else Ok elements.

(** [for i := 0; i < maxKeys; i++] over [keys[i]]: [MapIndex] returns the
    zero [Value] for a key that is not found, and [Interface] panics on
    it. *)
Fixpoint mapLoop (maxKeys : Z) (rest : list (string * bool * GoValue)) (i : Z)
  (children : gmap string Variable_) : result (gmap string Variable_) :=
  if i <? maxKeys then
    match rest with
    | [] => Panic "runtime error: index out of range"
    | (keyStr, found, val) :: rest' =>
        if found then
          c ← capture keyStr val;
          mapLoop maxKeys rest' (i + 1) (<[keyStr := c]> children)
        else Panic "reflect: call of reflect.Value.Interface on zero Value"
    end
  else Ok children.

(** [for i := 0; i < t.NumField() && i < 100; i++] over the fields. *)
Fixpoint structLoop (rest : list (string * bool * GoValue)) (i : Z)
  (children : gmap string Variable_) : result (gmap string Variable_) :=
  match rest with
  | [] => Ok children
  | (fieldName, exported, fieldValue) :: rest' =>
      if i <? 100 then
        if negb exported then structLoop rest' (i + 1) children
        else
          c ← capture fieldName fieldValue;
          structLoop rest' (i + 1) (<[fieldName := c]> children)
      else Ok children
  end.

End Loops.

(** [captureValue]: the nil test, the depth guard, then the switch on the
    kind.  The value of an [interface{}] never has the kind [Interface],
    and past the nil test never the kind [Invalid], so the first case of the
    switch is not reached and the case of pointers is the one of [Ptr].  A
    pointer is followed at the same depth. *)
Fixpoint captureValue (name : string) (value : GoValue) (depth maxDepth : Z)
  {struct value} : result Variable_ :=
  match value with
  | VNil => Ok (leaf name "nil" "nil" true false)
  | _ =>
    if depth >? maxDepth then
      Ok (leaf name (type_string value) "<max depth exceeded>" false true)
    else
      let capture := fun name x => captureValue name x (depth + 1) maxDepth in
      match value with
      | VNil => Ok (leaf name "invalid" "invalid" true false)
      | VScalar t k text =>
          if is_scalar_kind k then Ok (leaf name (TypeString t) text false false)
          else Ok (leaf name (TypeString t) ("<" ++ KindString k ++ ">") false false)
      | VString t s =>
          let truncated := len_s s >? 1000 in
          let s := if truncated then substring 0 1000 s else s in
          Ok (leaf name "string" s false truncated)
      | VNilPointer t => Ok (leaf name (TypeString t) "nil" true false)
      | VPointer t elem => captureValue name elem depth maxDepth
      | VSlice t _ elems =>
          let length := len elems in
          let maxElements := if length <? 100 then length else 100 in
          elements ← sliceLoop capture maxElements elems 0 [];
          Ok {| Name := name; Type_ := TypeString t;
                Value := "[" ++ fmt_d length ++ " items]";
                IsNull := false; IsTruncated := length >? 100;
                Children := ∅; ArrayElements := elements;
                ArrayLength := Some length |}
      | VMap t keys =>
          let maxKeys := if len keys <? 100 then len keys else 100 in
          children ← mapLoop capture maxKeys keys 0 ∅;
          Ok {| Name := name; Type_ := TypeString t;
                Value := "map[" ++ fmt_d (len keys) ++ "]";
                IsNull := false; IsTruncated := len keys >? 100;
                Children := children; ArrayElements := [];
                ArrayLength := None |}
      | VStruct t fields =>
          children ← structLoop capture fields 0 ∅;
          Ok {| Name := name; Type_ := TypeString t;
                Value := "<" ++ TypeName t ++ ">";
                IsNull := false; IsTruncated := false;
                Children := children; ArrayElements := [];
                ArrayLength := None |}
      end
  end.

(** The node the depth guard builds is recognised by its two marks: it is
    truncated and its value is the placeholder text. *)
Definition is_max_depth_placeholder (v : Variable_) : bool :=
  IsTruncated v && String.eqb (Value v) "<max depth exceeded>".

(** A node without children of either sort. *)
Definition is_terminal (v : Variable_) : Prop :=
  Children v = ∅ /\ ArrayElements v = [] /\ ArrayLength v = None.

(** Every map key met in [value] equals itself, so that [MapIndex] finds
    the entry of every key that [MapKeys] lists. *)
Fixpoint keys_found (value : GoValue) : bool :=
  match value with
  | VNil | VScalar _ _ _ | VString _ _ | VNilPointer _ => true
  | VPointer _ elem => keys_found elem
  | VSlice _ _ elems => List.forallb keys_found elems
  | VMap _ entries =>
      List.forallb (fun e => snd (fst e) && keys_found (snd e)) entries
  | VStruct _ fields =>
      List.forallb (fun f => keys_found (snd f)) fields
  end.

(** [CaptureValue]. *)
Definition CaptureValue (name : string) (value : GoValue) (maxDepth : Z)
  : result Variable_ :=
  captureValue name value 0 maxDepth.

(** ** captureStackTrace *)

Definition last_or {A} (l : list A) (d : A) : A := List.last l d.

Definition extractFunctionName (fullName : string) : string :=
  let parts := Split fullName "/" in
  if len parts >? 0 then
    let last := last_or parts "" in
    let dotParts := Split last "." in
    if len dotParts >? 1 then last_or dotParts "" else last
  else fullName.

Definition extractPackageName (fullName : string) : string :=
  let lastSlash := LastIndex fullName "/" in
  let fullName := if lastSlash >=? 0 then slice_from fullName (lastSlash + 1)
                  else fullName in
  let firstDot := Index fullName "." in
  if firstDot >=? 0 then slice_to fullName firstDot else fullName.

Definition extractFileName (path : string) : string :=
  let lastSlash := LastIndex path "/" in
  if lastSlash >=? 0 then slice_from path (lastSlash + 1) else path.

Definition stackFrameOf (frame : Frame) : StackFrame :=
  {| MethodName := extractFunctionName (Function frame);
     FilePath := File frame;
     FileName := extractFileName (File frame);
     LineNumber := Line frame;
     PackageName := extractPackageName (Function frame);
     IsNative := HasPrefix (File frame) "runtime/";
     SourceAvailable := negb (Contains (File frame) "/pkg/mod/") |}.

(** The [for] loop of [captureStackTrace] over the frame iterator.  The
    match on [frameIter] is the call of [Next] (lemma [sampleLoop_Next]
    below): the loop leaves as soon as [more] is false, before it looks at
    the frame that came with it. *)
Fixpoint sampleLoop (frameIter : list Frame) (frames : list StackFrame)
  : list StackFrame :=
  match frameIter with
  | [] => frames
  | frame :: rest =>
      let more := match rest with [] => false | _ => true end in
      if negb more then frames
      else if HasPrefix (Function frame) "runtime." then sampleLoop rest frames
      else
        let frames := (frames ++ [stackFrameOf frame])%list in
        if len frames >=? 50 then frames else sampleLoop rest frames
  end.

Definition captureStackTrace (skip : nat) (stack : list Frame) : list StackFrame :=
  let pcs := Callers skip 50 stack in
  sampleLoop pcs [].

(** ** Errors *)

(** The method [Unwrap] of an error type, if it has one: a type has at most
    one method of that name.  What is recorded is the outcome of calling it:
    the value it returns, or the panic it ends in. *)
Inductive UnwrapMethod (E : Type) : Type :=
| NoUnwrap
| UnwrapOne (inner : result (option E))
| UnwrapMany (errs : result (list (option E))).
Arguments NoUnwrap {E}.
Arguments UnwrapOne {E} inner.
Arguments UnwrapMany {E} errs.

(** A non-nil [error]: the dynamic value behind the interface, and the
    outcome of a call of each accessor method it has.  A method is code of
    the error's type: a call returns a value or panics, as [Error] does when
    it has a value receiver, or reads a field, and the interface holds a
    nil pointer.  A nil [error] is [None] of [option GoError]. *)
Inductive GoError : Type := mkError {
  dyn : GoValue;
  Error : result string;
  Unwrap : UnwrapMethod GoError;
  Cause : option (result (option GoError))
}.

(** [reflect.ValueOf(err)], as the value it wraps. *)
Definition ValueOf (err : option GoError) : GoValue :=
  match err with
  | None => VNil
  | Some e => dyn e
  end.

Definition getErrorType (err : option GoError) : string :=
  match TypeOf (ValueOf err) with
  | None => "error"
  | Some (TPointer elem) => TypeString elem
  | Some t => TypeString t
  end.

(** ** calculateFingerprint *)

(** The loop over [stackTrace], with its counter [added] and the slice
    [parts] it appends to. *)
Fixpoint fingerprintParts (stackTrace : list StackFrame) (added : Z)
  (parts : list string) : list string :=
  match stackTrace with
  | [] => parts
  | frame :: rest =>
      if added >=? 5 then parts
      else if IsNative frame then fingerprintParts rest added parts
      else
        let part := MethodName frame ++ ":" ++ fmt_d (LineNumber frame) in
        fingerprintParts rest (added + 1) (parts ++ [part])%list
  end.

Definition calculateFingerprint (err : option GoError)
  (stackTrace : list StackFrame) : string :=
  let parts := fingerprintParts stackTrace 0 [getErrorType err] in
  let hash := Sha256.Sum256 (bytes_of (Join parts ":")) in
  Sha256.EncodeToString (List.firstn 8 hash).

(** The fingerprint as the specification words it: the type name, then up
    to the first five frames that are not native, each as [method:line],
    joined by a colon; the first sixteen hexadecimal characters of the
    SHA-256 digest of that key. *)
Definition frame_part (frame : StackFrame) : string :=
  MethodName frame ++ ":" ++ fmt_d (LineNumber frame).

Definition non_native (stackTrace : list StackFrame) : list StackFrame :=
  List.filter (fun frame => negb (IsNative frame)) stackTrace.

Definition spec_fingerprint_key (typeName : string) (stackTrace : list StackFrame)
  : string :=
  Join (typeName :: List.map frame_part (List.firstn 5 (non_native stackTrace))) ":".

Definition hex16 (key : string) : string :=
  substring 0 16 (Sha256.EncodeToString (Sha256.Sum256 (bytes_of key))).

Definition spec_fingerprint (typeName : string) (stackTrace : list StackFrame)
  : string :=
  hex16 (spec_fingerprint_key typeName stackTrace).

(** ** extractErrorFields, extractWrappedErrors *)

(** The loop over the fields of the struct; an exported field of a value
    that came from [reflect.ValueOf] can always be read ([CanInterface]). *)
Fixpoint errorFieldsLoop (fields : list (string * bool * GoValue)) (i : Z)
  (vars : gmap string Variable_) (maxDepth : Z) : result (gmap string Variable_) :=
  match fields with
  | [] => Ok vars
  | (name, exported, fieldValue) :: rest =>
      if i <? 50 then
        if negb exported then errorFieldsLoop rest (i + 1) vars maxDepth
        else
          let fieldName := "err." ++ name in
          c ← captureValue fieldName fieldValue 0 maxDepth;
          errorFieldsLoop rest (i + 1) (<[fieldName := c]> vars) maxDepth
      else Ok vars
  end.

Definition extractErrorFields (err : option GoError)
  (vars : gmap string Variable_) (maxDepth : Z) : result (gmap string Variable_) :=
  match ValueOf err with
  | VNilPointer _ => Ok vars
  | v =>
      let v := match v with VPointer _ elem => elem | _ => v end in
      match v with
      | VStruct _ fields => errorFieldsLoop fields 0 vars maxDepth
      | _ => Ok vars
      end
  end.

(** [e.Error()] on an interface value: a nil interface has no method to
    call; otherwise the outcome is the one of the method. *)
Definition callError (e : option GoError) : result string :=
  match e with
  | None => Panic "runtime error: invalid memory address or nil pointer dereference"
  | Some e => Error e
  end.

(** The loop over the errors of [Unwrap() []error]. *)
Fixpoint wrappedErrorsLoop (errors : list (option GoError)) (i : Z)
  (elements : list Variable_) : result (list Variable_) :=
  match errors with
  | [] => Ok elements
  | e :: rest =>
      if i >=? 10 then Ok elements
      else
        msg ← callError e;
        let element := leaf ("[" ++ fmt_d i ++ "]") (getErrorType e) msg false false in
        wrappedErrorsLoop rest (i + 1) (elements ++ [element])%list
  end.

(** The three blocks of [extractWrappedErrors], one for each method
    looked for: [Unwrap() error], [Unwrap() []error], [Cause() error]. *)
Definition unwrapStep (err : option GoError) (vars : gmap string Variable_)
  (maxDepth : Z) : result (gmap string Variable_) :=
  match Unwrap <$> err with
  | Some (UnwrapOne call) =>
      inner ← call;
      match inner with
      | Some inner =>
          msg ← callError (Some inner);
          extractErrorFields (Some inner)
            (<["wrapped_error" :=
                 leaf "wrapped_error" (getErrorType (Some inner)) msg false false]> vars)
            maxDepth
      | None => Ok vars
      end
  | _ => Ok vars
  end.

Definition unwrapManyStep (err : option GoError) (vars : gmap string Variable_)
  : result (gmap string Variable_) :=
  match Unwrap <$> err with
  | Some (UnwrapMany call) =>
      errors ← call;
      if len errors >? 0 then
        elements ← wrappedErrorsLoop errors 0 [];
        let length := len errors in
        Ok (<["wrapped_errors" :=
                {| Name := "wrapped_errors"; Type_ := "[]error";
                   Value := "[" ++ fmt_d length ++ " errors]";
                   IsNull := false; IsTruncated := false; Children := ∅;
                   ArrayElements := elements; ArrayLength := Some length |}]> vars)
      else Ok vars
  | _ => Ok vars
  end.

Definition causeStep (err : option GoError) (vars : gmap string Variable_)
  : result (gmap string Variable_) :=
  match Cause <$> err with
  | Some (Some call) =>
      cause ← call;
      match cause with
      | Some cause =>
          msg ← callError (Some cause);
          Ok (<["cause" := leaf "cause" (getErrorType (Some cause)) msg false false]> vars)
      | None => Ok vars
      end
  | _ => Ok vars
  end.

Definition extractWrappedErrors (err : option GoError)
  (vars : gmap string Variable_) (maxDepth : Z) : result (gmap string Variable_) :=
  vars ← unwrapStep err vars maxDepth;
  vars ← unwrapManyStep err vars;
  causeStep err vars.

(** An error that [CaptureError] can inspect: the accessor methods it calls
    return, no error is nil where its message is asked for, and the values
    it carries have their map keys found. *)
Definition has_message (e : option GoError) : bool := is_ok (callError e).

Definition inspectable (err : GoError) : bool :=
  keys_found (dyn err)
  && is_ok (Error err)
  && match Unwrap err with
     | NoUnwrap => true
     | UnwrapOne (Ok None) => true
     | UnwrapOne (Ok (Some inner)) => is_ok (Error inner) && keys_found (dyn inner)
     | UnwrapOne (Panic _) => false
     | UnwrapMany (Ok errors) => List.forallb has_message (List.firstn 10 errors)
     | UnwrapMany (Panic _) => false
     end
  && match Cause err with
     | None => true
     | Some (Ok None) => true
     | Some (Ok (Some cause)) => is_ok (Error cause)
     | Some (Panic _) => false
     end.

Definition ctx_inspectable (ctx : gmap string GoValue) : bool :=
  List.forallb (fun kv => keys_found (snd kv)) (map_to_list ctx).

(** ** CaptureError *)

Record RuntimeInfo : Type := mkRuntimeInfo {
  RuntimeName : string;
  RuntimeVersion : string;
  Platform : string;
  Arch : string;
  NumCPU : Z;
  NumGoroutine : Z
}.

Record ExceptionCapture : Type := mkExceptionCapture {
  ID : string;
  ExceptionType : string;
  Message : string;
  Fingerprint : string;
  StackTrace : list StackFrame;
  LocalVariables : gmap string Variable_;
  Context : gmap string GoValue;
  CapturedAt : string;
  AgentID : string;
  Environment : string;
  Runtime : string;
  RuntimeInfo_ : RuntimeInfo
}.

(** What a call of [CaptureError] reads from its surroundings: the call
    stack of the goroutine, a fresh UUID and the formatted time. *)
Record World : Type := mkWorld {
  stack : list Frame;
  uuid : string;
  now : string
}.

(** The loop [for key, value := range ctx], one step and the whole; the
    keys are distinct, so the map it builds does not depend on the order of
    the iteration. *)
Definition contextStep (maxDepth : Z) (acc : result (gmap string Variable_))
  (kv : string * GoValue) : result (gmap string Variable_) :=
  localVariables ← acc;
  c ← captureValue (fst kv) (snd kv) 0 maxDepth;
  Ok (<[fst kv := c]> localVariables).

Definition captureContext (ctx : gmap string GoValue) (maxDepth : Z)
  (localVariables : gmap string Variable_) : result (gmap string Variable_) :=
  List.fold_left (contextStep maxDepth) (map_to_list ctx) (Ok localVariables).

(** [CaptureError]; a nil [ctx] is the empty map. *)
Definition CaptureError (w : World) (err : option GoError) (maxDepth : Z)
  (ctx : gmap string GoValue) : result ExceptionCapture :=
  let stackTrace := captureStackTrace 3 (stack w) in
  let fingerprint := calculateFingerprint err stackTrace in
  let context := ctx in
  localVariables ← captureContext ctx maxDepth ∅;
  localVariables ← extractErrorFields err localVariables maxDepth;
  localVariables ← extractWrappedErrors err localVariables maxDepth;
  message ← callError err;
  Ok {| ID := uuid w;
        ExceptionType := getErrorType err;
        Message := message;
        Fingerprint := fingerprint;
        StackTrace := stackTrace;
        LocalVariables := localVariables;
        Context := context;
        CapturedAt := now w;
        AgentID := ""; Environment := ""; Runtime := "";
        RuntimeInfo_ := mkRuntimeInfo "" "" "" "" 0 0 |}.

(** ** Inputs on which the properties are tried *)

(** A value with parts, used where a property is tried on an input. *)
Definition sample_value : GoValue :=
  VSlice (TLiteral "[]interface {}") false
    [VScalar (TBasic "int") KInt "1"; VNil; VString (TBasic "string") "go"].

(** An error without parts and a map with a NaN key. *)
Definition plain_error : GoError :=
  {| dyn := VPointer (TPointer (TDefined "errors" "errorString"))
              (VStruct (TDefined "errors" "errorString")
                 [("s", false, VString (TBasic "string") "boom")]);
     Error := Ok "boom"; Unwrap := NoUnwrap; Cause := None |}.

Definition nan_keyed_map : GoValue :=
  VMap (TLiteral "map[float64]string")
    [("NaN", false, VString (TBasic "string") "ratio")].

(** An error that is a nil pointer of a type whose [Error] method reads a
    field of its receiver, and an error with an exported field that holds
    the map with the NaN key. *)
Definition typed_nil_error : GoError :=
  {| dyn := VNilPointer (TPointer (TDefined "main" "QueryError"));
     Error := Panic "runtime error: invalid memory address or nil pointer dereference";
     Unwrap := NoUnwrap; Cause := None |}.

Definition ratio_error : GoError :=
  {| dyn := VPointer (TPointer (TDefined "main" "RatioError"))
              (VStruct (TDefined "main" "RatioError")
                 [("Ratios", true, nan_keyed_map)]);
     Error := Ok "bad ratio"; Unwrap := NoUnwrap; Cause := None |}.

(** An error of the type [OrderNotFoundError] declared in package [pkg],
    raised through a pointer, and the frame of [FetchOrder] at line 42. *)
Definition order_not_found (pkg : string) : GoError :=
  {| dyn := VPointer (TPointer (TDefined pkg "OrderNotFoundError"))
              (VStruct (TDefined pkg "OrderNotFoundError")
                 [("OrderID", true, VString (TBasic "string") "A-17")]);
     Error := Ok "order not found"; Unwrap := NoUnwrap; Cause := None |}.

Definition fetch_order_frame : StackFrame :=
  {| MethodName := "FetchOrder"; FileName := "orders.go";
     FilePath := "/app/orders.go"; LineNumber := 42; PackageName := "main";
     IsNative := false; SourceAvailable := true |}.

End Capture.

(* ===================================================================== *)
(** * Package transport                                                    *)
(* ===================================================================== *)

Module Transport.

Import Go.
Local Open Scope Z_scope.

(** A decoded JSON value, as far as the package inspects it. *)
Inductive JSON : Type :=
| JNull
| JBool (b : bool)
| JNumber (n : Z)
| JString (s : string)
| JComposite.

(** The [Payload interface{}] of a message: a [map[string]interface{}], any
    other value that [json.Marshal] encodes, or a value it does not. *)
Inductive Payload : Type :=
| PObject (fields : gmap string JSON)
| PValue
| PUnencodable.

Record Message : Type := mkMessage {
  Type_ : string;
  Payload_ : Payload;
  Timestamp : Z
}.

(** [json.Marshal(msg)]: the encoded message stands for itself. *)
Definition Marshal (msg : Message) : option Message :=
  match Payload_ msg with
  | PUnencodable => None
  | _ => Some msg
  end.

(** What the connection does to the outside, in the order it does it. *)
Inductive Event : Type :=
| EvDial
| EvWrite (data : Message)
| EvClose
| EvSleep (d : Z).

(** The struct [Connection].  [conn] is [None] for the nil pointer and
    the number of the socket otherwise; [messageQueue] is the content of the
    buffered channel, oldest first; [done] tells whether the channel [done]
    is closed.  [trace] is not a field of the Go struct: it records the
    events so far, oldest first. *)
Record Connection : Type := mkConnection {
  url : string;
  apiKey : string;
  debug : bool;
  conn : option nat;
  connected : bool;
  authenticated : bool;
  reconnectAttempts : Z;
  maxReconnectAttempts : Z;
  reconnectDelay : Z;
  messageQueue : list Message;
  done : bool;
  trace : list Event
}.

Definition queueCapacity : Z := 100.

Definition NewConnection (url apiKey : string) (debug : bool) : Connection :=
  {| url := url; apiKey := apiKey; debug := debug;
     conn := None; connected := false; authenticated := false;
     reconnectAttempts := 0;
     maxReconnectAttempts := 10;
     reconnectDelay := Second;
     messageQueue := [];
     done := false;
     trace := [] |}.

(** Field updates. *)
Definition set_conn (c : Connection) (s : option nat) : Connection :=
  mkConnection (url c) (apiKey c) (debug c) s (connected c) (authenticated c)
    (reconnectAttempts c) (maxReconnectAttempts c) (reconnectDelay c)
    (messageQueue c) (done c) (trace c).
Definition set_connected (c : Connection) (b : bool) : Connection :=
  mkConnection (url c) (apiKey c) (debug c) (conn c) b (authenticated c)
    (reconnectAttempts c) (maxReconnectAttempts c) (reconnectDelay c)
    (messageQueue c) (done c) (trace c).
Definition set_authenticated (c : Connection) (b : bool) : Connection :=
  mkConnection (url c) (apiKey c) (debug c) (conn c) (connected c) b
    (reconnectAttempts c) (maxReconnectAttempts c) (reconnectDelay c)
    (messageQueue c) (done c) (trace c).
Definition set_reconnectAttempts (c : Connection) (n : Z) : Connection :=
  mkConnection (url c) (apiKey c) (debug c) (conn c) (connected c) (authenticated c)
    n (maxReconnectAttempts c) (reconnectDelay c)
    (messageQueue c) (done c) (trace c).
Definition set_maxReconnectAttempts (c : Connection) (n : Z) : Connection :=
  mkConnection (url c) (apiKey c) (debug c) (conn c) (connected c) (authenticated c)
    (reconnectAttempts c) n (reconnectDelay c)
    (messageQueue c) (done c) (trace c).
Definition set_messageQueue (c : Connection) (q : list Message) : Connection :=
  mkConnection (url c) (apiKey c) (debug c) (conn c) (connected c) (authenticated c)
    (reconnectAttempts c) (maxReconnectAttempts c) (reconnectDelay c)
    q (done c) (trace c).
Definition set_done (c : Connection) (b : bool) : Connection :=
  mkConnection (url c) (apiKey c) (debug c) (conn c) (connected c) (authenticated c)
    (reconnectAttempts c) (maxReconnectAttempts c) (reconnectDelay c)
    (messageQueue c) b (trace c).
Definition emit (c : Connection) (e : Event) : Connection :=
  mkConnection (url c) (apiKey c) (debug c) (conn c) (connected c) (authenticated c)
    (reconnectAttempts c) (maxReconnectAttempts c) (reconnectDelay c)
    (messageQueue c) (done c) (trace c ++ [e])%list.

(** ** The outbound queue *)

(** A send on the buffered channel that does not wait: [None] when the
    buffer is full. *)
Definition trySend (q : list Message) (data : Message) : option (list Message) :=
  if len q <? queueCapacity then Some (q ++ [data])%list else None.

(** A receive that does not wait: [None] when the buffer is empty. *)
Definition tryRecv (q : list Message) : option (Message * list Message) :=
  match q with
  | [] => None
  | m :: q' => Some (m, q')
  end.

(** How a call of [send] ends, run on its own against the queue: it returns,
    or it waits at the last, plain send because the buffer is full. *)
Inductive SendOutcome : Type :=
| Returned (c : Connection)
| Blocked (c : Connection).

Definition after_send (o : SendOutcome) : Connection :=
  match o with Returned c | Blocked c => c end.

Definition send (c : Connection) (msgType : string) (payload : Payload)
  (nowMilli : Z) : SendOutcome :=
  let msg := {| Type_ := msgType; Payload_ := payload; Timestamp := nowMilli |} in
  match Marshal msg with
  | None => Returned c
  | Some data =>
      let connected := connected c && authenticated c in
      if connected then
        match trySend (messageQueue c) data with
        | Some q => Returned (set_messageQueue c q)
        | None =>
            let q := match tryRecv (messageQueue c) with
                     | Some (_, q) => q
                     | None => messageQueue c
                     end in
            match trySend q data with
            | Some q => Returned (set_messageQueue c q)
            | None => Blocked (set_messageQueue c q)
            end
        end
      else Returned c
  end.

(** What another goroutine does to the channel between two statements of
    a call of [send]: the first [select] of another call of [send], which
    enqueues when it finds room, or the receive of the main loop of
    [runMessageLoop]. *)
Inductive QueueAction : Type :=
| OtherSend (data : Message)
| LoopReceive.

Definition act (q : list Message) (a : QueueAction) : list Message :=
  match a with
  | OtherSend data => match trySend q data with Some q' => q' | None => q end
  | LoopReceive => match tryRecv q with Some (_, q') => q' | None => q end
  end.

(** [send] with the other goroutines at work: [afterFull] is what they do
    between the first [select], which found the buffer full, and the receive
    that drops the oldest message, [afterDrop] what they do between that
    receive and the last statement, the plain send [c.messageQueue <- data].
    That statement waits while the buffer is full. *)
Definition sendAmong (c : Connection) (msgType : string) (payload : Payload)
  (nowMilli : Z) (afterFull afterDrop : list QueueAction) : SendOutcome :=
  let msg := {| Type_ := msgType; Payload_ := payload; Timestamp := nowMilli |} in
  match Marshal msg with
  | None => Returned c
  | Some data =>
      let connected := connected c && authenticated c in
      if connected then
        match trySend (messageQueue c) data with
        | Some q => Returned (set_messageQueue c q)
        | None =>
            let q := List.fold_left act afterFull (messageQueue c) in
            let q := match tryRecv q with
                     | Some (_, q) => q
                     | None => q
                     end in
            let q := List.fold_left act afterDrop q in
            match trySend q data with
            | Some q => Returned (set_messageQueue c q)
            | None => Blocked (set_messageQueue c q)
            end
        end
      else Returned c
  end.

Definition sendDirect (c : Connection) (msgType : string) (payload : Payload)
  (nowMilli : Z) : Connection :=
  let msg := {| Type_ := msgType; Payload_ := payload; Timestamp := nowMilli |} in
  match Marshal msg with
  | None => c
  | Some data =>
      match conn c with
      | Some _ => emit c (EvWrite data)
      | None => c
      end
  end.

(** ** Inbound messages *)

(** [Disconnect]: closing a channel that is closed already panics. *)
Definition Disconnect (c : Connection) : result Connection :=
  if done c then Panic "close of closed channel"
  else
    let c := set_done c true in
    let c := match conn c with
             | Some _ => set_conn (emit c EvClose) None
             | None => c
             end in
    Ok (set_authenticated (set_connected c false) false).

Definition handleRegistered (c : Connection) : Connection :=
  set_authenticated c true.

(** [payloadMap[key].(string)] with the comma-ok form: the empty string
    when the key is absent or holds no string. *)
Definition string_field (payloadMap : gmap string JSON) (key : string) : string :=
  match payloadMap !! key with
  | Some (JString s) => s
  | _ => ""
  end.

Definition handleError (c : Connection) (payload : Payload) : result Connection :=
  match payload with
  | PObject payloadMap =>
      let code := string_field payloadMap "code" in
      if String.eqb code "auth_error" || String.eqb code "invalid_api_key" then
        let c := set_maxReconnectAttempts c 0 in
        Disconnect c
      else Ok c
  | _ => Ok c
  end.

(** [handleMessage] on the outcome of [json.Unmarshal]: [None] is data that
    does not parse. *)
Definition handleMessage (c : Connection) (data : option Message) : result Connection :=
  match data with
  | None => Ok c
  | Some msg =>
      if String.eqb (Type_ msg) "registered" then Ok (handleRegistered c)
      else if String.eqb (Type_ msg) "error" then handleError c (Payload_ msg)
      else Ok c
  end.

(** ** The connect loop *)

Definition registerPayload (c : Connection) : Payload :=
  PObject (<["api_key" := JString (apiKey c)]>
          (<["agent_version" := JString "1.0.0"]>
          (<["hostname" := JString ""]>
          (<["runtime" := JString "go"]> ∅)))).

(** What one turn of the loop meets: a cancelled context, a dial that
    fails, or a dial that succeeds, with the time of the [register] message
    and the messages the socket then delivers until a read fails. *)
Inductive Turn : Type :=
| CtxDone
| DialFails
| DialSucceeds (sock : nat) (nowMilli : Z) (inbound : list (option Message)).

(** [connect] once the dial succeeded, [authenticate] included. *)
Definition connect_ok (c : Connection) (sock : nat) (nowMilli : Z) : Connection :=
  let c := set_connected (set_conn c (Some sock)) true in
  sendDirect c "register" (registerPayload c) nowMilli.

(** The reading goroutine of [runMessageLoop] followed by the [readDone]
    case of the main loop: each message is handled in turn; the call
    [c.conn.ReadMessage()] needs a socket; when the read fails both flags
    are cleared.  Heartbeats and the draining of the queue do not touch the
    fields the connect loop reads and are left out.  The result is the
    connection when the loop returns or a goroutine panics, and the panic
    if there is one. *)
Fixpoint runMessageLoop (c : Connection) (inbound : list (option Message))
  : Connection * option string :=
  match conn c with
  | None => (c, Some "runtime error: invalid memory address or nil pointer dereference")
  | Some _ =>
      match inbound with
      | [] => (set_authenticated (set_connected c false) false, None)
      | data :: rest =>
          match handleMessage c data with
          | Ok c => runMessageLoop c rest
          | Panic msg => (c, Some msg)
          end
      end
  end.

(** The delay before the next attempt. *)
Definition backoffDelay (c : Connection) : Z :=
  let delay := mul64 (reconnectDelay c)
                 (shl64 1 (to_uint (reconnectAttempts c - 1))) in
  if delay >? 60 * Second then 60 * Second else delay.

(** How far the loop got: it has returned, it is alive and waits for the
    next turn, or a goroutine panicked. *)
Inductive Status : Type :=
| Stopped
| Running
| Crashed (msg : string).

(** [Connect], one turn of the loop per element of [turns]. *)
Fixpoint Connect (c : Connection) (turns : list Turn) : Connection * Status :=
  if done c then (c, Stopped)
  else
    match turns with
    | [] => (c, Running)
    | CtxDone :: _ => (c, Stopped)
    | DialFails :: rest =>
        let c := emit c EvDial in
        let c := set_reconnectAttempts c (reconnectAttempts c + 1) in
        if reconnectAttempts c >? maxReconnectAttempts c then (c, Stopped)
        else
          let delay := backoffDelay c in
          let c := emit c (EvSleep delay) in
          Connect c rest
    | DialSucceeds sock nowMilli inbound :: rest =>
        let c := emit c EvDial in
        let c := connect_ok c sock nowMilli in
        let c := set_reconnectAttempts c 0 in
        match runMessageLoop c inbound with
        | (c, None) => Connect c rest
        | (c, Some msg) => (c, Crashed msg)
        end
    end.

(** The dials and the waits in a trace. *)
Definition dials (tr : list Event) : nat :=
  List.length (List.filter (fun e => match e with EvDial => true | _ => false end) tr).

Definition sleeps (tr : list Event) : list Z :=
  List.flat_map (fun e => match e with EvSleep d => [d] | _ => [] end) tr.

(** An [error] envelope with the given payload map. *)
Definition error_envelope (payloadMap : gmap string JSON) (timestamp : Z)
  : option Message :=
  Some {| Type_ := "error"; Payload_ := PObject payloadMap; Timestamp := timestamp |}.

(** ** Inputs on which the properties are tried *)

(** An authenticated connection whose queue holds the 100 messages with
    the timestamps 0 to 99. *)
Definition queued (from count : nat) : list Message :=
  List.map (fun i => mkMessage "exception" PValue (Z.of_nat i)) (List.seq from count).

Definition full_connection : Connection :=
  set_messageQueue
    (set_authenticated (set_connected (NewConnection "wss://host" "key" false) true) true)
    (queued 0 100).

(** The payload of an [error] envelope for a rejected key. *)
Definition invalid_key_payload : gmap string JSON :=
  <["code" := JString "invalid_api_key"]> (<["message" := JString "bad key"]> ∅).

End Transport.

(* ===================================================================== *)
(** * Package breakpoint                                                   *)
(* ===================================================================== *)

Module Breakpoint.

Import Go.
Local Open Scope Z_scope.

Definition maxCapturesPerSecond : Z := 50.

(** A [time.Time] is a number of nanoseconds on the monotonic clock.
    [t.Sub(u)]: the difference, kept within the range of [time.Duration]. *)
Definition Sub (t u : Z) : Z :=
  Z.max (- 2 ^ 63) (Z.min (2 ^ 63 - 1) (t - u)).

Record BreakpointInfo : Type := mkBreakpointInfo {
  ID : string;
  FilePath : string;
  LineNumber : Z;
  Condition : string;
  MaxHits : Z;
  HitCount : Z;
  CreatedAt : Z
}.

(** One entry of the slice [buildStackTrace] returns. *)
Record TraceEntry : Type := mkTraceEntry {
  method_name : string;
  file_path : string;
  file_name : string;
  line_number : Z;
  is_native : bool
}.

(** The map handed to [SendBreakpointHit]. *)
Record HitPayload : Type := mkHitPayload {
  captured_at : Z;
  hit_file_path : string;
  hit_line_number : Z;
  stack_trace : list TraceEntry;
  hit_count : Z
}.

(** The struct [Manager].  The map holds pointers in Go; no call below
    keeps a pointer across a change of the map, so the map holds the
    records themselves.  [sent] is not a field of the Go struct: it lists
    the calls of [sender.SendBreakpointHit], oldest first. *)
Record Manager : Type := mkManager {
  debug : bool;
  breakpoints : gmap string BreakpointInfo;
  captureCount : Z;
  captureWindowStart : Z;
  sent : list (string * HitPayload)
}.

Definition NewManager (debug : bool) (now : Z) : Manager :=
  {| debug := debug; breakpoints := ∅; captureCount := 0;
     captureWindowStart := now; sent := [] |}.

Definition SetBreakpoint (m : Manager) (id filePath : string) (lineNumber : Z)
  (condition : string) (maxHits : Z) (now : Z) : Manager :=
  let maxHits := if maxHits <? 1 then 1 else maxHits in
  let maxHits := if maxHits >? 50 then 50 else maxHits in
  let bp := {| ID := id; FilePath := filePath; LineNumber := lineNumber;
               Condition := condition; MaxHits := maxHits; HitCount := 0;
               CreatedAt := now |} in
  mkManager (debug m) (<[id := bp]> (breakpoints m)) (captureCount m)
    (captureWindowStart m) (sent m).

Definition RemoveBreakpoint (m : Manager) (id : string) : Manager :=
  mkManager (debug m) (delete id (breakpoints m)) (captureCount m)
    (captureWindowStart m) (sent m).

(** [rateLimitOk], with the reading [now] of the clock. *)
Definition rateLimitOk (m : Manager) (now : Z) : bool * Manager :=
  let m := if Sub now (captureWindowStart m) >=? Second
           then mkManager (debug m) (breakpoints m) 0 now (sent m)
           else m in
  if captureCount m >=? maxCapturesPerSecond then (false, m)
  else (true, mkManager (debug m) (breakpoints m) (captureCount m + 1)
                (captureWindowStart m) (sent m)).

(** [filepath.Base] with [/] as the separator. *)
Fixpoint trimSlashes (path : string) : string :=
  match path with
  | EmptyString => ""
  | String c rest =>
      match trimSlashes rest with
      | EmptyString => if Ascii.eqb c "/" then "" else String c ""
      | r => String c r
      end
  end.

Definition Base (path : string) : string :=
  if String.eqb path "" then "."
  else
    let path := trimSlashes path in
    let i := LastIndex path "/" in
    let path := if i >=? 0 then slice_from path (i + 1) else path in
    if String.eqb path "" then "/" else path.

Definition traceEntryOf (frame : Frame) : TraceEntry :=
  let fileName := if negb (String.eqb (File frame) "") then Base (File frame)
                  else "" in
  {| method_name := Function frame;
     file_path := File frame;
     file_name := fileName;
     line_number := Line frame;
     is_native := String.eqb (File frame) "" |}.

(** The loop of [buildStackTrace] over the frame iterator: the frame that
    [Next] returns is appended before [more] is looked at, also the zero
    frame of an iterator that has nothing. *)
Fixpoint walkLoop (callFrames : list Frame) (frames : list TraceEntry)
  : list TraceEntry :=
  match callFrames with
  | [] => (frames ++ [traceEntryOf (mkFrame "" "" 0)])%list
  | frame :: rest =>
      let more := match rest with [] => false | _ => true end in
      let frames := (frames ++ [traceEntryOf frame])%list in
      if negb more then frames else walkLoop rest frames
  end.

Definition buildStackTrace (stack : list Frame) : list TraceEntry :=
  let pcs := Callers 3 50 stack in
  walkLoop pcs [].

(** What a call of [Hit] reads from its surroundings: the clock in
    [rateLimitOk], the call stack, the clock for [captured_at]. *)
Record HitWorld : Type := mkHitWorld {
  clock : Z;
  callStack : list Frame;
  clockMilli : Z
}.

(** [bp.HitCount++] and the payload of a hit. *)
Definition bump (bp : BreakpointInfo) : BreakpointInfo :=
  mkBreakpointInfo (ID bp) (FilePath bp) (LineNumber bp) (Condition bp)
    (MaxHits bp) (HitCount bp + 1) (CreatedAt bp).

Definition hitPayload (bp : BreakpointInfo) (hitCount : Z) (w : HitWorld) : HitPayload :=
  {| captured_at := clockMilli w;
     hit_file_path := FilePath bp;
     hit_line_number := LineNumber bp;
     stack_trace := buildStackTrace (callStack w);
     hit_count := hitCount |}.

Definition Hit (m : Manager) (id : string) (w : HitWorld) : Manager :=
  match breakpoints m !! id with
  | None => m
  | Some bp =>
      if HitCount bp >=? MaxHits bp then m
      else
        let '(ok, m) := rateLimitOk m (clock w) in
        if negb ok then m
        else
          let bp := bump bp in
          let hitCount := HitCount bp in
          let payload := hitPayload bp hitCount w in
          mkManager (debug m) (<[id := bp]> (breakpoints m)) (captureCount m)
            (captureWindowStart m) (sent m ++ [(ID bp, payload)])%list
  end.

(** A run of triggers, each with its probe and what it reads. *)
Definition run_hits (m : Manager) (attempts : list (string * HitWorld)) : Manager :=
  List.fold_left (fun m a => Hit m (fst a) (snd a)) attempts m.

(** All the attempts fall into the window that [m] has open. *)
Definition in_window (m : Manager) (attempts : list (string * HitWorld)) : bool :=
  List.forallb (fun a => Sub (clock (snd a)) (captureWindowStart m) <? Second) attempts.

(** ** Inputs on which the properties are tried *)

(** A manager whose window, opened at time 0, already let 50 triggers of
    the probe [b] through. *)
Definition busy_manager : Manager :=
  Nat.iter 50 (fun m => Hit m "b" (mkHitWorld 0 [] 0))
    (SetBreakpoint (NewManager false 0) "b" "b.go" 1 "" 50 0).

(** A fresh manager with two probes, sixty attempts half a second after
    its window opened, and the manager after them. *)
Definition two_probes : Manager :=
  SetBreakpoint (SetBreakpoint (NewManager false 0) "a" "a.go" 1 "" 50 0)
    "b" "b.go" 2 "" 50 0.

Definition sixty_attempts : list (string * HitWorld) :=
  (List.repeat ("a", mkHitWorld 500000000 [] 500) 30
   ++ List.repeat ("b", mkHitWorld 500000000 [] 500) 30)%list.

Definition after_sixty : Manager := run_hits two_probes sixty_attempts.

(** Sixty attempts within a twentieth of a second: thirty of them 0.95 s
    after the window of [two_probes] opened, thirty 1 s after it. *)
Definition straddling_attempts : list (string * HitWorld) :=
  (List.repeat ("a", mkHitWorld 950000000 [] 950) 30
   ++ List.repeat ("b", mkHitWorld 1000000000 [] 1000) 30)%list.

(** All the attempts are made from [first] on and less than one second
    later. *)
Definition within_one_second (first : Z) (attempts : list (string * HitWorld)) : bool :=
  List.forallb (fun a => (first <=? clock (snd a)) && (clock (snd a) - first <? Second))
    attempts.

(** A registered probe and a call stack that ends in the runtime. *)
Definition probe_manager : Manager :=
  SetBreakpoint (NewManager false 0) "p" "handler.go" 12 "" 5 0.

Definition probe_world : HitWorld :=
  mkHitWorld 0
    [ mkFrame "runtime.Callers" "runtime/extern.go" 331;
      mkFrame "breakpoint.(*Manager).buildStackTrace" "breakpoint/manager.go" 183;
      mkFrame "breakpoint.(*Manager).Hit" "breakpoint/manager.go" 106;
      mkFrame "main.handler" "/app/handler.go" 12;
      mkFrame "main.main" "/app/main.go" 30;
      mkFrame "runtime.main" "runtime/proc.go" 283;
      mkFrame "runtime.goexit" "runtime/asm_amd64.s" 1700 ]
    0.

End Breakpoint.

(* ===================================================================== *)
(** * Package transport: the queue in use                                   *)
(* ===================================================================== *)

Module TransportLoop.

Import Go Transport.
Local Open Scope Z_scope.

(** [IsConnected]. *)
Definition IsConnected (c : Connection) : bool := connected c && authenticated c.

(** Calls of [send] one after the other; each message stands for the type,
    the payload and the clock reading of one call. *)
Definition sends (c : Connection) (msgs : list Message) : Connection :=
  List.fold_left
    (fun c m => after_send (send c (Type_ m) (Payload_ m) (Timestamp m))) msgs c.

(** The case [msg := <-c.messageQueue] of the [select] in
    [runMessageLoop]: the case is not ready while the queue is empty; the
    message taken is written only to a socket that is there, connected and
    authenticated. *)
Definition queueCase (c : Connection) : Connection :=
  match tryRecv (messageQueue c) with
  | None => c
  | Some (msg, q) =>
      let c := set_messageQueue c q in
      if match conn c with Some _ => true | None => false end
         && connected c && authenticated c
      then emit c (EvWrite msg)
      else c
  end.

(** The newest [queueCapacity] elements of a list. *)
Definition newest (l : list Message) : list Message :=
  List.skipn (List.length l - Z.to_nat queueCapacity) l.

(** The delays of the reconnect loop lie between one second and a minute. *)
Definition delay_in_range (d : Z) : bool := (Second <=? d) && (d <=? 60 * Second).

End TransportLoop.

(* ===================================================================== *)
(** * float64, as far as the packages use it                               *)
(* ===================================================================== *)

Module Float.

Local Open Scope Z_scope.

(** A [float64]: not a number, an infinity, or the finite value
    [mant * 2 ^ expo]. *)
Inductive float64 : Type :=
| NaN
| Inf (negative : bool)
| Fin (mant expo : Z).

(** [x < y] and [x <= y] on finite values, compared exactly after both
    are brought to the smaller exponent. *)
Definition fin_ltb (m1 e1 m2 e2 : Z) : bool :=
  let k := Z.min e1 e2 in
  m1 * 2 ^ (e1 - k) <? m2 * 2 ^ (e2 - k).

Definition fin_leb (m1 e1 m2 e2 : Z) : bool :=
  let k := Z.min e1 e2 in
  m1 * 2 ^ (e1 - k) <=? m2 * 2 ^ (e2 - k).

(** The comparisons of Go: every comparison with a NaN is false. *)
Definition ltb (x y : float64) : bool :=
  match x, y with
  | NaN, _ | _, NaN => false
  | Inf nx, Inf ny => nx && negb ny
  | Inf nx, Fin _ _ => nx
  | Fin _ _, Inf ny => negb ny
  | Fin m1 e1, Fin m2 e2 => fin_ltb m1 e1 m2 e2
  end.

Definition leb (x y : float64) : bool :=
  match x, y with
  | NaN, _ | _, NaN => false
  | Inf nx, Inf ny => nx || negb ny
  | Inf nx, Fin _ _ => nx
  | Fin _ _, Inf ny => negb ny
  | Fin m1 e1, Fin m2 e2 => fin_leb m1 e1 m2 e2
  end.

(** [float64(n)] of a small integer, and [x / 256.0] of a finite value:
    both are exact. *)
Definition of_int (n : Z) : float64 := Fin n 0.

Definition div256 (x : float64) : float64 :=
  match x with
  | Fin m e => Fin m (e - 8)
  | _ => x
  end.

(** The integer part of a finite value, towards zero. *)
Definition trunc (mant expo : Z) : Z :=
  if expo >=? 0 then mant * 2 ^ expo else Z.quot mant (2 ^ (- expo)).

(** [int(x)]: the value truncated towards zero when that is an [int]; for a
    value the type cannot hold Go leaves the result to the implementation,
    here [impl]. *)
Definition to_int (impl : float64 -> Z) (x : float64) : Z :=
  match x with
  | Fin m e =>
      let t := trunc m e in
      if (- 2 ^ 63 <=? t) && (t <? 2 ^ 63) then t else impl x
  | _ => impl x
  end.

End Float.

(* ===================================================================== *)
(** * Package breakpoint: commands of the backend                          *)
(* ===================================================================== *)

Module BreakpointCommands.

Import Go Float Breakpoint.
Local Open Scope Z_scope.

(** A value held by a [map[string]interface{}], as [HandleCommand] asserts
    it: a string, a [float64], or a value of another type. *)
Inductive Field : Type :=
| FString (s : string)
| FNumber (f : float64)
| FOther.

(** The [payload interface{}] of a command: a [map[string]interface{}] (a
    nil map reads as the empty one), a [json.RawMessage] with what
    [json.Unmarshal] makes of it ([None] when it reports an error and when
    the data is [null], which leaves the map nil), or a value of another
    type. *)
Inductive CommandPayload : Type :=
| PMap (payloadMap : gmap string Field)
| PRaw (parsed : option (gmap string Field))
| POther.

(** [payloadMap[key].(string)] and [payloadMap[key].(float64)] in the
    comma-ok form. *)
Definition string_of (payloadMap : gmap string Field) (key : string) : string :=
  match payloadMap !! key with
  | Some (FString s) => s
  | _ => ""
  end.

Definition float_of (payloadMap : gmap string Field) (key : string) : option float64 :=
  match payloadMap !! key with
  | Some (FNumber f) => Some f
  | _ => None
  end.

(** [HandleCommand]; [now] is the clock reading [SetBreakpoint] takes. *)
Definition HandleCommand (impl : float64 -> Z) (m : Manager) (command : string)
  (payload : CommandPayload) (now : Z) : Manager :=
  let payloadMap := match payload with
                    | PMap payloadMap => Some payloadMap
                    | PRaw parsed => parsed
                    | POther => None
                    end in
  match payloadMap with
  | None => m
  | Some payloadMap =>
      if String.eqb command "set" then
        let id := string_of payloadMap "id" in
        let filePath := string_of payloadMap "file_path" in
        let filePath := if String.eqb filePath "" then string_of payloadMap "file"
                        else filePath in
        let lineNumber :=
          match float_of payloadMap "line_number" with
          | Some ln => to_int impl ln
          | None =>
              match float_of payloadMap "line" with
              | Some ln => to_int impl ln
              | None => 0
              end
          end in
        let condition := string_of payloadMap "condition" in
        let maxHits := match float_of payloadMap "max_hits" with
                       | Some mh => to_int impl mh
                       | None => 1
                       end in
        SetBreakpoint m id filePath lineNumber condition maxHits now
      else if String.eqb command "remove" then
        let id := string_of payloadMap "id" in
        RemoveBreakpoint m id
      else m
  end.

(** The calls a manager receives. *)
Inductive Call : Type :=
| CallSet (id filePath : string) (lineNumber : Z) (condition : string)
    (maxHits now : Z)
| CallRemove (id : string)
| CallHit (id : string) (w : HitWorld)
| CallCommand (command : string) (payload : CommandPayload) (now : Z).

Definition call (impl : float64 -> Z) (m : Manager) (c : Call) : Manager :=
  match c with
  | CallSet id filePath lineNumber condition maxHits now =>
      SetBreakpoint m id filePath lineNumber condition maxHits now
  | CallRemove id => RemoveBreakpoint m id
  | CallHit id w => Hit m id w
  | CallCommand command payload now => HandleCommand impl m command payload now
  end.

Definition calls (impl : float64 -> Z) (m : Manager) (cs : list Call) : Manager :=
  List.fold_left (call impl) cs m.

(** A registered probe is filed under its own id, with a ceiling between 1
    and 50 and a count that has not passed it. *)
Definition probe_ok (id : string) (bp : BreakpointInfo) : bool :=
  String.eqb (ID bp) id
  && (1 <=? MaxHits bp) && (MaxHits bp <=? 50)
  && (0 <=? HitCount bp) && (HitCount bp <=? MaxHits bp).

Definition payload_ok (p : string * HitPayload) : bool :=
  (1 <=? hit_count (snd p)) && (hit_count (snd p) <=? 50).

Definition registry_ok (m : Manager) : Prop :=
  map_Forall (fun id bp => probe_ok id bp = true) (breakpoints m)
  /\ 0 <= captureCount m <= maxCapturesPerSecond
  /\ forallb payload_ok (sent m) = true.

(** The payloads forwarded so far for one probe. *)
Definition forwarded (id : string) (m : Manager) : list HitPayload :=
  List.map snd (List.filter (fun p => String.eqb (fst p) id) (sent m)).

End BreakpointCommands.

(* ===================================================================== *)
(** * Package agent: sampling                                              *)
(* ===================================================================== *)

Module Agent.

Import Go Float.
Local Open Scope Z_scope.

Record Config : Type := mkConfig {
  APIKey : string;
  BackendURL : string;
  Environment : string;
  SamplingRate : float64;
  MaxCaptureDepth : Z;
  MaxStringLength : Z;
  MaxCollectionSize : Z;
  Debug : bool;
  EnableBreakpoints : bool;
  Hostname : string;
  AgentID : string
}.

(** [ShouldSample]; [b0] is the first of the bytes that [rand.Read]
    delivers. *)
Definition ShouldSample (c : Config) (b0 : Z) : bool :=
  if leb (Fin 1 0) (SamplingRate c) then true
  else if leb (SamplingRate c) (Fin 0 0) then false
  else
    let r := div256 (of_int b0) in
    ltb r (SamplingRate c).

(** Of the 256 values of the byte, those for which the event is sampled. *)
Definition sampled_bytes (c : Config) : list Z :=
  List.filter (ShouldSample c) (List.map Z.of_nat (List.seq 0 256)).

(** The least whole number of 256ths that is not below the finite rate
    [mant * 2 ^ expo]. *)
Definition threshold (mant expo : Z) : Z :=
  if expo >=? -8 then mant * 2 ^ (expo + 8)
  else (mant - 1) / 2 ^ (- 8 - expo) + 1.

End Agent.

(* ===================================================================== *)
(** * Properties of package capture                                        *)
(* ===================================================================== *)

Module CaptureSpec.

Import Go Capture.
Local Open Scope Z_scope.

(** ** The value inspector *)

(** A bind returns when its first part does. *)
Ltac ok_of_bind :=
  match goal with
  | |- is_ok (mbind _ ?r) = true =>
      assert (is_ok r = true); [| destruct r; [reflexivity | discriminate]]
  end.

(** The node of a composite value, read off the equation [H] of its
    capture. *)
Ltac node_of_bind H :=
  match type of H with
  | mbind _ ?r = _ => destruct r; simpl in H; inversion H; subst; clear H
  end.

(** Induction on values, with the parts of slices, maps and structs. *)
Lemma GoValue_parts_ind (P : GoValue -> Prop) :
  P VNil ->
  (forall t k text, P (VScalar t k text)) ->
  (forall t s, P (VString t s)) ->
  (forall t, P (VNilPointer t)) ->
  (forall t elem, P elem -> P (VPointer t elem)) ->
  (forall t a elems, Forall P elems -> P (VSlice t a elems)) ->
  (forall t entries, Forall (fun e => P (snd e)) entries -> P (VMap t entries)) ->
  (forall t fields, Forall (fun f => P (snd f)) fields -> P (VStruct t fields)) ->
  forall value, P value.
Proof.
  intros HNil HScalar HString HNilPtr HPtr HSlice HMap HStruct.
  fix IH 1. intros [ | t k text | t s | t | t elem | t a elems | t entries | t fields].
  - exact HNil.
  - apply HScalar.
  - apply HString.
  - apply HNilPtr.
  - apply HPtr, IH.
  - apply HSlice. induction elems as [|x xs IHxs]; constructor; [apply IH | exact IHxs].
  - apply HMap. induction entries as [|[kf x] xs IHxs]; constructor;
      [apply IH | exact IHxs].
  - apply HStruct. induction fields as [|[kf x] xs IHxs]; constructor;
      [apply IH | exact IHxs].
Qed.

Lemma substring_prefix_length (n : nat) (s : string) :
  (n <= String.length s)%nat -> String.length (substring 0 n s) = n.
Proof.
  revert s. induction n as [|n IH]; intros [|c s] H; simpl in *;
    try reflexivity; try lia.
  rewrite IH; [reflexivity | lia].
Qed.

(** The first test of [captureValue]. *)
Lemma captureValue_nil (name : string) (depth maxDepth : Z) :
  captureValue name VNil depth maxDepth = Ok (leaf name "nil" "nil" true false).
Proof. reflexivity. Qed.

(** The second test of [captureValue]: past the limit every value that is
    not nil gives the same leaf, whatever it contains. *)
Lemma captureValue_past_limit (name : string) (value : GoValue) (depth maxDepth : Z) :
  value <> VNil -> maxDepth < depth ->
  captureValue name value depth maxDepth
  = Ok (leaf name (type_string value) "<max depth exceeded>" false true).
Proof.
  intros Hnil Hd.
  assert (Hgt : (depth >? maxDepth) = true) by lia.
  destruct value; try congruence; simpl; rewrite Hgt; reflexivity.
Qed.

(** Within the limit the node that comes back is not the placeholder. *)
Lemma captureValue_within_limit (name : string) (value : GoValue) (depth maxDepth : Z) :
  depth <= maxDepth ->
  forall v, captureValue name value depth maxDepth = Ok v ->
  is_max_depth_placeholder v = false.
Proof.
  intros Hd.
  assert (Hgt : (depth >? maxDepth) = false) by lia.
  induction value as [ | t k text | t s | t | t elem IH | t a elems _
                     | t entries _ | t fields _ ] using GoValue_parts_ind;
    intros v Hv.
  - inversion Hv; reflexivity.
  - simpl in Hv. rewrite Hgt in Hv.
    destruct (is_scalar_kind k); inversion Hv; reflexivity.
  - simpl in Hv. rewrite Hgt in Hv. inversion Hv; subst; clear Hv.
    unfold is_max_depth_placeholder; simpl.
    destruct (len_s s >? 1000) eqn:Hlen; [|reflexivity].
    simpl. apply String.eqb_neq. intros Heq.
    assert (Hl : String.length (substring 0 1000 s) = 1000%nat).
    { apply substring_prefix_length. unfold len_s in Hlen. lia. }
    rewrite Heq in Hl. vm_compute in Hl. discriminate.
  - simpl in Hv. rewrite Hgt in Hv. inversion Hv; reflexivity.
  - simpl in Hv. rewrite Hgt in Hv. apply IH. exact Hv.
  - simpl in Hv. rewrite Hgt in Hv. node_of_bind Hv.
    unfold is_max_depth_placeholder; simpl. apply andb_false_r.
  - simpl in Hv. rewrite Hgt in Hv. node_of_bind Hv.
    unfold is_max_depth_placeholder; simpl. apply andb_false_r.
  - simpl in Hv. rewrite Hgt in Hv. node_of_bind Hv. reflexivity.
Qed.

(** C1, as stated, fails on the nil value: reached at depth 1 with
    [maxDepth] 0 it gives the nil leaf, which is not truncated and does not
    carry the placeholder text. *)
Lemma C1_counterexample :
  exists v, captureValue "v" VNil 1 0 = Ok v
            /\ IsTruncated v = false
            /\ Value v <> "<max depth exceeded>".
Proof.
  eexists. split; [reflexivity|]. split; [reflexivity | discriminate].
Qed.

(** C1 (amended).  For every name, value and maxDepth: a node captured at a
    depth up to maxDepth is never the max-depth placeholder; a value other
    than nil reached at depth maxDepth+1 gives the placeholder, a node
    marked truncated with the value [<max depth exceeded>] and no children,
    built from the name and the type alone, so without descent and whatever
    the shape of the value. *)
Theorem C1_depth_guard (name : string) (value : GoValue) (depth maxDepth : Z) :
  (depth <= maxDepth ->
   forall v, captureValue name value depth maxDepth = Ok v ->
             is_max_depth_placeholder v = false)
  /\ (depth = maxDepth + 1 -> value <> VNil ->
      exists v, captureValue name value depth maxDepth = Ok v
                /\ Value v = "<max depth exceeded>"
                /\ IsTruncated v = true
                /\ is_terminal v
                /\ forall other, other <> VNil -> TypeOf other = TypeOf value ->
                     captureValue name other depth maxDepth = Ok v).
Proof.
  split.
  - apply captureValue_within_limit.
  - intros Hd Hnil. eexists. split.
    + apply captureValue_past_limit; [exact Hnil | lia].
    + repeat split.
      intros other Hother Hty. rewrite captureValue_past_limit by (trivial; lia).
      unfold type_string. now rewrite Hty.
Qed.

(** The amended C1 on a slice of three values, at depth 0 and at depth 1
    with maxDepth 0. *)
Lemma C1_depth_guard_witness :
  (0 <= 0
   /\ forall v, captureValue "xs" sample_value 0 0 = Ok v ->
                is_max_depth_placeholder v = false)
  /\ (1 = 0 + 1 /\ sample_value <> VNil
      /\ exists v, captureValue "xs" sample_value 1 0 = Ok v
                   /\ Value v = "<max depth exceeded>"
                   /\ IsTruncated v = true
                   /\ is_terminal v
                   /\ forall other, other <> VNil ->
                        TypeOf other = TypeOf sample_value ->
                        captureValue "xs" other 1 0 = Ok v).
Proof.
  split.
  - split; [lia|]. apply (proj1 (C1_depth_guard "xs" sample_value 0 0)). lia.
  - split; [reflexivity|]. split; [discriminate|].
    apply (proj2 (C1_depth_guard "xs" sample_value 1 0)); [reflexivity | discriminate].
Defined.

(** C10.  For every name, depth and maxDepth, capturing the nil value gives
    the nil leaf (type [nil], value [nil], null, not truncated, no
    children), also when depth is past maxDepth: the nil test comes before
    the depth guard, and the leaf is never the max-depth placeholder. *)
Theorem C10_nil_before_depth_guard (name : string) (depth maxDepth : Z) :
  exists v, captureValue name VNil depth maxDepth = Ok v
            /\ v = {| Name := name; Type_ := "nil"; Value := "nil";
                      IsNull := true; IsTruncated := false; Children := ∅;
                      ArrayElements := []; ArrayLength := None |}
            /\ is_max_depth_placeholder v = false.
Proof.
  eexists. split; [apply captureValue_nil|]. split; reflexivity.
Qed.

(** ** Where the inspector panics and where it does not *)

Section LoopsReturn.

Variable capture : string -> GoValue -> result Variable_.

Lemma sliceLoop_ok (bound : Z) (rest : list GoValue) :
  Forall (fun x => forall name, is_ok (capture name x) = true) rest ->
  forall i elements, bound <= i + len rest ->
    is_ok (sliceLoop capture bound rest i elements) = true.
Proof.
  induction 1 as [|x rest Hx _ IH]; intros i elements Hb; simpl.
  - destruct (i <? bound) eqn:Hi; [|reflexivity]. unfold len in Hb. simpl in Hb. lia.
  - destruct (i <? bound) eqn:Hi; [|reflexivity].
    specialize (Hx ("[" ++ fmt_d i ++ "]")).
    destruct (capture _ x) as [elem|msg]; [|discriminate]. simpl.
    apply IH. unfold len in *. simpl in Hb. lia.
Qed.

Lemma mapLoop_ok (bound : Z) (rest : list (string * bool * GoValue)) :
  Forall (fun e => snd (fst e) = true
                   /\ forall name, is_ok (capture name (snd e)) = true) rest ->
  forall i children, bound <= i + len rest ->
    is_ok (mapLoop capture bound rest i children) = true.
Proof.
  induction 1 as [|[[keyStr found] val] rest [Hf Hx] _ IH];
    intros i children Hb; simpl.
  - destruct (i <? bound) eqn:Hi; [|reflexivity]. unfold len in Hb. simpl in Hb. lia.
  - destruct (i <? bound) eqn:Hi; [|reflexivity].
    simpl in Hf, Hx. subst found. specialize (Hx keyStr).
    destruct (capture keyStr val) as [c|msg]; [|discriminate]. simpl.
    apply IH. unfold len in *. simpl in Hb. lia.
Qed.

Lemma structLoop_ok (rest : list (string * bool * GoValue)) :
  Forall (fun f => forall name, is_ok (capture name (snd f)) = true) rest ->
  forall i children, is_ok (structLoop capture rest i children) = true.
Proof.
  induction 1 as [|[[fieldName exported] fieldValue] rest Hx _ IH];
    intros i children; simpl; [reflexivity|].
  destruct (i <? 100); [|reflexivity].
  destruct exported; simpl; [|apply IH].
  specialize (Hx fieldName). simpl in Hx.
  destruct (capture fieldName fieldValue) as [c|msg]; [|discriminate]. simpl.
  apply IH.
Qed.

End LoopsReturn.

(** [captureValue] returns a node on every value whose map keys are all
    found. *)
Lemma captureValue_ok (value : GoValue) :
  keys_found value = true ->
  forall name depth maxDepth, is_ok (captureValue name value depth maxDepth) = true.
Proof.
  induction value as [ | t k text | t s | t | t elem IH | t a elems IH
                     | t entries IH | t fields IH ] using GoValue_parts_ind;
    intros Hk name depth maxDepth; simpl in *;
    try (destruct (depth >? maxDepth); [reflexivity|]); try reflexivity.
  - destruct (is_scalar_kind k); reflexivity.
  - apply IH, Hk.
  - ok_of_bind. apply sliceLoop_ok.
    + rewrite List.Forall_forall in *. intros x Hx nm.
      apply IH; [exact Hx|]. rewrite forallb_forall in Hk. apply Hk, Hx.
    + destruct (len elems <? 100) eqn:E; lia.
  - ok_of_bind. apply mapLoop_ok.
    + rewrite List.Forall_forall in *. intros e He.
      rewrite forallb_forall in Hk. specialize (Hk e He).
      apply andb_true_iff in Hk as [Hf Hv]. split; [exact Hf|].
      intros nm. apply IH; assumption.
    + destruct (len entries <? 100) eqn:E; lia.
  - ok_of_bind. apply structLoop_ok.
    rewrite List.Forall_forall in *. intros f Hf nm.
    rewrite forallb_forall in Hk. apply IH; [exact Hf | apply Hk, Hf].
Qed.

(** ** Capture assembly *)

Lemma errorFieldsLoop_ok (fields : list (string * bool * GoValue)) (maxDepth : Z) :
  List.forallb (fun f => keys_found (snd f)) fields = true ->
  forall i vars, is_ok (errorFieldsLoop fields i vars maxDepth) = true.
Proof.
  induction fields as [|[[name exported] fieldValue] rest IH];
    intros Hk i vars; simpl; [reflexivity|].
  simpl in Hk. apply andb_true_iff in Hk as [Hv Hrest].
  destruct (i <? 50); [|reflexivity].
  destruct exported; simpl; [|apply IH, Hrest].
  pose proof (captureValue_ok fieldValue Hv ("err." ++ name) 0 maxDepth) as Hc.
  destruct (captureValue _ fieldValue 0 maxDepth); [|discriminate]. simpl.
  apply IH, Hrest.
Qed.

Lemma extractErrorFields_ok (err : GoError) (vars : gmap string Variable_) (maxDepth : Z) :
  keys_found (dyn err) = true ->
  is_ok (extractErrorFields (Some err) vars maxDepth) = true.
Proof.
  unfold extractErrorFields. simpl. intros Hk.
  destruct (dyn err) as [ | | | | t elem | | | t fields]; try reflexivity.
  - destruct elem; try reflexivity. apply errorFieldsLoop_ok, Hk.
  - apply errorFieldsLoop_ok, Hk.
Qed.

Lemma wrappedErrorsLoop_ok (errors : list (option GoError)) :
  forall n i elements,
    10 - i <= Z.of_nat n ->
    List.forallb has_message (List.firstn n errors) = true ->
    is_ok (wrappedErrorsLoop errors i elements) = true.
Proof.
  induction errors as [|e rest IH]; intros n i elements Hn Hk; simpl; [reflexivity|].
  destruct (i >=? 10) eqn:Hi; [reflexivity|].
  destruct n as [|n]; [lia|]. simpl in Hk. apply andb_true_iff in Hk as [He Hrest].
  unfold has_message in He.
  destruct (callError e) as [msg|]; [|discriminate]. simpl.
  apply (IH n); [lia | exact Hrest].
Qed.

Lemma unwrapStep_ok (err : GoError) (vars : gmap string Variable_) (maxDepth : Z) :
  inspectable err = true -> is_ok (unwrapStep (Some err) vars maxDepth) = true.
Proof.
  unfold inspectable, unwrapStep. rewrite !andb_true_iff. intros [[[_ _] Hk] _].
  simpl. destruct (Unwrap err) as [ | [[inner|]|] | call]; simpl;
    try reflexivity; try discriminate.
  apply andb_true_iff in Hk as [Hm Hd].
  destruct (Error inner) as [msg|]; [|discriminate]. simpl.
  apply extractErrorFields_ok, Hd.
Qed.

Lemma unwrapManyStep_ok (err : GoError) (vars : gmap string Variable_) :
  inspectable err = true -> is_ok (unwrapManyStep (Some err) vars) = true.
Proof.
  unfold inspectable, unwrapManyStep. rewrite !andb_true_iff. intros [[[_ _] Hk] _].
  simpl. destruct (Unwrap err) as [ | call | [errors|]]; simpl;
    try reflexivity; try discriminate.
  destruct (len errors >? 0); [|reflexivity].
  pose proof (wrappedErrorsLoop_ok errors 10%nat 0 [] ltac:(lia) Hk) as Hl.
  destruct (wrappedErrorsLoop errors 0 []); [reflexivity | discriminate].
Qed.

Lemma causeStep_ok (err : GoError) (vars : gmap string Variable_) :
  inspectable err = true -> is_ok (causeStep (Some err) vars) = true.
Proof.
  unfold inspectable, causeStep. rewrite !andb_true_iff. intros [_ Hc].
  simpl. destruct (Cause err) as [[[cause|]|]|]; simpl;
    try reflexivity; try discriminate.
  destruct (Error cause); [reflexivity | discriminate].
Qed.

Lemma extractWrappedErrors_ok (err : GoError) (vars : gmap string Variable_) (maxDepth : Z) :
  inspectable err = true ->
  is_ok (extractWrappedErrors (Some err) vars maxDepth) = true.
Proof.
  intros Hk. unfold extractWrappedErrors.
  pose proof (unwrapStep_ok err vars maxDepth Hk) as H1.
  destruct (unwrapStep (Some err) vars maxDepth) as [vars1|]; [|discriminate]. simpl.
  pose proof (unwrapManyStep_ok err vars1 Hk) as H2.
  destruct (unwrapManyStep (Some err) vars1) as [vars2|]; [|discriminate]. simpl.
  apply causeStep_ok, Hk.
Qed.

(** A panic is not caught by what follows it, and a step that always
    panics makes the whole panic. *)
Lemma bind_fails {A B} (r : result A) (k : A -> result B) :
  is_ok r = false \/ (forall a, is_ok (k a) = false) ->
  is_ok (r ≫= k) = false.
Proof.
  intros [H | H]; destruct r as [a|]; try reflexivity; try discriminate.
  apply H.
Qed.

Lemma errorFieldsLoop_propagates (maxDepth : Z)
  (fields : list (string * bool * GoValue)) :
  forall (j : nat) i name fieldValue vars,
    fields !! j = Some (name, true, fieldValue) -> i + Z.of_nat j < 50 ->
    is_ok (captureValue ("err." ++ name) fieldValue 0 maxDepth) = false ->
    is_ok (errorFieldsLoop fields i vars maxDepth) = false.
Proof.
  induction fields as [|[[name0 exported] value0] rest IH];
    intros j i name fieldValue vars Hj Hi Hp; [destruct j; discriminate|].
  simpl. destruct (i <? 50) eqn:E; [|apply Z.ltb_ge in E; lia].
  destruct j as [|j]; simpl in Hj.
  - inversion Hj; subst. simpl. apply bind_fails. left. exact Hp.
  - destruct exported; simpl.
    + apply bind_fails. right. intros c.
      apply (IH j (i + 1) name fieldValue); [exact Hj | lia | exact Hp].
    + apply (IH j (i + 1) name fieldValue); [exact Hj | lia | exact Hp].
Qed.

Lemma extractErrorFields_propagates (err : GoError) (maxDepth : Z) (t : RType)
  (fields : list (string * bool * GoValue)) (j : nat) (name : string)
  (fieldValue : GoValue) (vars : gmap string Variable_) :
  dyn err = VStruct t fields \/ (exists p, dyn err = VPointer p (VStruct t fields)) ->
  fields !! j = Some (name, true, fieldValue) -> (j < 50)%nat ->
  is_ok (captureValue ("err." ++ name) fieldValue 0 maxDepth) = false ->
  is_ok (extractErrorFields (Some err) vars maxDepth) = false.
Proof.
  intros Hd Hj Hlt Hp. unfold extractErrorFields. simpl.
  destruct Hd as [-> | [p ->]];
    apply (errorFieldsLoop_propagates maxDepth fields j 0 name fieldValue);
    try assumption; lia.
Qed.

(** The loop over the context returns when every capture returns, and a
    capture that panics is not caught. *)
Lemma contextLoop_ok (maxDepth : Z) (entries : list (string * GoValue)) :
  List.forallb (fun kv => keys_found (snd kv)) entries = true ->
  forall acc, is_ok acc = true ->
    is_ok (List.fold_left (contextStep maxDepth) entries acc) = true.
Proof.
  induction entries as [|[key value] rest IH]; intros Hk acc Hacc; simpl;
    [exact Hacc|].
  simpl in Hk. apply andb_true_iff in Hk as [Hv Hrest].
  apply IH; [exact Hrest|].
  destruct acc as [vars|]; [|discriminate]. unfold contextStep; simpl.
  pose proof (captureValue_ok value Hv key 0 maxDepth) as Hc.
  destruct (captureValue key value 0 maxDepth); [reflexivity | discriminate].
Qed.

Lemma contextLoop_panic (maxDepth : Z) (entries : list (string * GoValue)) :
  forall acc, is_ok acc = false ->
    is_ok (List.fold_left (contextStep maxDepth) entries acc) = false.
Proof.
  induction entries as [|kv rest IH]; intros acc Hacc; simpl; [exact Hacc|].
  apply IH. destruct acc; [discriminate | reflexivity].
Qed.

Lemma contextLoop_propagates (maxDepth : Z) (entries : list (string * GoValue))
  (key : string) (value : GoValue) :
  In (key, value) entries ->
  is_ok (captureValue key value 0 maxDepth) = false ->
  forall acc, is_ok (List.fold_left (contextStep maxDepth) entries acc) = false.
Proof.
  induction entries as [|kv rest IH]; intros Hin Hp acc; [destruct Hin|].
  simpl. destruct Hin as [-> | Hin]; [|apply IH; assumption].
  apply contextLoop_panic. destruct acc as [vars|]; [|reflexivity].
  unfold contextStep; simpl.
  destruct (captureValue key value 0 maxDepth); [discriminate | reflexivity].
Qed.

(** C3, as stated, fails: with the nil error the call panics where it asks
    for the message; so it does with an error that is a nil pointer whose
    [Error] method reads its receiver; and a value that the inspector cannot
    walk (a map with a NaN key), in the context or in a field of the error,
    makes the call panic instead of leaving a placeholder in the variable
    map. *)
Lemma C3_counterexample :
  is_ok (CaptureError (mkWorld [] "id" "now") None 10 ∅) = false
  /\ is_ok (CaptureError (mkWorld [] "id" "now") (Some plain_error) 10
              {[ "ratios" := nan_keyed_map ]}) = false
  /\ is_ok (CaptureError (mkWorld [] "id" "now") (Some typed_nil_error) 10 ∅) = false
  /\ is_ok (CaptureError (mkWorld [] "id" "now") (Some ratio_error) 10 ∅) = false.
Proof. repeat split; vm_compute; reflexivity. Qed.

(** C3 (amended).  For every error that is not nil, maxDepth and context
    mapping: when the accessor methods that the capture calls return, the
    values of the context and of the error have all their map keys found
    and the first ten errors of a multi-error are not nil, [CaptureError]
    returns a capture with the type, the message and the fingerprint of the
    error.  Nothing on the way is caught: a panic inside the inspection of a
    context value, of an exported field of the error or of the error it
    wraps, and a panic of a method of the error ([Error], [Unwrap],
    [Cause], [Error] of the wrapped error or of the cause) is not turned into
    a placeholder, it leaves the call as a panic. *)
Theorem C3_capture_returns_or_propagates (w : World) (err : GoError)
  (maxDepth : Z) (ctx : gmap string GoValue) :
  (inspectable err = true -> ctx_inspectable ctx = true ->
   exists capture, CaptureError w (Some err) maxDepth ctx = Ok capture
     /\ ExceptionType capture = getErrorType (Some err)
     /\ Error err = Ok (Message capture)
     /\ Fingerprint capture
        = calculateFingerprint (Some err) (captureStackTrace 3 (stack w)))
  /\ (forall key value, ctx !! key = Some value ->
        is_ok (captureValue key value 0 maxDepth) = false ->
        is_ok (CaptureError w (Some err) maxDepth ctx) = false)
  /\ (forall t fields (j : nat) name fieldValue,
        dyn err = VStruct t fields
        \/ (exists p, dyn err = VPointer p (VStruct t fields)) ->
        fields !! j = Some (name, true, fieldValue) -> (j < 50)%nat ->
        is_ok (captureValue ("err." ++ name) fieldValue 0 maxDepth) = false ->
        is_ok (CaptureError w (Some err) maxDepth ctx) = false)
  /\ (forall inner t fields (j : nat) name fieldValue,
        Unwrap err = UnwrapOne (Ok (Some inner)) ->
        dyn inner = VStruct t fields
        \/ (exists p, dyn inner = VPointer p (VStruct t fields)) ->
        fields !! j = Some (name, true, fieldValue) -> (j < 50)%nat ->
        is_ok (captureValue ("err." ++ name) fieldValue 0 maxDepth) = false ->
        is_ok (CaptureError w (Some err) maxDepth ctx) = false)
  /\ (is_ok (Error err) = false ->
      is_ok (CaptureError w (Some err) maxDepth ctx) = false)
  /\ (forall msg,
        Unwrap err = UnwrapOne (Panic msg) \/ Unwrap err = UnwrapMany (Panic msg)
        \/ Cause err = Some (Panic msg)
        \/ (exists inner, Unwrap err = UnwrapOne (Ok (Some inner))
                          /\ Error inner = Panic msg)
        \/ (exists cause, Cause err = Some (Ok (Some cause))
                          /\ Error cause = Panic msg) ->
        is_ok (CaptureError w (Some err) maxDepth ctx) = false).
Proof.
  split; [|split; [|split; [|split; [|split]]]].
  - intros He Hctx. unfold CaptureError.
    pose proof (contextLoop_ok maxDepth (map_to_list ctx) Hctx (Ok ∅) eq_refl) as H1.
    unfold captureContext.
    destruct (List.fold_left _ _ _) as [vars1|]; [|discriminate]. simpl.
    assert (Hd : keys_found (dyn err) = true /\ is_ok (Error err) = true).
    { unfold inspectable in He. rewrite !andb_true_iff in He. tauto. }
    destruct Hd as [Hd Hm].
    pose proof (extractErrorFields_ok err vars1 maxDepth Hd) as H2.
    destruct (extractErrorFields (Some err) vars1 maxDepth) as [vars2|];
      [|discriminate]. simpl.
    pose proof (extractWrappedErrors_ok err vars2 maxDepth He) as H3.
    destruct (extractWrappedErrors (Some err) vars2 maxDepth) as [vars3|];
      [|discriminate]. simpl.
    destruct (Error err) as [message|] eqn:Hmsg; [|discriminate]. simpl.
    eexists. split; [reflexivity|]. repeat split.
  - intros key value Hlook Hp. unfold CaptureError, captureContext.
    assert (Hin : In (key, value) (map_to_list ctx)).
    { apply list_elem_of_In, elem_of_map_to_list, Hlook. }
    pose proof (contextLoop_propagates maxDepth _ key value Hin Hp (Ok ∅)) as H1.
    destruct (List.fold_left _ _ _); [discriminate | reflexivity].
  - intros t fields j name fieldValue Hd Hj Hlt Hp. unfold CaptureError.
    apply bind_fails. right. intros vars1. apply bind_fails. left.
    apply (extractErrorFields_propagates err maxDepth t fields j name fieldValue);
      assumption.
  - intros inner t fields j name fieldValue Hu Hd Hj Hlt Hp. unfold CaptureError.
    apply bind_fails. right. intros vars1. apply bind_fails. right. intros vars2.
    apply bind_fails. left. unfold extractWrappedErrors.
    apply bind_fails. left. unfold unwrapStep. simpl. rewrite Hu. simpl.
    apply bind_fails. right. intros message.
    apply (extractErrorFields_propagates inner maxDepth t fields j name fieldValue);
      assumption.
  - intros Hm. unfold CaptureError.
    apply bind_fails. right. intros vars1. apply bind_fails. right. intros vars2.
    apply bind_fails. right. intros vars3. apply bind_fails. left. exact Hm.
  - intros msg Hcall. unfold CaptureError.
    apply bind_fails. right. intros vars1. apply bind_fails. right. intros vars2.
    apply bind_fails. left. unfold extractWrappedErrors.
    destruct Hcall as [Hu | [Hu | [Hc | [(inner & Hu & Hm) | (cause & Hc & Hm)]]]].
    + apply bind_fails. left. unfold unwrapStep. simpl. rewrite Hu. reflexivity.
    + apply bind_fails. right. intros vars3. apply bind_fails. left.
      unfold unwrapManyStep. simpl. rewrite Hu. reflexivity.
    + apply bind_fails. right. intros vars3. apply bind_fails. right. intros vars4.
      unfold causeStep. simpl. rewrite Hc. reflexivity.
    + apply bind_fails. left. unfold unwrapStep. simpl. rewrite Hu. simpl.
      rewrite Hm. reflexivity.
    + apply bind_fails. right. intros vars3. apply bind_fails. right. intros vars4.
      unfold causeStep. simpl. rewrite Hc. simpl. rewrite Hm. reflexivity.
Qed.

(** The amended C3 on a plain error with a context that can be walked and
    with one that cannot, on an error with a field that cannot be walked,
    and on a nil pointer whose [Error] method panics. *)
Lemma C3_capture_returns_or_propagates_witness :
  (inspectable plain_error = true
   /\ ctx_inspectable {[ "items" := sample_value ]} = true
   /\ exists capture,
        CaptureError (mkWorld [] "id" "now") (Some plain_error) 10
          {[ "items" := sample_value ]} = Ok capture
        /\ ExceptionType capture = getErrorType (Some plain_error)
        /\ Error plain_error = Ok (Message capture)
        /\ Fingerprint capture
           = calculateFingerprint (Some plain_error) (captureStackTrace 3 []))
  /\ (({[ "ratios" := nan_keyed_map ]} : gmap string GoValue) !! "ratios"
      = Some nan_keyed_map
      /\ is_ok (captureValue "ratios" nan_keyed_map 0 10) = false
      /\ is_ok (CaptureError (mkWorld [] "id" "now") (Some plain_error) 10
                  {[ "ratios" := nan_keyed_map ]}) = false)
  /\ (is_ok (captureValue "err.Ratios" nan_keyed_map 0 10) = false
      /\ is_ok (CaptureError (mkWorld [] "id" "now") (Some ratio_error) 10 ∅) = false)
  /\ (is_ok (Error typed_nil_error) = false
      /\ is_ok (CaptureError (mkWorld [] "id" "now") (Some typed_nil_error) 10 ∅)
         = false).
Proof.
  split; [|split; [|split]].
  - split; [reflexivity|]. split; [vm_compute; reflexivity|].
    apply (proj1 (C3_capture_returns_or_propagates (mkWorld [] "id" "now")
                    plain_error 10 {[ "items" := sample_value ]}));
      vm_compute; reflexivity.
  - split; [vm_compute; reflexivity|]. split; [reflexivity|].
    apply (proj1 (proj2 (C3_capture_returns_or_propagates (mkWorld [] "id" "now")
                    plain_error 10 {[ "ratios" := nan_keyed_map ]}))
             "ratios" nan_keyed_map); vm_compute; reflexivity.
  - split; [reflexivity|].
    apply (proj1 (proj2 (proj2 (C3_capture_returns_or_propagates
                    (mkWorld [] "id" "now") ratio_error 10 ∅)))
             (TDefined "main" "RatioError") [("Ratios", true, nan_keyed_map)]
             0%nat "Ratios" nan_keyed_map);
      [right; eexists; reflexivity | reflexivity | lia | reflexivity].
  - split; [reflexivity|].
    apply (proj1 (proj2 (proj2 (proj2 (proj2 (C3_capture_returns_or_propagates
                    (mkWorld [] "id" "now") typed_nil_error 10 ∅)))))).
    reflexivity.
Defined.

(** ** The stack sampler *)

(** The match on the iterator in [sampleLoop] is the call of [Next]. *)
Lemma sampleLoop_Next (frameIter : list Frame) (frames : list StackFrame) :
  sampleLoop frameIter frames
  = let '(frame, more, frameIter') := Next frameIter in
    if negb more then frames
    else if HasPrefix (Function frame) "runtime." then sampleLoop frameIter' frames
    else
      let frames := (frames ++ [stackFrameOf frame])%list in
      if len frames >=? 50 then frames else sampleLoop frameIter' frames.
Proof. destruct frameIter as [|frame [|next rest]]; reflexivity. Qed.

(** The frames that [captureStackTrace] keeps: of the at most 50 frames
    that [Callers] recorded, all but the last one (the loop leaves on
    [more = false] before it handles that frame), without those whose
    function is in package [runtime]. *)
Lemma sampleLoop_spec (frameIter : list Frame) :
  forall frames,
    (List.length frames + List.length frameIter <= 50)%nat ->
    sampleLoop frameIter frames
    = (frames ++ List.map stackFrameOf
                   (List.filter (fun f => negb (HasPrefix (Function f) "runtime."))
                      (List.removelast frameIter)))%list.
Proof.
  induction frameIter as [|frame rest IH]; intros frames Hlen.
  - simpl. now rewrite List.app_nil_r.
  - destruct rest as [|next rest].
    + simpl. now rewrite List.app_nil_r.
    + change (List.removelast (frame :: next :: rest))
        with (frame :: List.removelast (next :: rest)).
      rewrite sampleLoop_Next. cbn [Next negb List.filter].
      destruct (HasPrefix (Function frame) "runtime.") eqn:E; cbn [negb].
      * apply IH. simpl in *. lia.
      * assert (Hsmall : (len (frames ++ [stackFrameOf frame])%list >=? 50) = false).
        { destruct (len (frames ++ [stackFrameOf frame])%list >=? 50) eqn:E';
            [|reflexivity].
          apply Z.geb_le in E'. unfold len in E'.
          rewrite List.length_app in E'. simpl in *. lia. }
        rewrite Hsmall, IH by (rewrite List.length_app; simpl in *; lia).
        cbn [List.map]. rewrite <- List.app_assoc. reflexivity.
Qed.

Lemma captureStackTrace_spec (skip : nat) (stack : list Frame) :
  captureStackTrace skip stack
  = List.map stackFrameOf
      (List.filter (fun f => negb (HasPrefix (Function f) "runtime."))
         (List.removelast (Callers skip 50 stack))).
Proof.
  unfold captureStackTrace. rewrite sampleLoop_spec; [reflexivity|].
  unfold Callers. simpl. apply List.firstn_le_length.
Qed.

(** ** The fingerprint *)

(** FIPS 180-2 test vectors, one block and two blocks. *)
Example Sum256_abc :
  Sha256.EncodeToString (Sha256.Sum256 (bytes_of "abc"))
  = "ba7816bf8f01cfea414140de5dae2223b00361a396177a9cb410ff61f20015ad".
Proof. vm_compute. reflexivity. Qed.

Example Sum256_two_blocks :
  Sha256.EncodeToString
    (Sha256.Sum256
       (bytes_of "abcdbcdecdefdefgefghfghighijhijkijkljklmklmnlmnomnopnopq"))
  = "248d6a61d20638b8e5c026930c3e6039a33ce45964ff2167f6ecedd419db06c1".
Proof. vm_compute. reflexivity. Qed.

Lemma round_length (s : list Z) (kw : Z * Z) :
  List.length s = 8%nat -> List.length (Sha256.round s kw) = 8%nat.
Proof.
  intros H. do 9 (destruct s as [|? s]; try discriminate). reflexivity.
Qed.

Lemma compress_length (h block : list Z) :
  List.length h = 8%nat -> List.length (Sha256.compress h block) = 8%nat.
Proof.
  intros H. unfold Sha256.compress.
  rewrite List.length_map, List.length_combine, H.
  assert (Hs : forall kws s, List.length s = 8%nat ->
                 List.length (List.fold_left Sha256.round kws s) = 8%nat).
  { induction kws as [|kw kws IH]; intros s Hs; simpl; [exact Hs|].
    apply IH, round_length, Hs. }
  rewrite Hs by exact H. reflexivity.
Qed.

Lemma blocks_length (n : nat) :
  forall bs h, List.length h = 8%nat -> List.length (Sha256.blocks n bs h) = 8%nat.
Proof.
  induction n as [|n IH]; intros bs h H; simpl; [exact H|].
  apply IH, compress_length, H.
Qed.

(** A digest has 32 bytes. *)
Lemma Sum256_length (msg : list Z) : List.length (Sha256.Sum256 msg) = 32%nat.
Proof.
  unfold Sha256.Sum256.
  assert (Hw : forall ws : list Z,
    List.length (List.concat (List.map (Sha256.be_bytes 4) ws))
    = (4 * List.length ws)%nat).
  { induction ws as [|x ws IH]; [reflexivity|].
    change (List.concat (List.map (Sha256.be_bytes 4) (x :: ws)))
      with (Sha256.be_bytes 4 x ++ List.concat (List.map (Sha256.be_bytes 4) ws))%list.
    rewrite List.length_app, IH. simpl. lia. }
  rewrite Hw, blocks_length; reflexivity.
Qed.

Lemma EncodeToString_length (bs : list Z) :
  String.length (Sha256.EncodeToString bs) = (2 * List.length bs)%nat.
Proof. induction bs as [|b bs IH]; simpl; [reflexivity|]. rewrite IH. lia. Qed.

(** Encoding the first [n] bytes gives the first [2n] characters. *)
Lemma EncodeToString_firstn (n : nat) :
  forall bs, Sha256.EncodeToString (List.firstn n bs)
             = substring 0 (2 * n) (Sha256.EncodeToString bs).
Proof.
  induction n as [|n IH]; intros [|b bs]; simpl; try reflexivity.
  - replace (n + S (n + 0))%nat with (S (2 * n)) by lia. simpl.
    rewrite IH. reflexivity.
Qed.

Lemma append_assoc (a b c : string) : (a ++ b) ++ c = a ++ (b ++ c).
Proof.
  induction a as [|x a IH]; [reflexivity|].
  change (String x ((a ++ b) ++ c) = String x (a ++ (b ++ c))). now f_equal.
Qed.

(** The loop of [calculateFingerprint], by the frames it takes. *)
Lemma fingerprintParts_spec (stackTrace : list StackFrame) :
  forall added parts, 0 <= added <= 5 ->
    fingerprintParts stackTrace added parts
    = (parts ++ List.map frame_part
                  (List.firstn (Z.to_nat (5 - added)) (non_native stackTrace)))%list.
Proof.
  induction stackTrace as [|frame rest IH]; intros added parts Ha; simpl.
  - rewrite List.firstn_nil. simpl. now rewrite List.app_nil_r.
  - destruct (added >=? 5) eqn:E.
    + replace (Z.to_nat (5 - added)) with 0%nat by lia. simpl.
      now rewrite List.app_nil_r.
    + unfold non_native in *. simpl. destruct (IsNative frame); simpl.
      * apply IH, Ha.
      * rewrite IH by lia.
        replace (Z.to_nat (5 - added)) with (S (Z.to_nat (5 - (added + 1)))) by lia.
        simpl. rewrite <- List.app_assoc. reflexivity.
Qed.

Lemma calculateFingerprint_spec (err : option GoError) (stackTrace : list StackFrame) :
  calculateFingerprint err stackTrace
  = spec_fingerprint (getErrorType err) stackTrace.
Proof.
  unfold calculateFingerprint, spec_fingerprint, hex16, spec_fingerprint_key.
  rewrite fingerprintParts_spec by lia. simpl.
  apply (EncodeToString_firstn 8).
Qed.

(** C2, as stated, fails on its example: the type [OrderNotFoundError] of
    package [main] is rendered as [main.OrderNotFoundError], and with
    [FetchOrder] at line 42 as the only frame the fingerprint is not the
    one of the string [OrderNotFoundError:FetchOrder:42]. *)
Lemma C2_counterexample :
  TypeName (TDefined "main" "OrderNotFoundError") = "OrderNotFoundError"
  /\ getErrorType (Some (order_not_found "main")) = "main.OrderNotFoundError"
  /\ calculateFingerprint (Some (order_not_found "main")) [fetch_order_frame]
     <> hex16 "OrderNotFoundError:FetchOrder:42".
Proof.
  split; [reflexivity|]. split; [reflexivity|].
  intros H. vm_compute in H. discriminate.
Qed.

(** C2 (amended).  For every error and stack trace the fingerprint is the
    first 16 hexadecimal characters (8 bytes) of the SHA-256 digest of the
    type string of the error (qualified by its package, a leading pointer
    star removed) followed by up to the first 5 frames that are not native,
    each as method:line, all joined by a colon.  For an error of the type
    OrderNotFoundError of a package [pkg] whose only frame that is not
    native is FetchOrder at line 42, it is that truncation for the string
    [pkg.OrderNotFoundError:FetchOrder:42].  Two captures with the same
    type string and the same leading frames get the same fingerprint. *)
Theorem C2_fingerprint (err : option GoError) (stackTrace : list StackFrame) :
  calculateFingerprint err stackTrace
  = spec_fingerprint (getErrorType err) stackTrace
  /\ String.length (calculateFingerprint err stackTrace) = 16%nat
  /\ (forall pkg frame,
        TypeOf (ValueOf err) = Some (TDefined pkg "OrderNotFoundError")
        \/ TypeOf (ValueOf err) = Some (TPointer (TDefined pkg "OrderNotFoundError")) ->
        non_native stackTrace = [frame] ->
        MethodName frame = "FetchOrder" -> LineNumber frame = 42 ->
        calculateFingerprint err stackTrace
        = hex16 (pkg ++ ".OrderNotFoundError:FetchOrder:42"))
  /\ (forall err' stackTrace',
        getErrorType err' = getErrorType err ->
        List.map frame_part (List.firstn 5 (non_native stackTrace'))
        = List.map frame_part (List.firstn 5 (non_native stackTrace)) ->
        calculateFingerprint err' stackTrace' = calculateFingerprint err stackTrace).
Proof.
  split; [apply calculateFingerprint_spec|]. split; [|split].
  - unfold calculateFingerprint.
    rewrite EncodeToString_length, List.length_firstn, Sum256_length. reflexivity.
  - intros pkg frame Hty Hnn Hm Hl.
    rewrite calculateFingerprint_spec.
    unfold spec_fingerprint, spec_fingerprint_key. rewrite Hnn. simpl.
    unfold frame_part. rewrite Hm, Hl. f_equal.
    assert (Hname : getErrorType err = pkg ++ ".OrderNotFoundError").
    { unfold getErrorType. destruct Hty as [-> | ->]; reflexivity. }
    rewrite Hname, append_assoc. reflexivity.
  - intros err' stackTrace' Hty Hfr.
    rewrite !calculateFingerprint_spec.
    unfold spec_fingerprint, spec_fingerprint_key. now rewrite Hty, Hfr.
Qed.

(** The amended C2 on the error of package [main] with the single frame of
    [FetchOrder]; the fingerprint is [3e2328ca0c59090b]. *)
Lemma C2_fingerprint_witness :
  ((TypeOf (ValueOf (Some (order_not_found "main")))
    = Some (TDefined "main" "OrderNotFoundError")
    \/ TypeOf (ValueOf (Some (order_not_found "main")))
       = Some (TPointer (TDefined "main" "OrderNotFoundError")))
   /\ non_native [fetch_order_frame] = [fetch_order_frame]
   /\ MethodName fetch_order_frame = "FetchOrder"
   /\ LineNumber fetch_order_frame = 42
   /\ calculateFingerprint (Some (order_not_found "main")) [fetch_order_frame]
      = hex16 "main.OrderNotFoundError:FetchOrder:42")
  /\ calculateFingerprint (Some (order_not_found "main")) [fetch_order_frame]
     = "3e2328ca0c59090b".
Proof.
  split; [|vm_compute; reflexivity].
  split; [right; reflexivity|]. split; [reflexivity|]. split; [reflexivity|].
  split; [reflexivity|].
  apply (proj1 (proj2 (proj2 (C2_fingerprint (Some (order_not_found "main"))
                                [fetch_order_frame]))) "main" fetch_order_frame);
    [right; reflexivity | reflexivity | reflexivity | reflexivity].
Defined.

End CaptureSpec.

(* ===================================================================== *)
(** * Properties of package transport                                      *)
(* ===================================================================== *)

Module TransportSpec.

Import Go Transport.
Local Open Scope Z_scope.

(** ** The connect loop *)

(** The delay follows the doubling rule as long as the product fits 64
    bits, which it does for every count the ceiling of 10 lets through. *)
Lemma backoffDelay_formula (c : Connection) :
  reconnectDelay c = Second -> 1 <= reconnectAttempts c <= 34 ->
  backoffDelay c = Z.min (Second * 2 ^ (reconnectAttempts c - 1)) (60 * Second).
Proof.
  intros Hd Hn. unfold backoffDelay. rewrite Hd.
  assert (Hk : exists k : nat, (k < 34)%nat /\ reconnectAttempts c = Z.of_nat k + 1).
  { exists (Z.to_nat (reconnectAttempts c - 1)). split; [|rewrite Z2Nat.id]; lia. }
  destruct Hk as (k & Hk & ->).
  do 34 (destruct k as [|k]; [vm_compute; reflexivity|]). lia.
Qed.

(** A failed attempt at the ceiling ends the loop after its dial. *)
Lemma Connect_ceiling (c : Connection) (rest : list Turn) :
  done c = false -> maxReconnectAttempts c <= reconnectAttempts c ->
  Connect c (DialFails :: rest)
  = (set_reconnectAttempts (emit c EvDial) (reconnectAttempts c + 1), Stopped).
Proof.
  intros Hdone Hmax. simpl. rewrite Hdone. simpl.
  destruct (reconnectAttempts c + 1 >? maxReconnectAttempts c) eqn:E; [reflexivity | lia].
Qed.

Lemma handleMessage_reconnectAttempts (c c' : Connection) (data : option Message) :
  handleMessage c data = Ok c' -> reconnectAttempts c' = reconnectAttempts c.
Proof.
  destruct data as [msg|]; simpl; [|intros [= <-]; reflexivity].
  destruct (String.eqb (Type_ msg) "registered"); [intros [= <-]; reflexivity|].
  destruct (String.eqb (Type_ msg) "error"); [|intros [= <-]; reflexivity].
  unfold handleError. destruct (Payload_ msg); try (intros [= <-]; reflexivity).
  destruct (_ || _); [|intros [= <-]; reflexivity].
  unfold Disconnect. simpl. destruct (done c); [discriminate|].
  destruct (conn c); intros [= <-]; reflexivity.
Qed.

Lemma runMessageLoop_reconnectAttempts (inbound : list (option Message)) :
  forall c, reconnectAttempts (fst (runMessageLoop c inbound)) = reconnectAttempts c.
Proof.
  induction inbound as [|data rest IH]; intros c; simpl.
  - destruct (conn c); reflexivity.
  - destruct (conn c); [|reflexivity].
    destruct (handleMessage c data) as [c'|msg] eqn:E; [|reflexivity].
    rewrite IH. eapply handleMessage_reconnectAttempts, E.
Qed.

(** After a turn whose dial succeeds the counter is zero. *)
Lemma Connect_success_resets (c : Connection) (sock : nat) (nowMilli : Z)
  (inbound : list (option Message)) :
  done c = false ->
  reconnectAttempts (fst (Connect c [DialSucceeds sock nowMilli inbound])) = 0.
Proof.
  intros Hdone. simpl. rewrite Hdone.
  match goal with |- context [runMessageLoop ?c0 inbound] =>
    pose proof (runMessageLoop_reconnectAttempts inbound c0) as H;
    destruct (runMessageLoop c0 inbound) as [c1 [msg|]] end.
  - simpl in *. rewrite H. reflexivity.
  - simpl in H. destruct (done c1); simpl; [|rewrite H; reflexivity].
    rewrite H. reflexivity.
Qed.

(** C4.  From a new connection (base delay 1s, ceiling 10): three failed
    attempts in a row are followed by waits of 1s, 2s and 4s; the wait after
    the n-th failure in a row is base_delay * 2^(n-1) capped at 60 seconds;
    a successful connection sets the counter back to zero, so that the next
    failure waits 1s again; the eleventh failure in a row takes the counter
    past the ceiling and the loop returns, whatever would come next; in
    general a failure with the counter at the ceiling ends the loop after
    its one dial. *)
Theorem C4_connect_backoff (url apiKey : string) (debug : bool) :
  let c0 := NewConnection url apiKey debug in
  trace (fst (Connect c0 [DialFails; DialFails; DialFails]))
  = [EvDial; EvSleep (1 * Second); EvDial; EvSleep (2 * Second);
     EvDial; EvSleep (4 * Second)]
  /\ (forall c, reconnectDelay c = Second -> 1 <= reconnectAttempts c <= 34 ->
        backoffDelay c
        = Z.min (Second * 2 ^ (reconnectAttempts c - 1)) (60 * Second))
  /\ sleeps (trace (fst (Connect c0 (List.repeat DialFails 10))))
     = List.map (fun s => s * Second) [1; 2; 4; 8; 16; 32; 60; 60; 60; 60]
  /\ (forall c sock nowMilli inbound, done c = false ->
        reconnectAttempts (fst (Connect c [DialSucceeds sock nowMilli inbound])) = 0)
  /\ (forall sock nowMilli,
        sleeps (trace (fst (Connect c0
          [DialFails; DialFails; DialSucceeds sock nowMilli []; DialFails])))
        = [1 * Second; 2 * Second; 1 * Second])
  /\ (forall rest,
        Connect c0 (List.repeat DialFails 11 ++ rest)
        = Connect c0 (List.repeat DialFails 11)
        /\ snd (Connect c0 (List.repeat DialFails 11 ++ rest)) = Stopped
        /\ dials (trace (fst (Connect c0 (List.repeat DialFails 11 ++ rest)))) = 11%nat)
  /\ (forall c rest, done c = false ->
        maxReconnectAttempts c <= reconnectAttempts c ->
        snd (Connect c (DialFails :: rest)) = Stopped
        /\ dials (trace (fst (Connect c (DialFails :: rest)))) = S (dials (trace c))).
Proof.
  intros c0. split; [vm_compute; reflexivity|].
  split; [apply backoffDelay_formula|].
  split; [vm_compute; reflexivity|].
  split; [apply Connect_success_resets|].
  split; [intros; vm_compute; reflexivity|].
  split.
  - intros rest. assert (H : Connect c0 (List.repeat DialFails 11 ++ rest)
                             = Connect c0 (List.repeat DialFails 11)).
    { vm_compute. reflexivity. }
    rewrite H. split; [reflexivity|]. split; vm_compute; reflexivity.
  - intros c rest Hdone Hmax. rewrite (Connect_ceiling c rest Hdone Hmax).
    split; [reflexivity|]. simpl. unfold dials.
    rewrite List.filter_app, List.length_app. simpl. lia.
Qed.

(** C4 on a connection that failed seven times in a row: the wait is the
    cap of 60 seconds, and a success sets the counter back. *)
Lemma C4_connect_backoff_witness :
  let c := set_reconnectAttempts (NewConnection "wss://host" "key" false) 7 in
  reconnectDelay c = Second /\ 1 <= reconnectAttempts c <= 34
  /\ backoffDelay c = 60 * Second
  /\ done c = false
  /\ reconnectAttempts (fst (Connect c [DialSucceeds 1 0 []])) = 0.
Proof.
  intros c. split; [reflexivity|]. split; [vm_compute; split; discriminate|].
  split.
  - rewrite (proj1 (proj2 (C4_connect_backoff "wss://host" "key" false)) c);
      [reflexivity | reflexivity | vm_compute; split; discriminate].
  - split; [reflexivity|].
    apply (proj1 (proj2 (proj2 (proj2 (C4_connect_backoff "wss://host" "key" false))))).
    reflexivity.
Defined.

(** ** The outbound queue *)

Lemma trySend_room (q : list Message) (data : Message) :
  len q < queueCapacity -> trySend q data = Some (q ++ [data])%list.
Proof. intros H. unfold trySend. destruct (len q <? queueCapacity) eqn:E; [reflexivity | lia]. Qed.

Lemma trySend_full (q : list Message) (data : Message) :
  queueCapacity <= len q -> trySend q data = None.
Proof. intros H. unfold trySend. destruct (len q <? queueCapacity) eqn:E; [lia | reflexivity]. Qed.

Lemma len_app_one {A} (q : list A) (x : A) : len (q ++ [x])%list = len q + 1.
Proof. unfold len. rewrite List.length_app. simpl. lia. Qed.

(** C5.  A message is put on the outbound queue (capacity 100) only while
    the connection is connected and authenticated; with room it goes to the
    back; with 100 messages queued, exactly the oldest is dropped and the
    new one goes to the back, which leaves 100; a call of [send] that no
    other goroutine disturbs returns, with at most 100 queued.  The last
    statement of [send] is a plain channel send, though: when the send of
    another goroutine takes the slot that the drop freed, the buffer is full
    again and the call waits there, so that the enqueue can block its
    caller. *)
Theorem C5_outbound_queue (c : Connection) (msgType : string) (payload : Payload)
  (nowMilli : Z) :
  let msg := mkMessage msgType payload nowMilli in
  (connected c && authenticated c = false ->
     send c msgType payload nowMilli = Returned c)
  /\ (connected c && authenticated c = true -> payload <> PUnencodable ->
      (len (messageQueue c) < 100 ->
         send c msgType payload nowMilli
         = Returned (set_messageQueue c (messageQueue c ++ [msg])%list))
      /\ (forall oldest q, messageQueue c = oldest :: q -> len (messageQueue c) = 100 ->
            send c msgType payload nowMilli
            = Returned (set_messageQueue c (q ++ [msg])%list)
            /\ len (q ++ [msg])%list = 100))
  /\ (len (messageQueue c) <= 100 ->
      exists c', send c msgType payload nowMilli = Returned c'
                 /\ len (messageQueue c') <= 100)
  /\ sendAmong c msgType payload nowMilli [] [] = send c msgType payload nowMilli
  /\ (connected c && authenticated c = true -> payload <> PUnencodable ->
      forall oldest q other,
        messageQueue c = oldest :: q -> len (messageQueue c) = 100 ->
        sendAmong c msgType payload nowMilli [] [OtherSend other]
        = Blocked (set_messageQueue c (q ++ [other])%list)).
Proof.
  intros msg.
  assert (HM : payload <> PUnencodable -> Marshal msg = Some msg).
  { intros Hp. unfold Marshal, msg. simpl. destruct payload; congruence. }
  split; [|split; [|split; [|split]]].
  - unfold send. fold msg.
    intros Hc. destruct (Marshal msg); [|reflexivity]. rewrite Hc. reflexivity.
  - unfold send. fold msg. intros Hc Hp. rewrite (HM Hp), Hc. split.
    + intros Hroom. rewrite trySend_room by exact Hroom. reflexivity.
    + intros oldest q Hq Hfull.
      assert (Hlq : len q = 99).
      { rewrite Hq in Hfull. unfold len in *. simpl in Hfull. lia. }
      rewrite trySend_full by (unfold queueCapacity; lia).
      rewrite Hq. simpl. rewrite trySend_room by (unfold queueCapacity; lia).
      split; [reflexivity|]. rewrite len_app_one. lia.
  - unfold send. fold msg.
    intros Hle. destruct (Marshal msg) as [data|]; [|eauto].
    destruct (connected c && authenticated c); [|eauto].
    destruct (len (messageQueue c) <? queueCapacity) eqn:E.
    + rewrite trySend_room by lia. eexists. split; [reflexivity|].
      simpl. rewrite len_app_one. unfold queueCapacity in E. lia.
    + rewrite trySend_full by lia.
      destruct (messageQueue c) as [|oldest q] eqn:Hq.
      * vm_compute in E. discriminate.
      * simpl. assert (Hlq : len q = 99).
        { apply Z.ltb_ge in E. unfold len, queueCapacity in *.
          simpl length in *. lia. }
        rewrite trySend_room by (unfold queueCapacity; lia).
        eexists. split; [reflexivity|]. simpl. rewrite len_app_one. lia.
  - unfold sendAmong, send. fold msg.
    destruct (Marshal msg); [|reflexivity].
    destruct (connected c && authenticated c); [|reflexivity].
    destruct (trySend (messageQueue c) m); [reflexivity|].
    simpl. destruct (messageQueue c); reflexivity.
  - intros Hc Hp oldest q other Hq Hfull. unfold sendAmong. fold msg.
    rewrite (HM Hp), Hc.
    assert (Hlq : len q = 99).
    { rewrite Hq in Hfull. unfold len in *. simpl in Hfull. lia. }
    rewrite trySend_full by (unfold queueCapacity; lia).
    rewrite Hq. simpl.
    rewrite (trySend_room q other) by (unfold queueCapacity; lia).
    rewrite trySend_full; [reflexivity|].
    rewrite len_app_one. unfold queueCapacity. lia.
Qed.

(** C5 on a connection that is not connected, and on an authenticated one
    with 100 messages queued: alone the call drops the oldest message and
    returns; when the heartbeat of another goroutine takes the freed slot,
    the call waits at its last statement. *)
Lemma C5_outbound_queue_witness :
  (connected (NewConnection "wss://host" "key" false)
   && authenticated (NewConnection "wss://host" "key" false) = false
   /\ send (NewConnection "wss://host" "key" false) "exception" PValue 100
      = Returned (NewConnection "wss://host" "key" false))
  /\ (connected full_connection && authenticated full_connection = true
      /\ PValue <> PUnencodable
      /\ messageQueue full_connection = mkMessage "exception" PValue 0 :: queued 1 99
      /\ len (messageQueue full_connection) = 100
      /\ send full_connection "exception" PValue 100
         = Returned (set_messageQueue full_connection
                       (queued 1 99 ++ [mkMessage "exception" PValue 100])%list)
      /\ len (queued 1 99 ++ [mkMessage "exception" PValue 100])%list = 100)
  /\ (len (messageQueue full_connection) <= 100
      /\ exists c', send full_connection "heartbeat" PValue 100 = Returned c'
                    /\ len (messageQueue c') <= 100)
  /\ sendAmong full_connection "exception" PValue 100 []
       [OtherSend (mkMessage "heartbeat" PValue 100)]
     = Blocked (set_messageQueue full_connection
                  (queued 1 99 ++ [mkMessage "heartbeat" PValue 100])%list).
Proof.
  split; [|split; [|split]].
  - split; [reflexivity|].
    apply (proj1 (C5_outbound_queue (NewConnection "wss://host" "key" false)
                    "exception" PValue 100)). reflexivity.
  - split; [reflexivity|]. split; [discriminate|]. split; [reflexivity|].
    split; [reflexivity|].
    apply (proj2 (proj1 (proj2 (C5_outbound_queue full_connection "exception" PValue 100))
                    eq_refl ltac:(discriminate))
             (mkMessage "exception" PValue 0) (queued 1 99)); reflexivity.
  - split; [vm_compute; discriminate|].
    apply (proj1 (proj2 (proj2 (C5_outbound_queue full_connection "heartbeat"
                                  PValue 100)))).
    vm_compute; discriminate.
  - apply (proj2 (proj2 (proj2 (proj2 (C5_outbound_queue full_connection "exception"
                                         PValue 100))))
             eq_refl ltac:(discriminate)
             (mkMessage "exception" PValue 0) (queued 1 99)
             (mkMessage "heartbeat" PValue 100)); reflexivity.
Defined.

(** ** The fatal error codes *)

Lemma fatal_code_test (payloadMap : gmap string JSON) :
  string_field payloadMap "code" = "invalid_api_key"
  \/ string_field payloadMap "code" = "auth_error" ->
  (String.eqb (string_field payloadMap "code") "auth_error"
   || String.eqb (string_field payloadMap "code") "invalid_api_key") = true.
Proof. intros [-> | ->]; reflexivity. Qed.

(** What [handleError] leaves behind on a fatal code. *)
Lemma handleError_fatal (c : Connection) (payloadMap : gmap string JSON) :
  string_field payloadMap "code" = "invalid_api_key"
  \/ string_field payloadMap "code" = "auth_error" ->
  done c = false ->
  exists c', handleError c (PObject payloadMap) = Ok c'
             /\ done c' = true /\ conn c' = None
             /\ connected c' = false /\ authenticated c' = false
             /\ maxReconnectAttempts c' = 0.
Proof.
  intros Hcode Hdone. unfold handleError. rewrite (fatal_code_test _ Hcode).
  unfold Disconnect. simpl. rewrite Hdone.
  destruct (conn c) eqn:Hconn; (eexists; split; [reflexivity|]);
    simpl; repeat (split; try reflexivity); exact Hconn.
Qed.

(** A fatal code never leaves a socket: either the second close of [done]
    panics, or the connection has no socket any more. *)
Lemma handleError_fatal_cases (c : Connection) (payloadMap : gmap string JSON) :
  string_field payloadMap "code" = "invalid_api_key"
  \/ string_field payloadMap "code" = "auth_error" ->
  (exists msg, handleError c (PObject payloadMap) = Panic msg)
  \/ (exists c', handleError c (PObject payloadMap) = Ok c' /\ conn c' = None).
Proof.
  intros Hcode. destruct (done c) eqn:Hdone.
  - left. unfold handleError. rewrite (fatal_code_test _ Hcode).
    unfold Disconnect. simpl. rewrite Hdone. eauto.
  - right. destruct (handleError_fatal c payloadMap Hcode Hdone) as (c' & H & _ & Hc & _).
    eauto.
Qed.

Lemma Connect_done (c : Connection) (turns : list Turn) :
  done c = true -> Connect c turns = (c, Stopped).
Proof. intros H. destruct turns; simpl; rewrite H; reflexivity. Qed.

Lemma runMessageLoop_no_socket (c : Connection) (inbound : list (option Message)) :
  conn c = None -> exists msg, runMessageLoop c inbound = (c, Some msg).
Proof. intros H. destruct inbound; simpl; rewrite H; eauto. Qed.

Lemma runMessageLoop_cons (c : Connection) (data : option Message)
  (rest : list (option Message)) :
  runMessageLoop c (data :: rest)
  = match conn c with
    | None => (c, Some "runtime error: invalid memory address or nil pointer dereference")
    | Some _ =>
        match handleMessage c data with
        | Ok c => runMessageLoop c rest
        | Panic msg => (c, Some msg)
        end
    end.
Proof. reflexivity. Qed.

Lemma handleMessage_error_envelope (c : Connection) (payloadMap : gmap string JSON)
  (timestamp : Z) :
  handleMessage c (error_envelope payloadMap timestamp)
  = handleError c (PObject payloadMap).
Proof. reflexivity. Qed.

(** Once the fatal envelope is read, the rest of the session does not
    matter, and the session does not end by returning to the loop. *)
Lemma runMessageLoop_fatal (payloadMap : gmap string JSON) (timestamp : Z)
  (earlier later : list (option Message)) :
  string_field payloadMap "code" = "invalid_api_key"
  \/ string_field payloadMap "code" = "auth_error" ->
  forall c,
    runMessageLoop c (earlier ++ error_envelope payloadMap timestamp :: later)
    = runMessageLoop c (earlier ++ [error_envelope payloadMap timestamp])
    /\ snd (runMessageLoop c (earlier ++ [error_envelope payloadMap timestamp])) <> None.
Proof.
  intros Hcode. induction earlier as [|data earlier IH]; intros c;
    cbn [List.app]; rewrite !runMessageLoop_cons.
  - destruct (conn c) eqn:Hconn; [|split; [reflexivity | discriminate]].
    rewrite handleMessage_error_envelope.
    destruct (handleError_fatal_cases c payloadMap Hcode)
      as [[msg H] | (c' & H & Hnone)]; rewrite H.
    + split; [reflexivity | discriminate].
    + destruct (runMessageLoop_no_socket c' later Hnone) as [m1 H1].
      destruct (runMessageLoop_no_socket c' [] Hnone) as [m2 H2].
      rewrite H1, H2. simpl in H2. rewrite Hnone in H2. injection H2 as <-.
      destruct later; simpl in H1; rewrite Hnone in H1; injection H1 as <-;
        (split; [reflexivity | discriminate]).
  - destruct (conn c); [|split; [reflexivity | discriminate]].
    destruct (handleMessage c data) as [c'|msg]; [apply IH|].
    split; [reflexivity | discriminate].
Qed.

Lemma Connect_fatal (payloadMap : gmap string JSON) (timestamp : Z)
  (sock : nat) (nowMilli : Z) (earlier later : list (option Message))
  (after : list Turn) :
  string_field payloadMap "code" = "invalid_api_key"
  \/ string_field payloadMap "code" = "auth_error" ->
  forall before c,
    Connect c (before ++ DialSucceeds sock nowMilli
                 (earlier ++ error_envelope payloadMap timestamp :: later) :: after)
    = Connect c (before ++ [DialSucceeds sock nowMilli
                   (earlier ++ [error_envelope payloadMap timestamp])])
    /\ snd (Connect c (before ++ [DialSucceeds sock nowMilli
                   (earlier ++ [error_envelope payloadMap timestamp])])) <> Running.
Proof.
  intros Hcode. induction before as [|turn before IH]; intros c.
  - simpl. destruct (done c); [split; [reflexivity | discriminate]|].
    match goal with |- context [runMessageLoop ?c0 (earlier ++ [_])] =>
      destruct (runMessageLoop_fatal payloadMap timestamp earlier later Hcode c0)
        as [Heq Hne]; rewrite Heq;
      destruct (runMessageLoop c0 (earlier ++ [error_envelope payloadMap timestamp]))
        as [c1 [msg|]] end.
    + split; [reflexivity | discriminate].
    + exfalso. apply Hne. reflexivity.
  - simpl. destruct (done c); [split; [reflexivity | discriminate]|].
    destruct turn as [ | | sock' now' inbound'].
    + split; [reflexivity | discriminate].
    + match goal with |- context [if ?b then _ else _] => destruct b end;
        [split; [reflexivity | discriminate] | apply IH].
    + match goal with |- context [runMessageLoop ?c0 inbound'] =>
        destruct (runMessageLoop c0 inbound') as [c1 [msg|]] end;
        [split; [reflexivity | discriminate] | apply IH].
Qed.

(** C6.  Handling an [error] envelope whose code is [invalid_api_key] or
    [auth_error] tears the connection down at once (socket closed and
    dropped, both flags cleared, [done] closed, ceiling set to zero), and no
    connection attempt follows: the connect loop returns from that state
    without a dial whatever it is offered, and in a run of the loop nothing
    that comes after the envelope, in the same session or in later turns,
    changes the outcome, which is never a loop still running. *)
Theorem C6_fatal_error_stops_reconnect (c : Connection) (payloadMap : gmap string JSON) :
  string_field payloadMap "code" = "invalid_api_key"
  \/ string_field payloadMap "code" = "auth_error" ->
  (done c = false ->
   exists c', handleError c (PObject payloadMap) = Ok c'
     /\ done c' = true /\ conn c' = None
     /\ connected c' = false /\ authenticated c' = false
     /\ maxReconnectAttempts c' = 0
     /\ forall turns, Connect c' turns = (c', Stopped))
  /\ (forall timestamp before sock nowMilli earlier later after,
        Connect c (before ++ DialSucceeds sock nowMilli
                     (earlier ++ error_envelope payloadMap timestamp :: later) :: after)
        = Connect c (before ++ [DialSucceeds sock nowMilli
                       (earlier ++ [error_envelope payloadMap timestamp])])
        /\ snd (Connect c (before ++ [DialSucceeds sock nowMilli
                       (earlier ++ [error_envelope payloadMap timestamp])])) <> Running
        /\ dials (trace (fst (Connect c (before ++ DialSucceeds sock nowMilli
                     (earlier ++ error_envelope payloadMap timestamp :: later) :: after))))
           = dials (trace (fst (Connect c (before ++ [DialSucceeds sock nowMilli
                       (earlier ++ [error_envelope payloadMap timestamp])])))))
.
Proof.
  intros Hcode. split.
  - intros Hdone.
    destruct (handleError_fatal c payloadMap Hcode Hdone)
      as (c' & H & Hd & Hc & Hco & Ha & Hm).
    exists c'. repeat (split; [assumption|]).
    intros turns. apply Connect_done, Hd.
  - intros timestamp before sock nowMilli earlier later after.
    destruct (Connect_fatal payloadMap timestamp sock nowMilli earlier later after
                Hcode before c) as [Heq Hne].
    split; [exact Heq|]. split; [exact Hne|]. rewrite Heq. reflexivity.
Qed.

(** C6 on an authenticated connection, and on a run of the loop in which
    the envelope arrives in the first session. *)
Lemma C6_fatal_error_stops_reconnect_witness :
  let c := full_connection in
  (string_field invalid_key_payload "code" = "invalid_api_key"
   \/ string_field invalid_key_payload "code" = "auth_error")
  /\ done c = false
  /\ (exists c', handleError c (PObject invalid_key_payload) = Ok c'
        /\ done c' = true /\ conn c' = None
        /\ connected c' = false /\ authenticated c' = false
        /\ maxReconnectAttempts c' = 0
        /\ forall turns, Connect c' turns = (c', Stopped))
  /\ snd (Connect (NewConnection "wss://host" "key" false)
            [DialFails; DialSucceeds 1 0 [Some (mkMessage "registered" PValue 1);
                                          error_envelope invalid_key_payload 2];
             DialFails; DialSucceeds 2 3 []])
     <> Running.
Proof.
  intros c.
  assert (Hcode : string_field invalid_key_payload "code" = "invalid_api_key"
                  \/ string_field invalid_key_payload "code" = "auth_error").
  { left. vm_compute. reflexivity. }
  split; [exact Hcode|]. split; [reflexivity|]. split.
  - apply (proj1 (C6_fatal_error_stops_reconnect c invalid_key_payload Hcode)).
    reflexivity.
  - vm_compute. discriminate.
Defined.

End TransportSpec.

(* ===================================================================== *)
(** * Properties of package breakpoint                                     *)
(* ===================================================================== *)

Module BreakpointSpec.

Import Go Breakpoint.
Local Open Scope Z_scope.

(** ** The rate limiter *)

Lemma rateLimitOk_elapsed (m : Manager) (t : Z) :
  Second <= Sub t (captureWindowStart m) ->
  rateLimitOk m t = (true, mkManager (debug m) (breakpoints m) 1 t (sent m)).
Proof.
  intros H. unfold rateLimitOk.
  destruct (Sub t (captureWindowStart m) >=? Second) eqn:E; [reflexivity | lia].
Qed.

Lemma rateLimitOk_within (m : Manager) (t : Z) :
  Sub t (captureWindowStart m) < Second ->
  rateLimitOk m t
  = if captureCount m >=? maxCapturesPerSecond then (false, m)
    else (true, mkManager (debug m) (breakpoints m) (captureCount m + 1)
                  (captureWindowStart m) (sent m)).
Proof.
  intros H. unfold rateLimitOk.
  destruct (Sub t (captureWindowStart m) >=? Second) eqn:E; [lia | reflexivity].
Qed.

(** The limiter leaves the registry and the sink alone, and a rejection
    changes nothing at all. *)
Lemma rateLimitOk_keeps (m : Manager) (t : Z) :
  breakpoints (snd (rateLimitOk m t)) = breakpoints m
  /\ sent (snd (rateLimitOk m t)) = sent m
  /\ debug (snd (rateLimitOk m t)) = debug m.
Proof.
  unfold rateLimitOk.
  destruct (Sub t (captureWindowStart m) >=? Second); simpl;
    try match goal with |- context [if ?b then _ else _] => destruct b end;
    simpl; repeat split.
Qed.

Lemma rateLimitOk_reject (m : Manager) (t : Z) :
  fst (rateLimitOk m t) = false -> snd (rateLimitOk m t) = m.
Proof.
  unfold rateLimitOk.
  destruct (Sub t (captureWindowStart m) >=? Second); simpl.
  - discriminate.
  - destruct (captureCount m >=? maxCapturesPerSecond); simpl;
      [reflexivity | discriminate].
Qed.

(** ** Triggers *)

Lemma Hit_unregistered (m : Manager) (id : string) (w : HitWorld) :
  breakpoints m !! id = None -> Hit m id w = m.
Proof. intros H. unfold Hit. rewrite H. reflexivity. Qed.

Lemma Hit_at_ceiling (m : Manager) (id : string) (w : HitWorld) (bp : BreakpointInfo) :
  breakpoints m !! id = Some bp -> MaxHits bp <= HitCount bp -> Hit m id w = m.
Proof.
  intros H Hc. unfold Hit. rewrite H.
  destruct (HitCount bp >=? MaxHits bp) eqn:E; [reflexivity | lia].
Qed.

Lemma Hit_rejected (m : Manager) (id : string) (w : HitWorld) :
  fst (rateLimitOk m (clock w)) = false -> Hit m id w = m.
Proof.
  intros Hr. unfold Hit. destruct (breakpoints m !! id) as [bp|]; [|reflexivity].
  destruct (HitCount bp >=? MaxHits bp); [reflexivity|].
  pose proof (rateLimitOk_reject m (clock w) Hr) as Hm.
  destruct (rateLimitOk m (clock w)) as [ok m']. simpl in *. subst. reflexivity.
Qed.

(** A trigger that passes the three tests. *)
Lemma Hit_forward (m : Manager) (id : string) (w : HitWorld) (bp : BreakpointInfo) :
  breakpoints m !! id = Some bp -> HitCount bp < MaxHits bp ->
  fst (rateLimitOk m (clock w)) = true ->
  Hit m id w
  = mkManager (debug m) (<[id := bump bp]> (breakpoints m))
      (captureCount (snd (rateLimitOk m (clock w))))
      (captureWindowStart (snd (rateLimitOk m (clock w))))
      (sent m ++ [(ID bp, hitPayload (bump bp) (HitCount bp + 1) w)])%list.
Proof.
  intros H Hc Hr. unfold Hit. rewrite H.
  destruct (HitCount bp >=? MaxHits bp) eqn:E; [lia|].
  destruct (rateLimitOk_keeps m (clock w)) as (Hb & Hs & Hd).
  destruct (rateLimitOk m (clock w)) as [ok m']. simpl in *. subst ok. simpl.
  rewrite Hb, Hs, Hd. reflexivity.
Qed.

(** Every trigger either changes nothing, or forwards one payload and
    counts one hit. *)
Lemma Hit_cases (m : Manager) (id : string) (w : HitWorld) :
  Hit m id w = m
  \/ exists bp, breakpoints m !! id = Some bp /\ HitCount bp < MaxHits bp
       /\ fst (rateLimitOk m (clock w)) = true
       /\ breakpoints (Hit m id w) = <[id := bump bp]> (breakpoints m)
       /\ sent (Hit m id w)
          = (sent m ++ [(ID bp, hitPayload (bump bp) (HitCount bp + 1) w)])%list.
Proof.
  destruct (breakpoints m !! id) as [bp|] eqn:H;
    [|left; apply Hit_unregistered, H].
  destruct (Z_lt_le_dec (HitCount bp) (MaxHits bp)) as [Hc|Hc];
    [|left; eapply Hit_at_ceiling; eauto].
  destruct (fst (rateLimitOk m (clock w))) eqn:Hr;
    [|left; apply Hit_rejected, Hr].
  right. exists bp. rewrite (Hit_forward m id w bp H Hc Hr). simpl. auto.
Qed.

Lemma SetBreakpoint_lookup (m : Manager) (id filePath : string) (lineNumber : Z)
  (condition : string) (maxHits createdAt : Z) :
  breakpoints (SetBreakpoint m id filePath lineNumber condition maxHits createdAt) !! id
  = Some (mkBreakpointInfo id filePath lineNumber condition
            (Z.max 1 (Z.min 50 maxHits)) 0 createdAt).
Proof.
  unfold SetBreakpoint. simpl. rewrite lookup_insert_eq. do 2 f_equal.
  destruct (maxHits <? 1) eqn:E1.
  - destruct (1 >? 50) eqn:E2; lia.
  - destruct (maxHits >? 50) eqn:E2; lia.
Qed.

(** C7, as stated, fails when the shared rate limiter has used up its
    window: the first trigger after [Set(a, ..., maxHits=3)] forwards
    nothing and counts no hit, and after three such triggers the fourth,
    one second later, does forward a payload. *)
Lemma C7_counterexample :
  let m0 := SetBreakpoint busy_manager "a" "a.go" 7 "" 3 0 in
  let early := ("a", mkHitWorld 0 [] 0) in
  let late := ("a", mkHitWorld Second [] 1000) in
  captureCount m0 = 50
  /\ sent (Hit m0 "a" (mkHitWorld 0 [] 0)) = sent m0
  /\ HitCount <$> (breakpoints (Hit m0 "a" (mkHitWorld 0 [] 0)) !! "a") = Some 0
  /\ sent (run_hits m0 [early; early; early]) = sent m0
  /\ List.length (sent (run_hits m0 [early; early; early; late]))
     = S (List.length (sent m0)).
Proof. intros m0 early late. vm_compute. repeat split. Qed.

(** C7 (amended).  A trigger of an id that is not registered forwards
    nothing and changes nothing.  [Set] clamps maxHits to [1,50] and stores
    an entry with hit count zero.  After [Set(id, ..., maxHits=3)], three
    triggers that the shared rate limiter admits each raise the hit count
    by one and forward, keyed by the probe id, a payload with the capture
    time, the file path, the line number, the stack sample and the hit
    count 1, 2, 3; every trigger after them changes nothing.  A trigger
    that the limiter rejects changes nothing.  Every trigger either changes
    nothing or forwards one payload and raises the hit count of its probe
    by one. *)
Theorem C7_trigger_and_set (m : Manager) (id filePath : string) (lineNumber : Z)
  (condition : string) (maxHits createdAt : Z) :
  (forall w, breakpoints m !! id = None -> Hit m id w = m)
  /\ (exists bp,
        breakpoints (SetBreakpoint m id filePath lineNumber condition maxHits createdAt)
          !! id = Some bp
        /\ ID bp = id /\ FilePath bp = filePath /\ LineNumber bp = lineNumber
        /\ HitCount bp = 0
        /\ MaxHits bp = Z.max 1 (Z.min 50 maxHits) /\ 1 <= MaxHits bp <= 50)
  /\ (maxHits = 3 -> forall w1 w2 w3,
        let payload := fun (count : Z) (w : HitWorld) =>
          mkHitPayload (clockMilli w) filePath lineNumber (buildStackTrace (callStack w)) count in
        let m0 := SetBreakpoint m id filePath lineNumber condition maxHits createdAt in
        let m1 := Hit m0 id w1 in
        let m2 := Hit m1 id w2 in
        let m3 := Hit m2 id w3 in
        fst (rateLimitOk m0 (clock w1)) = true ->
        fst (rateLimitOk m1 (clock w2)) = true ->
        fst (rateLimitOk m2 (clock w3)) = true ->
        sent m3 = (sent m ++ [(id, payload 1 w1); (id, payload 2 w2); (id, payload 3 w3)])%list
        /\ HitCount <$> (breakpoints m3 !! id) = Some 3
        /\ forall w4, Hit m3 id w4 = m3)
  /\ (forall w, fst (rateLimitOk m (clock w)) = false -> Hit m id w = m)
  /\ (forall w,
        Hit m id w = m
        \/ exists bp, breakpoints m !! id = Some bp
             /\ breakpoints (Hit m id w) = <[id := bump bp]> (breakpoints m)
             /\ sent (Hit m id w)
                = (sent m ++ [(ID bp, hitPayload (bump bp) (HitCount bp + 1) w)])%list).
Proof.
  split; [intros w; apply Hit_unregistered|].
  split.
  { eexists. split; [apply SetBreakpoint_lookup|]. simpl. repeat split; lia. }
  split.
  { intros -> w1 w2 w3 payload m0 m1 m2 m3 H1 H2 H3.
    set (bp0 := mkBreakpointInfo id filePath lineNumber condition 3 0 createdAt).
    assert (L0 : breakpoints m0 !! id = Some bp0).
    { unfold m0. rewrite SetBreakpoint_lookup. reflexivity. }
    pose proof (Hit_forward m0 id w1 bp0 L0 ltac:(simpl; lia) H1) as E1.
    fold m1 in E1.
    assert (L1 : breakpoints m1 !! id = Some (bump bp0)).
    { rewrite E1. simpl. apply lookup_insert_eq. }
    pose proof (Hit_forward m1 id w2 (bump bp0) L1 ltac:(simpl; lia) H2) as E2.
    fold m2 in E2.
    assert (L2 : breakpoints m2 !! id = Some (bump (bump bp0))).
    { rewrite E2. simpl. apply lookup_insert_eq. }
    pose proof (Hit_forward m2 id w3 (bump (bump bp0)) L2 ltac:(simpl; lia) H3) as E3.
    fold m3 in E3.
    assert (L3 : breakpoints m3 !! id = Some (bump (bump (bump bp0)))).
    { rewrite E3. simpl. apply lookup_insert_eq. }
    split; [|split].
    - rewrite E3. simpl. rewrite E2. simpl. rewrite E1. simpl.
      rewrite <- !List.app_assoc. reflexivity.
    - rewrite L3. reflexivity.
    - intros w4. apply (Hit_at_ceiling m3 id w4 _ L3). simpl. lia. }
  split; [intros w; apply Hit_rejected|].
  intros w. destruct (Hit_cases m id w) as [H | (bp & H & _ & _ & Hb & Hs)];
    [left; exact H | right; eauto].
Qed.

(** The amended C7 on a fresh manager, and on one whose window is used
    up. *)
Lemma C7_trigger_and_set_witness :
  let m := NewManager false 0 in
  let w := fun t => mkHitWorld t [] t in
  let m0 := SetBreakpoint m "a" "a.go" 7 "" 3 0 in
  (breakpoints m !! "a" = None /\ Hit m "a" (w 0) = m)
  /\ (3 = 3
      /\ fst (rateLimitOk m0 (clock (w 1))) = true
      /\ fst (rateLimitOk (Hit m0 "a" (w 1)) (clock (w 2))) = true
      /\ fst (rateLimitOk (Hit (Hit m0 "a" (w 1)) "a" (w 2)) (clock (w 3))) = true
      /\ List.length (sent (Hit (Hit (Hit m0 "a" (w 1)) "a" (w 2)) "a" (w 3))) = 3%nat
      /\ forall w4, Hit (Hit (Hit (Hit m0 "a" (w 1)) "a" (w 2)) "a" (w 3)) "a" w4
                    = Hit (Hit (Hit m0 "a" (w 1)) "a" (w 2)) "a" (w 3))
  /\ (fst (rateLimitOk busy_manager (clock (w 0))) = false
      /\ Hit busy_manager "b" (w 0) = busy_manager).
Proof.
  intros m w m0. split; [|split].
  - split; [reflexivity|].
    apply (proj1 (C7_trigger_and_set m "a" "a.go" 7 "" 3 0)). reflexivity.
  - split; [reflexivity|].
    split; [vm_compute; reflexivity|]. split; [vm_compute; reflexivity|].
    split; [vm_compute; reflexivity|].
    destruct (proj1 (proj2 (proj2 (C7_trigger_and_set m "a" "a.go" 7 "" 3 0)))
                eq_refl (w 1) (w 2) (w 3)
                ltac:(vm_compute; reflexivity) ltac:(vm_compute; reflexivity)
                ltac:(vm_compute; reflexivity)) as (Hs & _ & Hno).
    split; [|exact Hno]. fold m0 in Hs. rewrite Hs. reflexivity.
  - split; [vm_compute; reflexivity|].
    apply (proj1 (proj2 (proj2 (proj2 (C7_trigger_and_set busy_manager "b" "b.go" 1 "" 50 0))))).
    vm_compute; reflexivity.
Defined.

(** ** The window of the rate limiter *)

(** A trigger inside the open window keeps the window; if it forwards, the
    window had room and its count goes up by one. *)
Lemma Hit_in_window (m : Manager) (id : string) (w : HitWorld) :
  Sub (clock w) (captureWindowStart m) < Second ->
  captureWindowStart (Hit m id w) = captureWindowStart m
  /\ (Hit m id w = m
      \/ (List.length (sent (Hit m id w)) = S (List.length (sent m))
          /\ captureCount (Hit m id w) = captureCount m + 1
          /\ captureCount m < 50)).
Proof.
  intros Hw.
  destruct (Hit_cases m id w) as [H | (bp & Hl & Hc & Hr & _ & _)].
  - rewrite H. split; [reflexivity | left; reflexivity].
  - rewrite (Hit_forward m id w bp Hl Hc Hr). simpl.
    rewrite (rateLimitOk_within m (clock w) Hw) in *.
    unfold maxCapturesPerSecond in *.
    destruct (captureCount m >=? 50) eqn:E; simpl in *; [discriminate|].
    split; [reflexivity|]. right. rewrite List.length_app. simpl.
    repeat split; lia.
Qed.

Lemma run_hits_in_window (attempts : list (string * HitWorld)) :
  forall m, in_window m attempts = true ->
    captureWindowStart (run_hits m attempts) = captureWindowStart m
    /\ Z.of_nat (List.length (sent (run_hits m attempts)))
       - Z.of_nat (List.length (sent m))
       = captureCount (run_hits m attempts) - captureCount m
    /\ captureCount (run_hits m attempts) <= Z.max 50 (captureCount m).
Proof.
  induction attempts as [|[id w] rest IH]; intros m Hin; simpl.
  - repeat split; lia.
  - unfold in_window in Hin. simpl in Hin. apply andb_true_iff in Hin as [Hw Hrest].
    destruct (Hit_in_window m id w ltac:(lia)) as [Hstart Hcase].
    assert (Hin' : in_window (Hit m id w) rest = true).
    { unfold in_window. rewrite Hstart. exact Hrest. }
    destruct (IH (Hit m id w) Hin') as (H1 & H2 & H3).
    fold (run_hits (Hit m id w) rest).
    destruct Hcase as [Hsame | (Hs & Hc & Hroom)].
    + rewrite Hsame in *. auto.
    + rewrite H1, Hstart. split; [reflexivity|]. split; lia.
Qed.

(** C8, as stated, fails: the window is a fixed one, so that sixty attempts
    within one second (here within a twentieth of a second) that lie on both
    sides of the end of the window are all forwarded, thirty by the old
    window and thirty by the one that the thirty-first attempt opens. *)
Lemma C8_counterexample :
  List.length straddling_attempts = 60%nat
  /\ within_one_second 950000000 straddling_attempts = true
  /\ in_window two_probes straddling_attempts = false
  /\ List.length (sent two_probes) = 0%nat
  /\ List.length (sent (run_hits two_probes straddling_attempts)) = 60%nat.
Proof. repeat split; vm_compute; reflexivity. Qed.

(** C8 (amended).  The limiter is one fixed window shared by all the probes
    of a manager: whatever probes they name, the triggers that fall into
    the open window (less than one second after its start) forward at most
    50 payloads, 60 attempts or any other number; a check that finds one
    second or more since the start of the window opens a new window at that
    moment and admits the trigger, so an attempt one full second after the
    start forwards again; before that the window stays as it is. *)
Theorem C8_rate_limit (m : Manager) (attempts : list (string * HitWorld)) :
  (0 <= captureCount m -> in_window m attempts = true ->
   (List.length (sent (run_hits m attempts)) <= List.length (sent m) + 50)%nat
   /\ captureWindowStart (run_hits m attempts) = captureWindowStart m)
  /\ (forall t, Second <= Sub t (captureWindowStart m) ->
        rateLimitOk m t = (true, mkManager (debug m) (breakpoints m) 1 t (sent m)))
  /\ (forall t, Sub t (captureWindowStart m) < Second ->
        fst (rateLimitOk m t) = (captureCount m <? 50)
        /\ captureWindowStart (snd (rateLimitOk m t)) = captureWindowStart m)
  /\ (forall id w bp,
        Second <= Sub (clock w) (captureWindowStart m) ->
        breakpoints m !! id = Some bp -> HitCount bp < MaxHits bp ->
        sent (Hit m id w)
        = (sent m ++ [(ID bp, hitPayload (bump bp) (HitCount bp + 1) w)])%list
        /\ captureWindowStart (Hit m id w) = clock w
        /\ captureCount (Hit m id w) = 1).
Proof.
  split; [|split; [|split]].
  - intros H0 Hin. destruct (run_hits_in_window attempts m Hin) as (H1 & H2 & H3).
    split; [lia | exact H1].
  - apply rateLimitOk_elapsed.
  - intros t Ht. rewrite (rateLimitOk_within m t Ht). unfold maxCapturesPerSecond.
    destruct (captureCount m >=? 50) eqn:E; simpl; split; try reflexivity; lia.
  - intros id w bp Ht Hl Hc.
    assert (Hr : fst (rateLimitOk m (clock w)) = true)
      by (rewrite rateLimitOk_elapsed by exact Ht; reflexivity).
    rewrite (Hit_forward m id w bp Hl Hc Hr). simpl.
    rewrite rateLimitOk_elapsed by exact Ht. simpl. repeat split.
Qed.

(** C8 on sixty attempts on two probes within half a second of the start
    of the window: fifty payloads; the attempt one second after the start is
    forwarded. *)
Lemma C8_rate_limit_witness :
  (0 <= captureCount two_probes
   /\ in_window two_probes sixty_attempts = true
   /\ List.length sixty_attempts = 60%nat
   /\ (List.length (sent after_sixty) <= List.length (sent two_probes) + 50)%nat
   /\ List.length (sent after_sixty) = 50%nat)
  /\ (Second <= Sub (clock (mkHitWorld Second [] 1000)) (captureWindowStart after_sixty)
      /\ breakpoints after_sixty !! "b"
         = Some (mkBreakpointInfo "b" "b.go" 2 "" 50 20 0)
      /\ 20 < 50
      /\ List.length (sent (Hit after_sixty "b" (mkHitWorld Second [] 1000))) = 51%nat
      /\ captureWindowStart (Hit after_sixty "b" (mkHitWorld Second [] 1000)) = Second).
Proof.
  split.
  - split; [vm_compute; discriminate|]. split; [vm_compute; reflexivity|].
    split; [reflexivity|]. split; [|vm_compute; reflexivity].
    apply (proj1 (C8_rate_limit two_probes sixty_attempts));
      [vm_compute; discriminate | vm_compute; reflexivity].
  - assert (Ht : Second <= Sub (clock (mkHitWorld Second [] 1000))
                             (captureWindowStart after_sixty))
      by (vm_compute; discriminate).
    assert (Hl : breakpoints after_sixty !! "b"
                 = Some (mkBreakpointInfo "b" "b.go" 2 "" 50 20 0))
      by (vm_compute; reflexivity).
    split; [exact Ht|]. split; [exact Hl|]. split; [lia|].
    destruct (proj2 (proj2 (proj2 (C8_rate_limit after_sixty [])))
                "b" (mkHitWorld Second [] 1000) _ Ht Hl ltac:(simpl; lia))
      as (Hs & Hw & _).
    split; [|exact Hw]. rewrite Hs, List.length_app. vm_compute. reflexivity.
Defined.

(** ** The stack sample of a probe *)

(** The match on the iterator in [walkLoop] is the call of [Next]. *)
Lemma walkLoop_Next (callFrames : list Frame) (frames : list TraceEntry) :
  walkLoop callFrames frames
  = let '(frame, more, callFrames') := Next callFrames in
    let frames := (frames ++ [traceEntryOf frame])%list in
    if negb more then frames else walkLoop callFrames' frames.
Proof. destruct callFrames as [|frame [|next rest]]; reflexivity. Qed.

Lemma walkLoop_spec (callFrames : list Frame) :
  forall frames,
    walkLoop callFrames frames
    = (frames ++ match callFrames with
                 | [] => [traceEntryOf (mkFrame "" "" 0)]
                 | _ => List.map traceEntryOf callFrames
                 end)%list.
Proof.
  induction callFrames as [|frame rest IH]; intros frames; [reflexivity|].
  simpl. destruct rest as [|next rest]; [reflexivity|].
  rewrite IH. simpl. rewrite <- List.app_assoc. reflexivity.
Qed.

Lemma buildStackTrace_spec (stack : list Frame) :
  buildStackTrace stack
  = match Callers 3 50 stack with
    | [] => [traceEntryOf (mkFrame "" "" 0)]
    | pcs => List.map traceEntryOf pcs
    end.
Proof.
  unfold buildStackTrace. rewrite walkLoop_spec. simpl.
  destruct (Callers 3 50 stack); reflexivity.
Qed.

Lemma traceEntryOf_native (frame : Frame) :
  is_native (traceEntryOf frame) = true <-> file_path (traceEntryOf frame) = "".
Proof. simpl. apply String.eqb_eq. Qed.

(** C9, as stated, fails: the sample of a probe keeps the frames of the
    runtime (here [runtime.main]), and its is-native flag is false for a
    frame inside the source tree of the runtime. *)
Lemma C9_counterexample :
  exists payload e,
    sent (Hit probe_manager "p" probe_world) = [("p", payload)]
    /\ In e (stack_trace payload)
    /\ method_name e = "runtime.main"
    /\ HasPrefix (method_name e) "runtime." = true
    /\ HasPrefix (file_path e) "runtime/" = true
    /\ is_native e = false.
Proof.
  eexists. exists (traceEntryOf (mkFrame "runtime.main" "runtime/proc.go" 283)).
  split; [vm_compute; reflexivity|].
  split; [simpl; auto|]. repeat split.
Qed.

(** C9 (amended).  For every successful trigger of a probe, the stack
    sample in the forwarded payload is the one of the walker of the probe
    manager: it holds between 1 and 50 entries; when the walk collected
    frames it holds all of them in their order, those of the runtime
    included, and otherwise one empty entry; and the is-native flag of an
    entry is true exactly when the entry has no file path. *)
Theorem C9_probe_stack_sample (m : Manager) (id : string) (w : HitWorld)
  (bp : BreakpointInfo) :
  breakpoints m !! id = Some bp -> HitCount bp < MaxHits bp ->
  fst (rateLimitOk m (clock w)) = true ->
  exists payload,
    sent (Hit m id w) = (sent m ++ [(ID bp, payload)])%list
    /\ stack_trace payload = buildStackTrace (callStack w)
    /\ (1 <= List.length (stack_trace payload) <= 50)%nat
    /\ (Callers 3 50 (callStack w) <> [] ->
        stack_trace payload = List.map traceEntryOf (Callers 3 50 (callStack w)))
    /\ (Callers 3 50 (callStack w) = [] ->
        stack_trace payload = [traceEntryOf (mkFrame "" "" 0)])
    /\ (forall e, In e (stack_trace payload) ->
          (is_native e = true <-> file_path e = "")).
Proof.
  intros Hl Hc Hr. rewrite (Hit_forward m id w bp Hl Hc Hr). simpl.
  eexists. split; [reflexivity|]. simpl. split; [reflexivity|].
  rewrite buildStackTrace_spec.
  assert (Hlen : (List.length (Callers 3 50 (callStack w)) <= 50)%nat)
    by (unfold Callers; apply List.firstn_le_length).
  destruct (Callers 3 50 (callStack w)) as [|frame pcs] eqn:Hpcs.
  - split; [simpl; lia|]. split; [congruence|]. split; [reflexivity|].
    intros e [<- | []]. apply traceEntryOf_native.
  - split; [rewrite List.length_map; simpl in *; lia|].
    split; [reflexivity|]. split; [discriminate|].
    intros e He. apply List.in_map_iff in He as (f & <- & _).
    apply traceEntryOf_native.
Qed.

(** The amended C9 on a probe hit from [main.handler]. *)
Lemma C9_probe_stack_sample_witness :
  breakpoints probe_manager !! "p"
  = Some (mkBreakpointInfo "p" "handler.go" 12 "" 5 0 0)
  /\ 0 < 5
  /\ fst (rateLimitOk probe_manager (clock probe_world)) = true
  /\ exists payload,
       sent (Hit probe_manager "p" probe_world)
       = (sent probe_manager ++ [("p", payload)])%list
       /\ stack_trace payload = buildStackTrace (callStack probe_world)
       /\ (1 <= List.length (stack_trace payload) <= 50)%nat
       /\ (Callers 3 50 (callStack probe_world) <> [] ->
           stack_trace payload
           = List.map traceEntryOf (Callers 3 50 (callStack probe_world)))
       /\ (Callers 3 50 (callStack probe_world) = [] ->
           stack_trace payload = [traceEntryOf (mkFrame "" "" 0)])
       /\ (forall e, In e (stack_trace payload) ->
             (is_native e = true <-> file_path e = "")).
Proof.
  assert (Hl : breakpoints probe_manager !! "p"
               = Some (mkBreakpointInfo "p" "handler.go" 12 "" 5 0 0))
    by (vm_compute; reflexivity).
  split; [exact Hl|]. split; [lia|]. split; [reflexivity|].
  apply (C9_probe_stack_sample probe_manager "p" probe_world _ Hl);
    [simpl; lia | reflexivity].
Defined.

End BreakpointSpec.

(* ===================================================================== *)
(** * Further properties of package capture                                *)
(* ===================================================================== *)

Module CaptureExtra.

Import Go Capture CaptureSpec.
Local Open Scope Z_scope.

(** ** Strings, slices, maps and structs *)

Lemma prefix_substring (n : nat) :
  forall s, String.prefix (substring 0 n s) s = true.
Proof.
  induction n as [| n IH]; intros [| c s]; simpl; try reflexivity.
  destruct (ascii_dec c c); [apply IH | congruence].
Qed.

Lemma prefix_refl (s : string) : String.prefix s s = true.
Proof.
  induction s as [| c s IH]; simpl; [reflexivity |].
  destruct (ascii_dec c c); [exact IH | congruence].
Qed.

(** X1.  A string captured within the depth limit is reported with the
    type [string], whatever its declared type, and with its first 1000 bytes:
    the value is a prefix of the string of length min(len, 1000), it is the
    string itself when that has at most 1000 bytes, and the node is marked
    truncated exactly when the string has more; the node has no parts. *)
Theorem X1_string_clipping (name : string) (t : RType) (s : string)
  (depth maxDepth : Z) :
  depth <= maxDepth ->
  exists v, captureValue name (VString t s) depth maxDepth = Ok v
    /\ Name v = name /\ Type_ v = "string"
    /\ HasPrefix s (Value v) = true
    /\ len_s (Value v) = Z.min (len_s s) 1000
    /\ IsTruncated v = (len_s s >? 1000)
    /\ (len_s s <= 1000 -> Value v = s)
    /\ is_terminal v.
Proof.
  intros Hd. simpl.
  destruct (depth >? maxDepth) eqn:E; [apply Z.gtb_lt in E; lia |].
  eexists. split; [reflexivity |]. cbn [Name Type_ Value IsTruncated leaf].
  unfold HasPrefix, len_s, is_terminal.
  destruct (Z.of_nat (String.length s) >? 1000) eqn:L.
  - apply Z.gtb_lt in L. repeat split; try lia.
    + apply prefix_substring.
    + rewrite substring_prefix_length by lia. lia.
  - rewrite Z.gtb_ltb in L. apply Z.ltb_ge in L.
    repeat split; try lia.
    apply prefix_refl.
Qed.

(** X1 on a short string of a declared type. *)
Lemma X1_string_clipping_witness :
  0 <= 0
  /\ exists v, captureValue "note" (VString (TDefined "main" "Note") "hello") 0 0 = Ok v
    /\ Name v = "note" /\ Type_ v = "string"
    /\ HasPrefix "hello" (Value v) = true
    /\ len_s (Value v) = Z.min (len_s "hello") 1000
    /\ IsTruncated v = (len_s "hello" >? 1000)
    /\ (len_s "hello" <= 1000 -> Value v = "hello")
    /\ is_terminal v.
Proof.
  split; [lia |].
  apply (X1_string_clipping "note" (TDefined "main" "Note") "hello" 0 0). lia.
Defined.

Section LoopsShape.

Variable capture : string -> GoValue -> result Variable_.

Lemma sliceLoop_shape (bound : Z) (rest : list GoValue) :
  forall i elements out,
    sliceLoop capture bound rest i elements = Ok out ->
    exists outs, out = (elements ++ outs)%list
      /\ len outs = Z.max 0 (bound - i)
      /\ forall (j : nat) e, outs !! j = Some e ->
           exists x, rest !! j = Some x
             /\ capture ("[" ++ fmt_d (i + Z.of_nat j) ++ "]") x = Ok e.
Proof.
  induction rest as [| x rest IH]; intros i elements out H; simpl in H;
    destruct (i <? bound) eqn:E; try discriminate.
  - apply Z.ltb_ge in E. inversion H; subst. exists []. rewrite app_nil_r.
    repeat split; [unfold len; simpl; lia | intros j e Hj; destruct j; discriminate].
  - apply Z.ltb_lt in E.
    destruct (capture ("[" ++ fmt_d i ++ "]") x) as [e0 |] eqn:C; simpl in H;
      [| discriminate].
    destruct (IH _ _ _ H) as (outs & -> & L & P).
    exists (e0 :: outs). rewrite <- app_assoc. split; [reflexivity |].
    split; [unfold len in *; simpl length; lia |].
    intros [| j] e Hj; simpl in Hj.
    + inversion Hj; subst. exists x. split; [reflexivity |].
      replace (i + Z.of_nat 0) with i by lia. exact C.
    + destruct (P j e Hj) as (y & Hy & Cy). exists y. split; [exact Hy |].
      replace (i + Z.of_nat (S j)) with (i + 1 + Z.of_nat j) by lia. exact Cy.
  - apply Z.ltb_ge in E. inversion H; subst. exists []. rewrite app_nil_r.
    repeat split; [unfold len; simpl; lia | intros j e Hj; destruct j; discriminate].
Qed.

Lemma sliceLoop_firstn (bound : Z) (rest : list GoValue) :
  forall i elements,
    sliceLoop capture bound rest i elements
    = sliceLoop capture bound (List.firstn (Z.to_nat (bound - i)) rest) i elements.
Proof.
  induction rest as [| x rest IH]; intros i elements.
  - rewrite firstn_nil. reflexivity.
  - destruct (i <? bound) eqn:E.
    + assert (Hi : i < bound) by (apply Z.ltb_lt; exact E).
      replace (Z.to_nat (bound - i)) with (S (Z.to_nat (bound - (i + 1)))) by lia.
      simpl. rewrite E.
      destruct (capture ("[" ++ fmt_d i ++ "]") x); simpl; [apply IH | reflexivity].
    + assert (Hi : bound <= i) by (apply Z.ltb_ge; exact E).
      replace (Z.to_nat (bound - i)) with 0%nat by lia.
      simpl. rewrite E. reflexivity.
Qed.

Lemma sliceLoop_first100 (elems : list GoValue) :
  sliceLoop capture (if len elems <? 100 then len elems else 100) elems 0 []
  = sliceLoop capture (len (List.firstn 100 elems)) (List.firstn 100 elems) 0 [].
Proof.
  assert (B : (if len elems <? 100 then len elems else 100)
              = len (List.firstn 100 elems)).
  { unfold len. rewrite length_firstn.
    destruct (Z.of_nat (List.length elems) <? 100) eqn:E;
      [apply Z.ltb_lt in E | apply Z.ltb_ge in E]; lia. }
  rewrite B, sliceLoop_firstn.
  rewrite (sliceLoop_firstn _ (List.firstn 100 elems)).
  rewrite firstn_firstn. f_equal. f_equal.
  unfold len. rewrite length_firstn. lia.
Qed.

Lemma mapLoop_shape (bound : Z) (rest : list (string * bool * GoValue)) :
  forall i children out,
    mapLoop capture bound rest i children = Ok out ->
    (size out <= size children + Z.to_nat (bound - i))%nat
    /\ (forall (j : nat) e, rest !! j = Some e -> Z.of_nat j < bound - i ->
          snd (fst e) = true)
    /\ forall k,
         (out !! k = children !! k
          /\ forall (j : nat) e, rest !! j = Some e -> Z.of_nat j < bound - i ->
               fst (fst e) <> k)
         \/ (exists (j : nat) val c,
               rest !! j = Some (k, true, val) /\ Z.of_nat j < bound - i
               /\ capture k val = Ok c /\ out !! k = Some c
               /\ forall (j' : nat) e, (j < j')%nat -> rest !! j' = Some e ->
                    Z.of_nat j' < bound - i -> fst (fst e) <> k).
Proof.
  induction rest as [| [[key found] val] rest IH]; intros i children out H;
    simpl in H; destruct (i <? bound) eqn:E; try discriminate.
  - inversion H; subst. split; [lia |]. split; [intros j e Hj; destruct j; discriminate |].
    intros k. left. split; [reflexivity | intros j e Hj; destruct j; discriminate].
  - apply Z.ltb_lt in E. destruct found; [| discriminate].
    destruct (capture key val) as [c0 |] eqn:C; simpl in H; [| discriminate].
    destruct (IH _ _ _ H) as (S1 & F1 & K1).
    split.
    { rewrite map_size_insert in S1.
      destruct (children !! key); simpl in S1; lia. }
    split.
    { intros [| j] e Hj Hb; simpl in Hj.
      - inversion Hj; subst. reflexivity.
      - apply (F1 j e Hj). lia. }
    intros k. destruct (K1 k) as [[L N] | (j & v & c & Hj & Hb & Cj & Lj & N)].
    + destruct (decide (key = k)) as [-> | Hne].
      * right. exists 0%nat, val, c0. rewrite lookup_insert_eq in L.
        repeat split; try assumption; try reflexivity; try lia.
        intros [| j'] e Hlt Hj Hb; [lia |]. simpl in Hj. apply (N j' e Hj). lia.
      * left. rewrite lookup_insert_ne in L by exact Hne. split; [exact L |].
        intros [| j] e Hj Hb; simpl in Hj.
        -- inversion Hj; subst. exact Hne.
        -- apply (N j e Hj). lia.
    + right. exists (S j), v, c. repeat split; try assumption; try lia.
      intros [| j'] e Hlt Hj' Hb'; [lia |]. simpl in Hj'.
      apply (N j' e); [lia | exact Hj' | lia].
  - apply Z.ltb_ge in E. inversion H; subst. split; [lia |].
    split; [intros j e Hj Hb; lia |].
    intros k. left. split; [reflexivity | intros j e Hj Hb; lia].
Qed.

Lemma mapLoop_firstn (bound : Z) (rest : list (string * bool * GoValue)) :
  forall i children,
    mapLoop capture bound rest i children
    = mapLoop capture bound (List.firstn (Z.to_nat (bound - i)) rest) i children.
Proof.
  induction rest as [| [[key found] val] rest IH]; intros i children.
  - rewrite firstn_nil. reflexivity.
  - destruct (i <? bound) eqn:E.
    + assert (Hi : i < bound) by (apply Z.ltb_lt; exact E).
      replace (Z.to_nat (bound - i)) with (S (Z.to_nat (bound - (i + 1)))) by lia.
      simpl. rewrite E. destruct found; [| reflexivity].
      destruct (capture key val); simpl; [apply IH | reflexivity].
    + assert (Hi : bound <= i) by (apply Z.ltb_ge; exact E).
      replace (Z.to_nat (bound - i)) with 0%nat by lia.
      simpl. rewrite E. reflexivity.
Qed.

Lemma structLoop_shape (rest : list (string * bool * GoValue)) :
  forall i children out,
    structLoop capture rest i children = Ok out ->
    forall k,
      (out !! k = children !! k
       /\ forall (j : nat) fv, rest !! j = Some (k, true, fv) ->
            100 <= i + Z.of_nat j)
      \/ (exists (j : nat) fv c,
            rest !! j = Some (k, true, fv) /\ i + Z.of_nat j < 100
            /\ capture k fv = Ok c /\ out !! k = Some c
            /\ forall (j' : nat) fv', (j < j')%nat ->
                 rest !! j' = Some (k, true, fv') -> 100 <= i + Z.of_nat j').
Proof.
  induction rest as [| [[key exported] val] rest IH]; intros i children out H k;
    simpl in H.
  - inversion H; subst. left. split; [reflexivity | intros j fv Hj; destruct j; discriminate].
  - destruct (i <? 100) eqn:E.
    + apply Z.ltb_lt in E. destruct exported; simpl in H.
      * destruct (capture key val) as [c0 |] eqn:C; simpl in H; [| discriminate].
        destruct (IH _ _ _ H k) as [[L N] | (j & v & c & Hj & Hb & Cj & Lj & N)].
        -- destruct (decide (key = k)) as [-> | Hne].
           ++ right. exists 0%nat, val, c0. rewrite lookup_insert_eq in L.
              repeat split; try assumption; try reflexivity; try lia.
              intros [| j'] fv' Hlt Hj; [lia |]. simpl in Hj.
              specialize (N j' fv' Hj). lia.
           ++ left. rewrite lookup_insert_ne in L by exact Hne. split; [exact L |].
              intros [| j] fv Hj; simpl in Hj.
              ** inversion Hj; subst. congruence.
              ** specialize (N j fv Hj). lia.
        -- right. exists (S j), v, c. repeat split; try assumption; try lia.
           intros [| j'] fv' Hlt Hj'; [lia |]. simpl in Hj'.
           assert (100 <= i + 1 + Z.of_nat j') by (apply (N j' fv'); [lia | exact Hj']).
           lia.
      * destruct (IH _ _ _ H k) as [[L N] | (j & v & c & Hj & Hb & Cj & Lj & N)].
        -- left. split; [exact L |].
           intros [| j] fv Hj; simpl in Hj; [inversion Hj |].
           specialize (N j fv Hj). lia.
        -- right. exists (S j), v, c. repeat split; try assumption; try lia.
           intros [| j'] fv' Hlt Hj'; [lia |]. simpl in Hj'.
           assert (100 <= i + 1 + Z.of_nat j') by (apply (N j' fv'); [lia | exact Hj']).
           lia.
    + apply Z.ltb_ge in E. inversion H; subst. left.
      split; [reflexivity | intros j fv Hj; lia].
Qed.

End LoopsShape.

Lemma depth_guard_open (depth maxDepth : Z) :
  depth <= maxDepth -> (depth >? maxDepth) = false.
Proof. intros H. rewrite Z.gtb_ltb. apply Z.ltb_ge. exact H. Qed.

(** X2.  A slice or array captured within the depth limit: the node
    records the true length (in [Value] and [ArrayLength]), is marked
    truncated exactly when there are more than 100 elements, and holds
    min(len, 100) elements, the j-th being the capture of the j-th element
    under the name [[j]] one level deeper.  Elements past the first 100 are
    never looked at: two slices with the same first 100 elements give the
    same elements, or the same panic. *)
Theorem X2_slice_capture (name : string) (t : RType) (a : bool)
  (elems : list GoValue) (depth maxDepth : Z) :
  depth <= maxDepth ->
  (forall v, captureValue name (VSlice t a elems) depth maxDepth = Ok v ->
     Name v = name /\ Type_ v = TypeString t
     /\ Value v = "[" ++ fmt_d (len elems) ++ " items]"
     /\ ArrayLength v = Some (len elems)
     /\ IsTruncated v = (len elems >? 100)
     /\ len (ArrayElements v) = Z.min (len elems) 100
     /\ Children v = ∅
     /\ forall (j : nat) e, ArrayElements v !! j = Some e ->
          exists x, elems !! j = Some x
            /\ captureValue ("[" ++ fmt_d (Z.of_nat j) ++ "]") x (depth + 1) maxDepth
               = Ok e)
  /\ (forall t' a' elems', List.firstn 100 elems' = List.firstn 100 elems ->
        ArrayElements <$> captureValue name (VSlice t' a' elems') depth maxDepth
        = ArrayElements <$> captureValue name (VSlice t a elems) depth maxDepth).
Proof.
  intros Hd. split.
  - intros v H. simpl in H. rewrite (depth_guard_open _ _ Hd) in H.
    match type of H with
    | mbind _ ?r = _ => destruct r as [els |] eqn:L; simpl in H; [| discriminate]
    end.
    inversion H; subst; clear H. cbn [Name Type_ Value ArrayLength IsTruncated
      ArrayElements Children].
    apply sliceLoop_shape in L. destruct L as (outs & -> & Ln & P).
    repeat split; try reflexivity.
    + simpl. rewrite Ln.
      destruct (len elems <? 100) eqn:E;
        [apply Z.ltb_lt in E | apply Z.ltb_ge in E]; unfold len in *; lia.
    + intros j e Hj. simpl in Hj. destruct (P j e Hj) as (x & Hx & C).
      exists x. split; [exact Hx |]. exact C.
  - intros t' a' elems' F. simpl. rewrite (depth_guard_open _ _ Hd).
    rewrite (sliceLoop_first100 _ elems), (sliceLoop_first100 _ elems'), F.
    destruct (sliceLoop _ _ _ _ _); reflexivity.
Qed.

(** X2 on the sample slice of three elements. *)
Lemma X2_slice_capture_witness :
  0 <= 10
  /\ (forall v, captureValue "xs" sample_value 0 10 = Ok v ->
        Name v = "xs" /\ Type_ v = "[]interface {}"
        /\ Value v = "[3 items]"
        /\ ArrayLength v = Some 3
        /\ IsTruncated v = false
        /\ len (ArrayElements v) = 3
        /\ Children v = ∅
        /\ forall (j : nat) e, ArrayElements v !! j = Some e ->
             exists x, [VScalar (TBasic "int") KInt "1"; VNil;
                        VString (TBasic "string") "go"] !! j = Some x
               /\ captureValue ("[" ++ fmt_d (Z.of_nat j) ++ "]") x (0 + 1) 10 = Ok e)
  /\ is_ok (captureValue "xs" sample_value 0 10) = true.
Proof.
  split; [lia |]. split; [| reflexivity].
  apply (X2_slice_capture "xs" (TLiteral "[]interface {}") false
           [VScalar (TBasic "int") KInt "1"; VNil; VString (TBasic "string") "go"]
           0 10).
  lia.
Defined.

(** X3.  A map captured within the depth limit: the node records the
    number of keys and is marked truncated exactly when there are more than
    100; it has at most 100 children; each of the first 100 keys that
    [MapKeys] lists is found again and has a child under its rendering; and
    each child is the capture, one level deeper, of the value of the last
    of the first 100 keys with that rendering. *)
Theorem X3_map_capture (name : string) (t : RType)
  (entries : list (string * bool * GoValue)) (depth maxDepth : Z) (v : Variable_) :
  depth <= maxDepth ->
  captureValue name (VMap t entries) depth maxDepth = Ok v ->
  Name v = name /\ Type_ v = TypeString t
  /\ Value v = "map[" ++ fmt_d (len entries) ++ "]"
  /\ IsTruncated v = (len entries >? 100)
  /\ ArrayElements v = [] /\ ArrayLength v = None
  /\ (size (Children v) <= 100)%nat
  /\ (forall (j : nat) key found val, (j < 100)%nat ->
        entries !! j = Some (key, found, val) ->
        found = true /\ is_Some (Children v !! key))
  /\ (forall key c, Children v !! key = Some c ->
        exists (j : nat) val, (j < 100)%nat
          /\ entries !! j = Some (key, true, val)
          /\ captureValue key val (depth + 1) maxDepth = Ok c
          /\ forall (j' : nat) e, (j < j' < 100)%nat -> entries !! j' = Some e ->
               fst (fst e) <> key).
Proof.
  intros Hd H. simpl in H. rewrite (depth_guard_open _ _ Hd) in H.
  match type of H with
  | mbind _ ?r = _ => destruct r as [children |] eqn:L; simpl in H; [| discriminate]
  end.
  inversion H; subst; clear H.
  cbn [Name Type_ Value ArrayLength IsTruncated ArrayElements Children].
  apply mapLoop_shape in L. destruct L as (S1 & F1 & K1).
  assert (B : forall (j : nat) e, entries !! j = Some e -> (j < 100)%nat ->
            Z.of_nat j < (if len entries <? 100 then len entries else 100) - 0).
  { intros j e Hj Hlt. apply lookup_lt_Some in Hj.
    destruct (len entries <? 100); unfold len; lia. }
  assert (B' : forall j : nat,
            Z.of_nat j < (if len entries <? 100 then len entries else 100) - 0 ->
            (j < 100)%nat).
  { intros j. destruct (len entries <? 100) eqn:E;
      [apply Z.ltb_lt in E | apply Z.ltb_ge in E]; unfold len in *; lia. }
  repeat split; try reflexivity.
  - rewrite map_size_empty in S1.
    destruct (len entries <? 100) eqn:E;
      [apply Z.ltb_lt in E | apply Z.ltb_ge in E]; unfold len in *; lia.
  - apply (F1 j (key, found, val) H0). apply (B j _ H0 H).
  - destruct (K1 key) as [[_ N] | (j0 & v0 & c & _ & _ & _ & Lk & _)].
    + exfalso. apply (N j (key, found, val) H0); [apply (B j _ H0 H) | reflexivity].
    + exists c. exact Lk.
  - intros key c Hc. destruct (K1 key) as [[L _] | (j & val & c' & Hj & Hb & C & Lk & N)].
    + rewrite L, lookup_empty in Hc. discriminate.
    + rewrite Lk in Hc. inversion Hc; subst. exists j, val.
      repeat split; try assumption; [apply B'; exact Hb |].
      intros j' e [Hlt Hlt'] Hj'. apply (N j' e Hlt Hj'). apply (B j' e Hj' Hlt').
Qed.

(** X3 on a map with two keys. *)
Lemma X3_map_capture_witness :
  exists v,
    captureValue "env" (VMap (TLiteral "map[string]int")
                          [("a", true, VScalar (TBasic "int") KInt "1");
                           ("b", true, VScalar (TBasic "int") KInt "2")]) 0 10 = Ok v
    /\ Value v = "map[2]"
    /\ (size (Children v) <= 100)%nat.
Proof.
  eexists. split; [reflexivity |].
  destruct (X3_map_capture "env" (TLiteral "map[string]int")
              [("a", true, VScalar (TBasic "int") KInt "1");
               ("b", true, VScalar (TBasic "int") KInt "2")] 0 10 _
              ltac:(lia) eq_refl) as (_ & _ & V & _ & _ & _ & S & _).
  split; [exact V | exact S].
Defined.

Lemma structLoop_unexported (capture : string -> GoValue -> result Variable_)
  (fields fields' : list (string * bool * GoValue)) :
  List.Forall2 (fun f f' => fst f = fst f' /\ (snd (fst f) = true -> snd f = snd f'))
    fields fields' ->
  forall i children,
    structLoop capture fields i children = structLoop capture fields' i children.
Proof.
  induction 1 as [| [[k e] fv] [[k' e'] fv'] fields fields' [Hk Hv] _ IH];
    intros i children; [reflexivity |].
  simpl in Hk, Hv. inversion Hk; subst. simpl.
  destruct (i <? 100); [| reflexivity].
  destruct e'; simpl; [| apply IH].
  rewrite (Hv eq_refl). destruct (capture k' fv'); simpl; [apply IH | reflexivity].
Qed.

(** X4.  A struct captured within the depth limit: the node is never
    marked truncated; every exported field among the first 100 has a child
    under its name, and every child is the capture, one level deeper, of
    such a field.  Fields that are not exported are never looked at: a
    change of their values changes nothing, not even whether the capture
    panics. *)
Theorem X4_struct_capture (name : string) (t : RType)
  (fields : list (string * bool * GoValue)) (depth maxDepth : Z) :
  depth <= maxDepth ->
  (forall v, captureValue name (VStruct t fields) depth maxDepth = Ok v ->
     Name v = name /\ Type_ v = TypeString t
     /\ Value v = "<" ++ TypeName t ++ ">"
     /\ IsTruncated v = false /\ IsNull v = false
     /\ ArrayElements v = [] /\ ArrayLength v = None
     /\ (forall (j : nat) key fv, (j < 100)%nat ->
           fields !! j = Some (key, true, fv) -> is_Some (Children v !! key))
     /\ (forall key c, Children v !! key = Some c ->
           exists (j : nat) fv, (j < 100)%nat
             /\ fields !! j = Some (key, true, fv)
             /\ captureValue key fv (depth + 1) maxDepth = Ok c))
  /\ (forall fields',
        List.Forall2 (fun f f' => fst f = fst f'
                                  /\ (snd (fst f) = true -> snd f = snd f'))
          fields fields' ->
        captureValue name (VStruct t fields') depth maxDepth
        = captureValue name (VStruct t fields) depth maxDepth).
Proof.
  intros Hd. split.
  - intros v H. simpl in H. rewrite (depth_guard_open _ _ Hd) in H.
    match type of H with
    | mbind _ ?r = _ => destruct r as [children |] eqn:L; simpl in H; [| discriminate]
    end.
    inversion H; subst; clear H.
    cbn [Name Type_ Value ArrayLength IsTruncated IsNull ArrayElements Children].
    pose proof (structLoop_shape _ _ _ _ _ L) as K.
    repeat split; try reflexivity.
    + intros j key fv Hlt Hj.
      destruct (K key) as [[_ N] | (j0 & v0 & c & _ & _ & _ & Lk & _)].
      * specialize (N j fv Hj). lia.
      * exists c. exact Lk.
    + intros key c Hc.
      destruct (K key) as [[Lk _] | (j & fv & c' & Hj & Hb & C & Lk & _)].
      * rewrite Lk, lookup_empty in Hc. discriminate.
      * rewrite Lk in Hc. inversion Hc; subst. exists j, fv.
        repeat split; try assumption. lia.
  - intros fields' F. simpl. rewrite (depth_guard_open _ _ Hd).
    rewrite (structLoop_unexported _ _ _ F). reflexivity.
Qed.

(** X4 on a struct whose unexported field holds the map with the NaN
    key. *)
Lemma X4_struct_capture_witness :
  0 <= 10
  /\ captureValue "e" (VStruct (TDefined "main" "Order")
                         [("ID", true, VString (TBasic "string") "A-17");
                          ("cache", false, nan_keyed_map)]) 0 10
     = captureValue "e" (VStruct (TDefined "main" "Order")
                           [("ID", true, VString (TBasic "string") "A-17");
                            ("cache", false, VNil)]) 0 10.
Proof.
  split; [lia |].
  apply (X4_struct_capture "e" (TDefined "main" "Order")
           [("ID", true, VString (TBasic "string") "A-17"); ("cache", false, VNil)]
           0 10 ltac:(lia)).
  repeat constructor; simpl; discriminate.
Defined.

Lemma captureValue_limit_children (value : GoValue) :
  forall name depth v,
    captureValue name value depth depth = Ok v ->
    (forall e, In e (ArrayElements v) -> is_terminal e)
    /\ (forall key c, Children v !! key = Some c -> is_terminal c).
Proof.
  assert (T : forall key x c d, captureValue key x (d + 1) d = Ok c -> is_terminal c).
  { intros key x c d C. destruct x.
    1: { rewrite captureValue_nil in C. inversion C; subst. repeat split. }
    all: rewrite captureValue_past_limit in C by (try discriminate; lia);
      inversion C; subst; repeat split. }
  induction value using GoValue_parts_ind; intros name depth v Hcap.
  1: { simpl in Hcap. inversion Hcap; subst. split; [intros e [] |].
       intros key c Hc. simpl in Hc. rewrite lookup_empty in Hc. discriminate. }
  all: simpl in Hcap; rewrite (depth_guard_open depth depth ltac:(lia)) in Hcap.
  - destruct (is_scalar_kind k); inversion Hcap; subst;
      (split; [intros e [] | intros key c Hc; simpl in Hc;
                             rewrite lookup_empty in Hc; discriminate]).
  - inversion Hcap; subst.
    split; [intros e [] | intros key c Hc; simpl in Hc;
                          rewrite lookup_empty in Hc; discriminate].
  - inversion Hcap; subst.
    split; [intros e [] | intros key c Hc; simpl in Hc;
                          rewrite lookup_empty in Hc; discriminate].
  - apply (IHvalue _ _ _ Hcap).
  - match type of Hcap with
    | mbind _ ?r = _ => destruct r as [els |] eqn:L; simpl in Hcap; [| discriminate]
    end.
    inversion Hcap; subst; clear Hcap. simpl.
    apply sliceLoop_shape in L. destruct L as (outs & -> & _ & P).
    split; [| intros key c Hc; rewrite lookup_empty in Hc; discriminate].
    intros e He. simpl in He. apply list_elem_of_In, list_elem_of_lookup in He.
    destruct He as [j Hj]. destruct (P j e Hj) as (x & _ & C).
    apply (T _ _ _ _ C).
  - match type of Hcap with
    | mbind _ ?r = _ => destruct r as [children |] eqn:L; simpl in Hcap; [| discriminate]
    end.
    inversion Hcap; subst; clear Hcap. simpl.
    apply mapLoop_shape in L. destruct L as (_ & _ & K).
    split; [intros e [] |]. intros key c Hc.
    destruct (K key) as [[Lk _] | (j & val & c' & _ & _ & C & Lk & _)].
    + rewrite Lk, lookup_empty in Hc. discriminate.
    + rewrite Lk in Hc. inversion Hc; subst. apply (T _ _ _ _ C).
  - match type of Hcap with
    | mbind _ ?r = _ => destruct r as [children |] eqn:L; simpl in Hcap; [| discriminate]
    end.
    inversion Hcap; subst; clear Hcap. simpl.
    pose proof (structLoop_shape _ _ _ _ _ L) as K.
    split; [intros e [] |]. intros key c Hc.
    destruct (K key) as [[Lk _] | (j & val & c' & _ & _ & C & Lk & _)].
    + rewrite Lk, lookup_empty in Hc. discriminate.
    + rewrite Lk in Hc. inversion Hc; subst. apply (T _ _ _ _ C).
Qed.

Lemma captureValue_Name (value : GoValue) :
  forall name depth maxDepth v,
    captureValue name value depth maxDepth = Ok v -> Name v = name.
Proof.
  induction value using GoValue_parts_ind; intros name depth maxDepth v Hcap;
    simpl in Hcap.
  1: { inversion Hcap; reflexivity. }
  all: destruct (depth >? maxDepth); [inversion Hcap; reflexivity |].
  - destruct (is_scalar_kind k); inversion Hcap; reflexivity.
  - inversion Hcap; reflexivity.
  - inversion Hcap; reflexivity.
  - apply (IHvalue _ _ _ _ Hcap).
  - node_of_bind Hcap. reflexivity.
  - node_of_bind Hcap. reflexivity.
  - node_of_bind Hcap. reflexivity.
Qed.

(** X5.  A capture that returns gives a node with the name it was asked
    for, pointers included; and at the depth limit itself the parts of the
    node, array elements and children, are all terminal: nothing lies deeper
    than one level below the limit. *)
Theorem X5_capture_node (name : string) (value : GoValue) (depth maxDepth : Z)
  (v : Variable_) :
  captureValue name value depth maxDepth = Ok v ->
  Name v = name
  /\ (depth = maxDepth ->
      (forall e, In e (ArrayElements v) -> is_terminal e)
      /\ (forall key c, Children v !! key = Some c -> is_terminal c)).
Proof.
  intros H. split; [apply (captureValue_Name _ _ _ _ _ H) |].
  intros ->. apply (captureValue_limit_children _ _ _ _ H).
Qed.

(** X5 on a pointer to a slice of slices, captured at the limit. *)
Lemma X5_capture_node_witness :
  exists v, captureValue "xs" (VPointer (TPointer (TLiteral "[][]int")) 
                                 (VSlice (TLiteral "[][]int") false
                                    [VSlice (TLiteral "[]int") false
                                       [VScalar (TBasic "int") KInt "1"]])) 2 2 = Ok v
    /\ Name v = "xs"
    /\ (forall e, In e (ArrayElements v) -> is_terminal e).
Proof.
  eexists. split; [reflexivity |].
  destruct (X5_capture_node "xs"
              (VPointer (TPointer (TLiteral "[][]int"))
                 (VSlice (TLiteral "[][]int") false
                    [VSlice (TLiteral "[]int") false
                       [VScalar (TBasic "int") KInt "1"]])) 2 2 _ eq_refl)
    as (N & T).
  split; [exact N | exact (proj1 (T eq_refl))].
Defined.

Lemma removelast_length {A} (l : list A) :
  List.length (List.removelast l) = Nat.pred (List.length l).
Proof.
  rewrite removelast_firstn_len, length_firstn. lia.
Qed.

Lemma In_firstn_skipn {A} (skip size : nat) (l : list A) (x : A) :
  In x (List.firstn size (List.skipn skip l)) -> In x l.
Proof.
  intros H. rewrite <- (firstn_skipn skip l). apply in_or_app. right.
  rewrite <- (firstn_skipn size (List.skipn skip l)). apply in_or_app. left. exact H.
Qed.

(** X6.  The stack sampler [captureStackTrace]: of the at most 50 frames
    it records it leaves out the last one and those of functions of the
    runtime, and converts the others in their order; it returns at most 49
    frames, each of a frame of the stack whose function is not of the
    runtime; and a stack with at most one frame beyond the skipped ones
    gives the empty trace. *)
Theorem X6_stack_sampler (skip : nat) (stack : list Frame) :
  let recorded := Callers skip 50 stack in
  let kept := List.filter (fun f => negb (HasPrefix (Function f) "runtime."))
                (List.removelast recorded) in
  captureStackTrace skip stack = List.map stackFrameOf kept
  /\ (List.length (captureStackTrace skip stack) <= 49)%nat
  /\ (forall f, In f (captureStackTrace skip stack) ->
        exists frame, In frame stack /\ f = stackFrameOf frame
          /\ HasPrefix (Function frame) "runtime." = false)
  /\ ((List.length stack <= skip + 1)%nat -> captureStackTrace skip stack = []).
Proof.
  intros recorded kept.
  assert (E : captureStackTrace skip stack = List.map stackFrameOf kept).
  { unfold captureStackTrace. rewrite sampleLoop_spec; [reflexivity |].
    unfold Callers. pose proof (firstn_le_length 50 (List.skipn skip stack)).
    cbn [List.length Nat.add]. lia. }
  assert (R : (List.length recorded <= 50)%nat).
  { unfold recorded, Callers. rewrite length_firstn. lia. }
  split; [exact E |]. split; [| split].
  - rewrite E, length_map. unfold kept.
    pose proof (List.filter_length_le
                  (fun f => negb (HasPrefix (Function f) "runtime."))
                  (List.removelast recorded)) as Lf.
    rewrite removelast_length in Lf. lia.
  - intros f Hf. rewrite E in Hf. apply in_map_iff in Hf.
    destruct Hf as (frame & <- & Hk).
    unfold kept in Hk. apply List.filter_In in Hk. destruct Hk as [Hin Hp].
    exists frame. split; [| split; [reflexivity |]].
    + apply (In_firstn_skipn skip 50). fold (Callers skip 50 stack). fold recorded.
      destruct recorded as [| r rs] eqn:Er; [destruct Hin |].
      rewrite (app_removelast_last r (l := r :: rs)) by discriminate.
      apply in_or_app. left. exact Hin.
    + apply negb_true_iff in Hp. exact Hp.
  - intros Hl. rewrite E. unfold kept.
    assert (List.length recorded <= 1)%nat.
    { unfold recorded, Callers. rewrite length_firstn, length_skipn. lia. }
    destruct recorded as [| r [| r' rs]]; simpl in *; try reflexivity; lia.
Qed.

(** X6 on a stack of two frames with one skipped. *)
Lemma X6_stack_sampler_witness :
  (List.length [mkFrame "main.handler" "/app/handler.go" 12;
                mkFrame "main.main" "/app/main.go" 30] <= 1 + 1)%nat
  /\ captureStackTrace 1 [mkFrame "main.handler" "/app/handler.go" 12;
                          mkFrame "main.main" "/app/main.go" 30] = [].
Proof.
  split; [simpl; lia |].
  apply (X6_stack_sampler 1 [mkFrame "main.handler" "/app/handler.go" 12;
                             mkFrame "main.main" "/app/main.go" 30]).
  simpl; lia.
Defined.

(** ** Strings cut at a separator of one byte *)

Lemma prefix_one (c x : ascii) (s : string) :
  String.prefix (String c "") (String x s) = Ascii.eqb x c.
Proof.
  simpl. destruct (ascii_dec c x) as [-> | Hne].
  - rewrite Ascii.eqb_refl. destruct s; reflexivity.
  - symmetry. apply Ascii.eqb_neq. congruence.
Qed.

Lemma Contains_cons (c x : ascii) (s : string) :
  Contains (String x s) (String c "")
  = Ascii.eqb x c || Contains s (String c "").
Proof.
  unfold Contains.
  change (String.index 0 (String c "") (String x s))
    with (if String.prefix (String c "") (String x s) then Some 0%nat
          else match String.index 0 (String c "") s with
               | Some n => Some (S n)
               | None => None
               end).
  rewrite prefix_one. destruct (Ascii.eqb x c); [reflexivity |].
  destruct (String.index 0 (String c "") s); reflexivity.
Qed.

Lemma Contains_app (c : ascii) (a b : string) :
  Contains (a ++ b) (String c "")
  = Contains a (String c "") || Contains b (String c "").
Proof.
  induction a as [| x a IH].
  - reflexivity.
  - change (String x a ++ b) with (String x (a ++ b)).
    rewrite !Contains_cons, IH, orb_assoc. reflexivity.
Qed.

Lemma Contains_split (c : ascii) (s : string) :
  Contains s (String c "") = true ->
  exists a b, s = a ++ String c b /\ Contains b (String c "") = false.
Proof.
  induction s as [| x s IH]; intros H; [discriminate |].
  rewrite Contains_cons in H.
  destruct (Contains s (String c "")) eqn:E.
  - destruct (IH eq_refl) as (a & b & -> & Hb). exists (String x a), b.
    split; [reflexivity | exact Hb].
  - rewrite orb_false_r in H. apply Ascii.eqb_eq in H. subst x.
    exists "", s. split; [reflexivity | exact E].
Qed.

Lemma length_append (a b : string) :
  String.length (a ++ b) = (String.length a + String.length b)%nat.
Proof. induction a as [| x a IH]; simpl; [reflexivity | rewrite IH; reflexivity]. Qed.

Lemma substring_whole (s : string) : substring 0 (String.length s) s = s.
Proof. induction s as [| x s IH]; simpl; [reflexivity | rewrite IH; reflexivity]. Qed.

Lemma substring_tail (a b : string) :
  substring (String.length a) (String.length b) (a ++ b) = b.
Proof. induction a as [| x a IH]; simpl; [apply substring_whole | exact IH]. Qed.

Lemma substring_head (a b : string) :
  substring 0 (String.length a) (a ++ b) = a.
Proof.
  induction a as [| x a IH]; simpl; [destruct b; reflexivity | rewrite IH; reflexivity].
Qed.

Lemma slice_from_tail (a b : string) : slice_from (a ++ b) (len_s a) = b.
Proof.
  unfold slice_from, len_s. rewrite Nat2Z.id, length_append.
  replace (String.length a + String.length b - String.length a)%nat
    with (String.length b) by lia.
  apply substring_tail.
Qed.

Lemma slice_to_head (a b : string) : slice_to (a ++ b) (len_s a) = a.
Proof. unfold slice_to, len_s. rewrite Nat2Z.id. apply substring_head. Qed.

Lemma LastIndexFrom_absent (c : ascii) (s : string) :
  Contains s (String c "") = false ->
  forall i best, LastIndexFrom s (String c "") i best = best.
Proof.
  induction s as [| x s IH]; intros H i best; [reflexivity |].
  rewrite Contains_cons in H. apply orb_false_iff in H. destruct H as [Hx Hs].
  change (LastIndexFrom (String x s) (String c "") i best)
    with (LastIndexFrom s (String c "") (i + 1)
            (if String.prefix (String c "") (String x s) then i else best)).
  rewrite prefix_one, Hx. apply (IH Hs).
Qed.

Lemma LastIndexFrom_last (c : ascii) (a b : string) :
  Contains b (String c "") = false ->
  forall i best, LastIndexFrom (a ++ String c b) (String c "") i best = i + len_s a.
Proof.
  intros Hb. induction a as [| x a IH]; intros i best.
  - change ("" ++ String c b) with (String c b).
    change (LastIndexFrom (String c b) (String c "") i best)
      with (LastIndexFrom b (String c "") (i + 1)
              (if String.prefix (String c "") (String c b) then i else best)).
    rewrite prefix_one, Ascii.eqb_refl, (LastIndexFrom_absent _ _ Hb).
    unfold len_s. simpl. lia.
  - change (String x a ++ String c b) with (String x (a ++ String c b)).
    change (LastIndexFrom (String x (a ++ String c b)) (String c "") i best)
      with (LastIndexFrom (a ++ String c b) (String c "") (i + 1)
              (if String.prefix (String c "") (String x (a ++ String c b))
               then i else best)).
    rewrite IH. unfold len_s. simpl String.length. lia.
Qed.

Lemma Index_absent (c : ascii) (s : string) :
  Contains s (String c "") = false -> Index s (String c "") = -1.
Proof.
  unfold Contains, Index. destruct (String.index 0 (String c "") s);
    [discriminate | reflexivity].
Qed.

Lemma Index_first (c : ascii) (a b : string) :
  Contains a (String c "") = false ->
  Index (a ++ String c b) (String c "") = len_s a.
Proof.
  unfold Index, len_s. induction a as [| x a IH]; intros Ha.
  - change ("" ++ String c b) with (String c b).
    change (String.index 0 (String c "") (String c b))
      with (if String.prefix (String c "") (String c b) then Some 0%nat
            else match String.index 0 (String c "") b with
                 | Some n => Some (S n)
                 | None => None
                 end).
    rewrite prefix_one, Ascii.eqb_refl. reflexivity.
  - rewrite Contains_cons in Ha. apply orb_false_iff in Ha. destruct Ha as [Hx Ha].
    change (String x a ++ String c b) with (String x (a ++ String c b)).
    change (String.index 0 (String c "") (String x (a ++ String c b)))
      with (if String.prefix (String c "") (String x (a ++ String c b)) then Some 0%nat
            else match String.index 0 (String c "") (a ++ String c b) with
                 | Some n => Some (S n)
                 | None => None
                 end).
    rewrite prefix_one, Hx. specialize (IH Ha).
    destruct (String.index 0 (String c "") (a ++ String c b)) as [n |].
    + simpl String.length. lia.
    + pose proof (Nat2Z.is_nonneg (String.length a)). lia.
Qed.

Lemma Split_nonempty (s : string) (c : ascii) : Split s c <> [].
Proof.
  destruct s as [| x s]; simpl; [discriminate |].
  destruct (Ascii.eqb x c); [discriminate |].
  destruct (Split s c); discriminate.
Qed.

Lemma Split_absent (c : ascii) (s : string) :
  Contains s (String c "") = false -> Split s c = [s].
Proof.
  induction s as [| x s IH]; intros H; [reflexivity |].
  rewrite Contains_cons in H. apply orb_false_iff in H. destruct H as [Hx Hs].
  simpl. rewrite Hx, (IH Hs). reflexivity.
Qed.

Lemma Split_app (c : ascii) (a b : string) :
  Split (a ++ String c b) c = (Split a c ++ Split b c)%list.
Proof.
  induction a as [| x a IH].
  - simpl. rewrite Ascii.eqb_refl. reflexivity.
  - change (String x a ++ String c b) with (String x (a ++ String c b)).
    simpl. rewrite IH. destruct (Ascii.eqb x c); [reflexivity |].
    pose proof (Split_nonempty a c) as Hn.
    destruct (Split a c) as [| p ps]; [congruence | reflexivity].
Qed.

Lemma last_app_nonempty {A} (l l' : list A) (d : A) :
  l' <> [] -> List.last (l ++ l')%list d = List.last l' d.
Proof.
  intros Hn. induction l as [| x l IH]; [reflexivity |].
  simpl. destruct (l ++ l')%list eqn:E; [| exact IH].
  apply app_eq_nil in E. destruct E; congruence.
Qed.

Lemma extractFileName_cut (dir base : string) :
  Contains base "/" = false -> extractFileName (dir ++ "/" ++ base) = base.
Proof.
  intros Hb. unfold extractFileName, LastIndex.
  change (dir ++ "/" ++ base) with (dir ++ String "/" base).
  rewrite (LastIndexFrom_last _ _ _ Hb).
  assert (P : (0 + len_s dir >=? 0) = true).
  { apply Z.geb_le. unfold len_s. lia. }
  rewrite P.
  change (dir ++ String "/" base) with (dir ++ ("/" ++ base)).
  rewrite <- append_assoc.
  replace (0 + len_s dir + 1) with (len_s (dir ++ "/"))
    by (unfold len_s; rewrite length_append; simpl; lia).
  apply slice_from_tail.
Qed.

Lemma extractFileName_plain (path : string) :
  Contains path "/" = false -> extractFileName path = path.
Proof.
  intros H. unfold extractFileName, LastIndex.
  rewrite (LastIndexFrom_absent _ _ H). reflexivity.
Qed.

(** X7.  [extractFileName] returns the part of the path after its last
    slash: the result holds no slash and is a suffix of the path; a path
    without a slash is returned as it is; and for a path [dir/base] whose
    [base] holds no slash the result is [base] (the empty string when the
    path ends in a slash). *)
Theorem X7_file_name (path : string) :
  Contains (extractFileName path) "/" = false
  /\ (exists dir, path = dir ++ extractFileName path)
  /\ (Contains path "/" = false -> extractFileName path = path)
  /\ (forall dir base, path = dir ++ "/" ++ base -> Contains base "/" = false ->
        extractFileName path = base).
Proof.
  assert (C : (Contains path "/" = false /\ extractFileName path = path)
              \/ exists dir base, path = dir ++ "/" ++ base
                   /\ Contains base "/" = false /\ extractFileName path = base).
  { destruct (Contains path "/") eqn:E.
    - right. destruct (Contains_split _ _ E) as (a & b & -> & Hb).
      exists a, b. repeat split; [exact Hb | apply (extractFileName_cut _ _ Hb)].
    - left. split; [reflexivity | apply (extractFileName_plain _ E)]. }
  repeat split.
  - destruct C as [[H ->] | (dir & base & _ & H & ->)]; exact H.
  - destruct C as [[_ ->] | (dir & base & -> & _ & E)].
    + exists "". reflexivity.
    + rewrite E. exists (dir ++ "/"). rewrite append_assoc. reflexivity.
  - apply extractFileName_plain.
  - intros dir base -> Hb. apply (extractFileName_cut _ _ Hb).
Qed.

(** X7 on an absolute path and on a path that ends in a slash. *)
Lemma X7_file_name_witness :
  Contains "orders.go" "/" = false
  /\ extractFileName "/app/internal/orders.go" = "orders.go"
  /\ extractFileName "/app/internal/" = "".
Proof.
  split; [reflexivity |]. split.
  - apply (proj2 (proj2 (proj2 (X7_file_name "/app/internal/orders.go")))
             "/app/internal" "orders.go"); reflexivity.
  - apply (proj2 (proj2 (proj2 (X7_file_name "/app/internal/")))
             "/app/internal" ""); reflexivity.
Defined.

Lemma extractFunctionName_last (q fn : string) :
  Contains fn "." = false -> Contains fn "/" = false ->
  extractFunctionName (q ++ "." ++ fn) = fn.
Proof.
  intros Hdot Hslash.
  assert (L : exists q', List.last (Split (q ++ "." ++ fn) "/") "" = q' ++ "." ++ fn).
  { destruct (Contains q "/") eqn:E.
    - destruct (Contains_split _ _ E) as (a & b & -> & Hb).
      exists b. rewrite append_assoc.
      change (String "/" b ++ "." ++ fn) with (String "/" (b ++ "." ++ fn)).
      rewrite Split_app, last_app_nonempty by apply Split_nonempty.
      rewrite Split_absent; [reflexivity |].
      rewrite Contains_app, Hb.
      change ("." ++ fn) with (String "." fn). rewrite Contains_cons, Hslash.
      reflexivity.
    - exists q. rewrite Split_absent; [reflexivity |].
      rewrite Contains_app, E.
      change ("." ++ fn) with (String "." fn). rewrite Contains_cons, Hslash.
      reflexivity. }
  destruct L as (q' & L). unfold extractFunctionName, last_or.
  assert (P : (len (Split (q ++ "." ++ fn) "/") >? 0) = true).
  { apply Z.gtb_lt. pose proof (Split_nonempty (q ++ "." ++ fn) "/").
    destruct (Split (q ++ "." ++ fn) "/"); [congruence | unfold len; simpl; lia]. }
  rewrite P, L.
  change (q' ++ "." ++ fn) with (q' ++ String "." fn).
  rewrite Split_app, (Split_absent _ _ Hdot).
  assert (P' : (len (Split q' "." ++ [fn])%list >? 1) = true).
  { apply Z.gtb_lt. pose proof (Split_nonempty q' ".").
    unfold len. rewrite length_app. destruct (Split q' "."); [congruence |].
    simpl. lia. }
  rewrite P'. apply last_last.
Qed.

Lemma extractPackageName_tail (pkg rest : string) :
  Contains pkg "." = false -> Contains pkg "/" = false -> Contains rest "/" = false ->
  Contains (pkg ++ "." ++ rest) "/" = false
  /\ extractPackageName (pkg ++ "." ++ rest) = pkg.
Proof.
  intros Hdot Hslash Hrest.
  assert (S : Contains (pkg ++ "." ++ rest) "/" = false).
  { rewrite Contains_app, Hslash. change ("." ++ rest) with (String "." rest).
    rewrite Contains_cons, Hrest. reflexivity. }
  split; [exact S |]. unfold extractPackageName, LastIndex.
  rewrite (LastIndexFrom_absent _ _ S). cbn [Z.geb Z.compare].
  change ("." ++ rest) with (String "." rest).
  rewrite (Index_first _ _ _ Hdot).
  assert (P : (len_s pkg >=? 0) = true) by (apply Z.geb_le; unfold len_s; lia).
  rewrite P. apply slice_to_head.
Qed.

(** X8.  [extractFunctionName] returns what follows the last dot of a
    qualified name, when that part holds no dot and no slash;
    [extractPackageName] returns what lies between the last slash and the
    first dot after it; a name without dots and slashes is returned as it is
    by both. *)
Theorem X8_function_and_package :
  (forall q fn, Contains fn "." = false -> Contains fn "/" = false ->
     extractFunctionName (q ++ "." ++ fn) = fn)
  /\ (forall dir pkg rest,
        Contains pkg "." = false -> Contains pkg "/" = false ->
        Contains rest "/" = false ->
        extractPackageName (dir ++ "/" ++ pkg ++ "." ++ rest) = pkg
        /\ extractPackageName (pkg ++ "." ++ rest) = pkg)
  /\ (forall name, Contains name "." = false -> Contains name "/" = false ->
        extractFunctionName name = name /\ extractPackageName name = name).
Proof.
  split; [exact extractFunctionName_last |]. split.
  - intros dir pkg rest Hdot Hslash Hrest.
    destruct (extractPackageName_tail _ _ Hdot Hslash Hrest) as [S E].
    split; [| exact E].
    unfold extractPackageName at 1. unfold LastIndex.
    change (dir ++ "/" ++ pkg ++ "." ++ rest)
      with (dir ++ String "/" (pkg ++ "." ++ rest)).
    rewrite (LastIndexFrom_last _ _ _ S).
    assert (P : (0 + len_s dir >=? 0) = true) by (apply Z.geb_le; unfold len_s; lia).
    rewrite P.
    change (dir ++ String "/" (pkg ++ "." ++ rest))
      with (dir ++ ("/" ++ (pkg ++ "." ++ rest))).
    rewrite <- append_assoc.
    replace (0 + len_s dir + 1) with (len_s (dir ++ "/"))
      by (unfold len_s; rewrite length_append; simpl; lia).
    rewrite slice_from_tail.
    unfold extractPackageName, LastIndex in E.
    rewrite (LastIndexFrom_absent _ _ S) in E. exact E.
  - intros name Hdot Hslash. split.
    + unfold extractFunctionName, last_or.
      rewrite (Split_absent _ _ Hslash). cbn [len List.length Z.of_nat Z.gtb Z.compare
        List.last]. simpl. rewrite (Split_absent _ _ Hdot). reflexivity.
    + unfold extractPackageName, LastIndex.
      rewrite (LastIndexFrom_absent _ _ Hslash). cbn [Z.geb Z.compare].
      rewrite (Index_absent _ _ Hdot). reflexivity.
Qed.

(** X8 on the name of a method of a package with an import path. *)
Lemma X8_function_and_package_witness :
  extractFunctionName "github.com/acme/shop/orders.Store.Fetch" = "Fetch"
  /\ extractPackageName "github.com/acme/shop/orders.Store.Fetch" = "orders"
  /\ extractFunctionName "main" = "main".
Proof.
  split; [| split].
  - apply (proj1 X8_function_and_package "github.com/acme/shop/orders.Store" "Fetch");
      reflexivity.
  - apply (proj1 (proj2 X8_function_and_package) "github.com/acme/shop" "orders"
             "Store.Fetch"); reflexivity.
  - apply (proj2 (proj2 X8_function_and_package) "main"); reflexivity.
Defined.

(** ** The fields of an error, the chain of wrapped errors *)

Lemma errorFieldsLoop_shape (maxDepth : Z) (fields : list (string * bool * GoValue)) :
  forall i vars out,
    errorFieldsLoop fields i vars maxDepth = Ok out ->
    forall k,
      (out !! k = vars !! k
       /\ forall (j : nat) name fv, fields !! j = Some (name, true, fv) ->
            k = "err." ++ name -> 50 <= i + Z.of_nat j)
      \/ (exists (j : nat) name fv c,
            fields !! j = Some (name, true, fv) /\ k = "err." ++ name
            /\ i + Z.of_nat j < 50
            /\ captureValue k fv 0 maxDepth = Ok c /\ out !! k = Some c).
Proof.
  induction fields as [| [[key exported] val] rest IH]; intros i vars out H k;
    simpl in H.
  - inversion H; subst. left.
    split; [reflexivity | intros j name fv Hj; destruct j; discriminate].
  - destruct (i <? 50) eqn:E.
    + apply Z.ltb_lt in E. destruct exported; simpl in H.
      * destruct (captureValue ("err." ++ key) val 0 maxDepth) as [c0 |] eqn:C;
          simpl in H; [| discriminate].
        destruct (IH _ _ _ H k) as [[L N] | (j & name & fv & c & Hj & Hk & Hb & Cj & Lj)].
        -- destruct (decide ("err." ++ key = k)) as [Heq | Hne].
           ++ right. exists 0%nat, key, val, c0. rewrite Heq in L, C.
              rewrite lookup_insert_eq in L.
              repeat split; try assumption; try reflexivity; try lia.
              symmetry; exact Heq.
           ++ left. rewrite lookup_insert_ne in L by exact Hne. split; [exact L |].
              intros [| j] name fv Hj Hk; simpl in Hj.
              ** inversion Hj; subst. congruence.
              ** specialize (N j name fv Hj Hk). lia.
        -- right. exists (S j), name, fv, c. repeat split; try assumption; lia.
      * destruct (IH _ _ _ H k) as [[L N] | (j & name & fv & c & Hj & Hk & Hb & Cj & Lj)].
        -- left. split; [exact L |].
           intros [| j] name fv Hj Hk; simpl in Hj; [inversion Hj |].
           specialize (N j name fv Hj Hk). lia.
        -- right. exists (S j), name, fv, c. repeat split; try assumption; lia.
    + apply Z.ltb_ge in E. inversion H; subst. left.
      split; [reflexivity | intros j name fv Hj Hk; lia].
Qed.

Lemma err_prefix (name : string) : HasPrefix ("err." ++ name) "err." = true.
Proof. unfold HasPrefix. destruct name; reflexivity. Qed.

(** The fields that [extractErrorFields] walks: those of the struct behind
    the error, or behind the pointer it is. *)
Lemma extractErrorFields_cases (err : option GoError) (vars : gmap string Variable_)
  (maxDepth : Z) :
  (extractErrorFields err vars maxDepth = Ok vars
   /\ (forall t fields, ValueOf err <> VStruct t fields)
   /\ (forall p t fields, ValueOf err <> VPointer p (VStruct t fields)))
  \/ exists t fields,
       (ValueOf err = VStruct t fields
        \/ exists p, ValueOf err = VPointer p (VStruct t fields))
       /\ extractErrorFields err vars maxDepth = errorFieldsLoop fields 0 vars maxDepth.
Proof.
  unfold extractErrorFields.
  destruct (ValueOf err) as [| | | | p elem | | |t fields] eqn:V;
    try (left; split; [reflexivity | split; intros; discriminate]).
  - destruct elem as [| | | | | | | t fields];
      try (left; split; [reflexivity | split; intros; discriminate]).
    right. exists t, fields. split; [right; exists p; reflexivity | reflexivity].
  - right. exists t, fields. split; [left; reflexivity | reflexivity].
Qed.

Lemma extractErrorFields_frame (err : option GoError) (vars vars' : gmap string Variable_)
  (maxDepth : Z) :
  extractErrorFields err vars maxDepth = Ok vars' ->
  (forall k, HasPrefix k "err." = false -> vars' !! k = vars !! k)
  /\ (forall k, is_Some (vars !! k) -> is_Some (vars' !! k)).
Proof.
  intros H.
  destruct (extractErrorFields_cases err vars maxDepth)
    as [[E _] | (t & fields & _ & E)]; rewrite E in H.
  - inversion H; subst. split; [reflexivity | tauto].
  - pose proof (errorFieldsLoop_shape _ _ _ _ _ H) as K. split; intros k Hk.
    + destruct (K k) as [[L _] | (j & name & fv & c & _ & -> & _)]; [exact L |].
      rewrite err_prefix in Hk. discriminate.
    + destruct (K k) as [[L _] | (j & name & fv & c & _ & _ & _ & _ & L)].
      * rewrite L. exact Hk.
      * rewrite L. eexists; reflexivity.
Qed.

(** X9.  [extractErrorFields] only adds: it changes no variable whose name
    does not start with [err.] and removes none.  When the error is a
    struct, or a pointer to one, each exported field among the first 50 has
    a variable [err.<field>] that bears this name, and every variable that
    was not there before is the capture at depth 0 of such a field.  For any
    other error (nil, a nil pointer, not a struct) nothing changes. *)
Theorem X9_error_fields (err : option GoError) (vars : gmap string Variable_)
  (maxDepth : Z) :
  (forall vars', extractErrorFields err vars maxDepth = Ok vars' ->
     (forall k, HasPrefix k "err." = false -> vars' !! k = vars !! k)
     /\ (forall k, is_Some (vars !! k) -> is_Some (vars' !! k)))
  /\ (forall t fields vars',
        ValueOf err = VStruct t fields
        \/ (exists p, ValueOf err = VPointer p (VStruct t fields)) ->
        extractErrorFields err vars maxDepth = Ok vars' ->
        (forall (j : nat) name fv, (j < 50)%nat ->
           fields !! j = Some (name, true, fv) ->
           exists c, vars' !! ("err." ++ name) = Some c /\ Name c = "err." ++ name)
        /\ (forall k c, vars' !! k = Some c ->
              vars !! k = Some c
              \/ exists (j : nat) name fv, (j < 50)%nat
                   /\ fields !! j = Some (name, true, fv) /\ k = "err." ++ name
                   /\ captureValue k fv 0 maxDepth = Ok c))
  /\ ((forall t fields, ValueOf err <> VStruct t fields) ->
      (forall p t fields, ValueOf err <> VPointer p (VStruct t fields)) ->
      extractErrorFields err vars maxDepth = Ok vars).
Proof.
  split; [intros vars'; apply extractErrorFields_frame |]. split.
  - intros t fields vars' Hshape H.
    assert (E : extractErrorFields err vars maxDepth
                = errorFieldsLoop fields 0 vars maxDepth).
    { unfold extractErrorFields.
      destruct Hshape as [-> | [p ->]]; reflexivity. }
    rewrite E in H. pose proof (errorFieldsLoop_shape _ _ _ _ _ H) as K. split.
    + intros j name fv Hlt Hj.
      destruct (K ("err." ++ name))
        as [[_ N] | (j' & name' & fv' & c & _ & _ & _ & C & L)].
      * specialize (N j name fv Hj eq_refl). lia.
      * exists c. split; [exact L | apply (captureValue_Name _ _ _ _ _ C)].
    + intros k c Hc.
      destruct (K k) as [[L _] | (j & name & fv & c' & Hj & Hk & Hb & C & L)].
      * left. rewrite <- L. exact Hc.
      * right. rewrite L in Hc. inversion Hc; subst c'. exists j, name, fv.
        repeat split; try assumption. lia.
  - intros N1 N2.
    destruct (extractErrorFields_cases err vars maxDepth)
      as [[E _] | (t & fields & [V | [p V]] & _)]; [exact E | |].
    + destruct (N1 _ _ V).
    + destruct (N2 _ _ _ V).
Qed.

(** X9 on the order error and on an error without exported fields. *)
Lemma X9_error_fields_witness :
  exists vars',
    extractErrorFields (Some (order_not_found "main")) ∅ 10 = Ok vars'
    /\ (exists c, vars' !! "err.OrderID" = Some c /\ Name c = "err.OrderID")
    /\ extractErrorFields (Some plain_error) vars' 10 = Ok vars'.
Proof.
  eexists. split; [reflexivity |]. split.
  - apply (proj1 (proj1 (proj2 (X9_error_fields (Some (order_not_found "main")) ∅ 10))
                    (TDefined "main" "OrderNotFoundError")
                    [("OrderID", true, VString (TBasic "string") "A-17")] _
                    (or_intror (ex_intro _ _ eq_refl)) eq_refl)
             0%nat "OrderID" (VString (TBasic "string") "A-17")); [lia | reflexivity].
  - reflexivity.
Defined.

Lemma wrappedErrorsLoop_shape (errors : list (option GoError)) :
  forall i elements out,
    wrappedErrorsLoop errors i elements = Ok out ->
    exists outs, out = (elements ++ outs)%list
      /\ len outs = Z.min (len errors) (Z.max 0 (10 - i))
      /\ forall (j : nat) el, outs !! j = Some el ->
           exists ej msg, errors !! j = Some (Some ej) /\ Error ej = Ok msg
             /\ el = leaf ("[" ++ fmt_d (i + Z.of_nat j) ++ "]")
                       (getErrorType (Some ej)) msg false false.
Proof.
  induction errors as [| e rest IH]; intros i elements out H; simpl in H.
  - inversion H; subst. exists []. rewrite app_nil_r.
    repeat split; [unfold len; simpl; lia | intros j el Hj; destruct j; discriminate].
  - destruct (i >=? 10) eqn:E.
    + apply Z.geb_le in E. inversion H; subst. exists []. rewrite app_nil_r.
      repeat split; [unfold len; simpl; lia | intros j el Hj; destruct j; discriminate].
    + rewrite Z.geb_leb in E. apply Z.leb_gt in E.
      destruct e as [ej |]; simpl in H; [| discriminate].
      destruct (Error ej) as [msg |] eqn:M; simpl in H; [| discriminate].
      destruct (IH _ _ _ H) as (outs & -> & L & P).
      exists (leaf ("[" ++ fmt_d i ++ "]") (getErrorType (Some ej)) msg
                false false :: outs).
      rewrite <- app_assoc. split; [reflexivity |].
      split; [unfold len in *; simpl length; lia |].
      intros [| j] el Hj; simpl in Hj.
      * inversion Hj; subst. exists ej, msg. split; [reflexivity |].
        split; [exact M |]. replace (i + Z.of_nat 0) with i by lia. reflexivity.
      * destruct (P j el Hj) as (ej' & msg' & Hj' & M' & ->). exists ej', msg'.
        split; [exact Hj' |]. split; [exact M' |].
        replace (i + Z.of_nat (S j)) with (i + 1 + Z.of_nat j) by lia. reflexivity.
Qed.

Lemma unwrapStep_shape (e : GoError) (vars vars' : gmap string Variable_)
  (maxDepth : Z) :
  unwrapStep (Some e) vars maxDepth = Ok vars' ->
  (forall k, HasPrefix k "err." = false -> k <> "wrapped_error" ->
     vars' !! k = vars !! k)
  /\ (forall inner, Unwrap e = UnwrapOne (Ok (Some inner)) ->
        exists msg, Error inner = Ok msg
          /\ vars' !! "wrapped_error"
             = Some (leaf "wrapped_error" (getErrorType (Some inner)) msg false false)).
Proof.
  unfold unwrapStep. simpl. intros H.
  destruct (Unwrap e) as [| [[inner |] |] | call]; simpl in H;
    try (inversion H; subst; split; [reflexivity | discriminate]);
    try (unfold mbind, result_bind in H; discriminate).
  destruct (Error inner) as [msg |] eqn:M; simpl in H; [| discriminate].
  destruct (extractErrorFields_frame _ _ _ _ H) as [F _]. split.
  - intros k Hp Hk. rewrite (F k Hp). apply lookup_insert_ne. congruence.
  - intros inner' U. inversion U; subst inner'. exists msg. split; [exact M |].
    rewrite (F "wrapped_error" eq_refl). apply lookup_insert_eq.
Qed.

Lemma unwrapManyStep_shape (e : GoError) (vars vars' : gmap string Variable_) :
  unwrapManyStep (Some e) vars = Ok vars' ->
  (forall k, k <> "wrapped_errors" -> vars' !! k = vars !! k)
  /\ (forall errors, Unwrap e = UnwrapMany (Ok errors) -> errors <> [] ->
        exists w, vars' !! "wrapped_errors" = Some w
          /\ Type_ w = "[]error"
          /\ Value w = "[" ++ fmt_d (len errors) ++ " errors]"
          /\ ArrayLength w = Some (len errors)
          /\ len (ArrayElements w) = Z.min (len errors) 10
          /\ forall (j : nat) el, ArrayElements w !! j = Some el ->
               exists ej msg, errors !! j = Some (Some ej) /\ Error ej = Ok msg
                 /\ el = leaf ("[" ++ fmt_d (Z.of_nat j) ++ "]")
                           (getErrorType (Some ej)) msg false false).
Proof.
  unfold unwrapManyStep. simpl. intros H.
  destruct (Unwrap e) as [| call | [errors |]]; simpl in H;
    try (inversion H; subst; split; [reflexivity | discriminate]);
    try (unfold mbind, result_bind in H; discriminate).
  destruct (len errors >? 0) eqn:P.
  - destruct (wrappedErrorsLoop errors 0 []) as [elements |] eqn:L; simpl in H;
      [| discriminate].
    inversion H; subst vars'; clear H. split.
    + intros k Hk. apply lookup_insert_ne. congruence.
    + intros errors' U Hne. inversion U; subst errors'.
      rewrite lookup_insert_eq. eexists. split; [reflexivity |].
      cbn [Type_ Value ArrayLength ArrayElements].
      apply wrappedErrorsLoop_shape in L. destruct L as (outs & -> & Ln & Q).
      repeat split; try reflexivity.
      * simpl. rewrite Ln. lia.
      * intros j el Hj. simpl in Hj.
        destruct (Q j el Hj) as (ej & msg & Hej & M & ->).
        exists ej, msg. repeat split; assumption.
  - inversion H; subst. split; [reflexivity |].
    intros errors' U Hne. inversion U; subst errors'.
    rewrite Z.gtb_ltb in P. apply Z.ltb_ge in P.
    destruct errors; [congruence | unfold len in P; simpl in P; lia].
Qed.

Lemma causeStep_shape (e : GoError) (vars vars' : gmap string Variable_) :
  causeStep (Some e) vars = Ok vars' ->
  (forall k, k <> "cause" -> vars' !! k = vars !! k)
  /\ (forall cause, Cause e = Some (Ok (Some cause)) ->
        exists msg, Error cause = Ok msg
          /\ vars' !! "cause"
             = Some (leaf "cause" (getErrorType (Some cause)) msg false false)).
Proof.
  unfold causeStep. simpl. intros H.
  destruct (Cause e) as [[[cause |] |] |]; simpl in H;
    try (inversion H; subst; split; [reflexivity | discriminate]);
    try (unfold mbind, result_bind in H; discriminate).
  destruct (Error cause) as [msg |] eqn:M; simpl in H; [| discriminate].
  inversion H; subst vars'; clear H. split.
  - intros k Hk. apply lookup_insert_ne. congruence.
  - intros cause' C. inversion C; subst cause'. exists msg. split; [exact M |].
    apply lookup_insert_eq.
Qed.

Lemma extractWrappedErrors_shape (e : GoError) (vars vars' : gmap string Variable_)
  (maxDepth : Z) :
  extractWrappedErrors (Some e) vars maxDepth = Ok vars' ->
  (forall k, HasPrefix k "err." = false -> k <> "wrapped_error" ->
     k <> "wrapped_errors" -> k <> "cause" -> vars' !! k = vars !! k)
  /\ (forall inner, Unwrap e = UnwrapOne (Ok (Some inner)) ->
        exists msg, Error inner = Ok msg
          /\ vars' !! "wrapped_error"
             = Some (leaf "wrapped_error" (getErrorType (Some inner)) msg false false))
  /\ (forall errors, Unwrap e = UnwrapMany (Ok errors) -> errors <> [] ->
        exists w, vars' !! "wrapped_errors" = Some w
          /\ Type_ w = "[]error"
          /\ Value w = "[" ++ fmt_d (len errors) ++ " errors]"
          /\ ArrayLength w = Some (len errors)
          /\ len (ArrayElements w) = Z.min (len errors) 10
          /\ forall (j : nat) el, ArrayElements w !! j = Some el ->
               exists ej msg, errors !! j = Some (Some ej) /\ Error ej = Ok msg
                 /\ el = leaf ("[" ++ fmt_d (Z.of_nat j) ++ "]")
                           (getErrorType (Some ej)) msg false false)
  /\ (forall cause, Cause e = Some (Ok (Some cause)) ->
        exists msg, Error cause = Ok msg
          /\ vars' !! "cause"
             = Some (leaf "cause" (getErrorType (Some cause)) msg false false)).
Proof.
  unfold extractWrappedErrors. intros H.
  destruct (unwrapStep (Some e) vars maxDepth) as [vars1 |] eqn:E1; simpl in H;
    [| discriminate].
  destruct (unwrapManyStep (Some e) vars1) as [vars2 |] eqn:E2; simpl in H;
    [| discriminate].
  destruct (unwrapStep_shape _ _ _ _ E1) as [F1 W1].
  destruct (unwrapManyStep_shape _ _ _ E2) as [F2 W2].
  destruct (causeStep_shape _ _ _ H) as [F3 W3].
  split; [| split; [| split]].
  - intros k Hp K1 K2 K3. rewrite (F3 k K3), (F2 k K2). apply (F1 k Hp K1).
  - intros inner U. destruct (W1 inner U) as (msg & M & L). exists msg.
    split; [exact M |].
    rewrite (F3 "wrapped_error") by discriminate.
    rewrite (F2 "wrapped_error") by discriminate. exact L.
  - intros errors U Hne. destruct (W2 errors U Hne) as (w & L & R). exists w.
    split; [| exact R]. rewrite (F3 "wrapped_errors") by discriminate. exact L.
  - exact W3.
Qed.

(** X10.  [extractWrappedErrors], when it returns: it touches only the
    variables [wrapped_error], [wrapped_errors], [cause] and those named
    [err....]; a wrapped error is recorded under [wrapped_error] with its
    type and message; a multi-error is recorded under [wrapped_errors] with
    the true number of errors and the first ten of them as elements; a cause
    is recorded under [cause].  The chain is followed one level only: the
    result depends on the wrapped error through its dynamic value and its
    message alone, not on what it wraps in turn. *)
Theorem X10_wrapped_errors (e : GoError) (vars vars' : gmap string Variable_)
  (maxDepth : Z) :
  extractWrappedErrors (Some e) vars maxDepth = Ok vars' ->
  (forall k, HasPrefix k "err." = false -> k <> "wrapped_error" ->
     k <> "wrapped_errors" -> k <> "cause" -> vars' !! k = vars !! k)
  /\ (forall inner, Unwrap e = UnwrapOne (Ok (Some inner)) ->
        exists msg, Error inner = Ok msg
          /\ vars' !! "wrapped_error"
             = Some (leaf "wrapped_error" (getErrorType (Some inner)) msg false false))
  /\ (forall errors, Unwrap e = UnwrapMany (Ok errors) -> errors <> [] ->
        exists w, vars' !! "wrapped_errors" = Some w
          /\ Type_ w = "[]error"
          /\ Value w = "[" ++ fmt_d (len errors) ++ " errors]"
          /\ ArrayLength w = Some (len errors)
          /\ len (ArrayElements w) = Z.min (len errors) 10
          /\ forall (j : nat) el, ArrayElements w !! j = Some el ->
               exists ej msg, errors !! j = Some (Some ej) /\ Error ej = Ok msg
                 /\ el = leaf ("[" ++ fmt_d (Z.of_nat j) ++ "]")
                           (getErrorType (Some ej)) msg false false)
  /\ (forall cause, Cause e = Some (Ok (Some cause)) ->
        exists msg, Error cause = Ok msg
          /\ vars' !! "cause"
             = Some (leaf "cause" (getErrorType (Some cause)) msg false false))
  /\ (forall inner inner', Unwrap e = UnwrapOne (Ok (Some inner)) ->
        dyn inner' = dyn inner -> Error inner' = Error inner ->
        extractWrappedErrors
          (Some (mkError (dyn e) (Error e) (UnwrapOne (Ok (Some inner'))) (Cause e)))
          vars maxDepth
        = Ok vars').
Proof.
  intros H. destruct (extractWrappedErrors_shape _ _ _ _ H) as (F & W & M & C).
  split; [exact F |]. split; [exact W |]. split; [exact M |]. split; [exact C |].
  intros inner inner' U D E. rewrite <- H.
  unfold extractWrappedErrors, unwrapStep, unwrapManyStep, causeStep. simpl.
  rewrite U. simpl.
  unfold getErrorType, extractErrorFields, ValueOf. rewrite D, E. reflexivity.
Qed.

(** X10 on a joined error with two errors and a cause. *)
Lemma X10_wrapped_errors_witness :
  let joined := {| dyn := VPointer (TPointer (TDefined "errors" "joinError"))
                            (VStruct (TDefined "errors" "joinError")
                               [("errs", false, VNil)]);
                   Error := Ok "boom";
                   Unwrap := UnwrapMany
                               (Ok [Some plain_error; Some (order_not_found "main")]);
                   Cause := Some (Ok (Some plain_error)) |} in
  exists vars',
    extractWrappedErrors (Some joined) ∅ 10 = Ok vars'
    /\ (exists msg, Error plain_error = Ok msg
          /\ vars' !! "cause"
             = Some (leaf "cause" "errors.errorString" msg false false))
    /\ exists w, vars' !! "wrapped_errors" = Some w /\ Value w = "[2 errors]".
Proof.
  intros joined. eexists. split; [reflexivity |].
  destruct (X10_wrapped_errors joined ∅ _ 10 eq_refl) as (_ & _ & M & C & _).
  split.
  - apply (C plain_error). reflexivity.
  - destruct (M [Some plain_error; Some (order_not_found "main")] eq_refl
                ltac:(discriminate)) as (w & Hw & _ & V & _).
    exists w. split; [exact Hw | exact V].
Defined.

(** ** The local variables of a capture *)






End CaptureExtra.

(* ===================================================================== *)
(** * Further properties of package transport                              *)
(* ===================================================================== *)

Module TransportExtra.

Import Go Transport TransportLoop TransportSpec.
Local Open Scope Z_scope.

Lemma newest_short (l : list Message) :
  len l <= queueCapacity -> newest l = l.
Proof.
  unfold newest, len, queueCapacity. intros H.
  replace (List.length l - Z.to_nat 100)%nat with 0%nat by lia. reflexivity.
Qed.

Lemma newest_app (a b : list Message) :
  newest (newest a ++ b)%list = newest (a ++ b)%list.
Proof.
  unfold newest, queueCapacity.
  destruct (Nat.le_gt_cases (List.length a) (Z.to_nat 100)) as [Hle | Hgt].
  - replace (List.length a - Z.to_nat 100)%nat with 0%nat by lia. reflexivity.
  - rewrite length_app, length_skipn.
    rewrite !skipn_app, skipn_skipn, length_skipn, length_app.
    f_equal; f_equal; lia.
Qed.

Lemma send_newest (c : Connection) (msgType : string) (payload : Payload)
  (nowMilli : Z) :
  IsConnected c = true -> payload <> PUnencodable ->
  len (messageQueue c) <= queueCapacity ->
  send c msgType payload nowMilli
  = Returned (set_messageQueue c
                (newest (messageQueue c ++ [mkMessage msgType payload nowMilli])%list)).
Proof.
  unfold IsConnected. intros Hc Hp Hq. unfold send.
  assert (M : Marshal (mkMessage msgType payload nowMilli)
              = Some (mkMessage msgType payload nowMilli)).
  { unfold Marshal. simpl. destruct payload; congruence. }
  rewrite M, Hc.
  destruct (Z.lt_ge_cases (len (messageQueue c)) queueCapacity) as [Hlt | Hge].
  - rewrite trySend_room by exact Hlt.
    rewrite newest_short; [reflexivity |].
    rewrite len_app_one. lia.
  - rewrite trySend_full by exact Hge.
    destruct (messageQueue c) as [| oldest q] eqn:Q;
      [unfold len, queueCapacity in Hge; simpl in Hge; lia |].
    simpl tryRecv. cbv iota beta.
    assert (Lq : len q = queueCapacity - 1).
    { unfold len, queueCapacity in *. simpl length in *. lia. }
    rewrite trySend_room by lia. f_equal. f_equal.
    unfold newest. rewrite length_app. unfold len, queueCapacity in *.
    simpl length in *.
    replace (S (List.length q) + 1 - Z.to_nat 100)%nat with 1%nat by lia.
    reflexivity.
Qed.

Lemma sends_newest (msgs : list Message) :
  Forall (fun m => Payload_ m <> PUnencodable) msgs ->
  forall c, IsConnected c = true -> len (messageQueue c) <= queueCapacity ->
    sends c msgs = set_messageQueue c (newest (messageQueue c ++ msgs)%list).
Proof.
  induction 1 as [| m msgs Hm _ IH]; intros c Hc Hq.
  - simpl. rewrite app_nil_r, newest_short by exact Hq. destruct c; reflexivity.
  - unfold sends. simpl List.fold_left. fold (sends
      (after_send (send c (Type_ m) (Payload_ m) (Timestamp m))) msgs).
    rewrite (send_newest c _ _ _ Hc Hm Hq). simpl after_send.
    replace (mkMessage (Type_ m) (Payload_ m) (Timestamp m)) with m
      by (destruct m; reflexivity).
    rewrite IH.
    + simpl messageQueue. rewrite newest_app, <- app_assoc. reflexivity.
    + exact Hc.
    + simpl messageQueue. unfold newest, len, queueCapacity. rewrite length_skipn. lia.
Qed.

(** X12.  Calls of [send] one after the other on a connected and
    authenticated connection, with payloads that encode: the queue then
    holds the newest 100 messages of those it held and those sent, in their
    order; nothing is lost while they are at most 100, and 100 or more sends
    leave none of the old messages. *)
Theorem X12_queue_keeps_newest (c : Connection) (msgs : list Message) :
  IsConnected c = true -> len (messageQueue c) <= 100 ->
  Forall (fun m => Payload_ m <> PUnencodable) msgs ->
  sends c msgs = set_messageQueue c (newest (messageQueue c ++ msgs)%list)
  /\ len (messageQueue (sends c msgs)) = Z.min 100 (len (messageQueue c ++ msgs)%list)
  /\ (len (messageQueue c ++ msgs)%list <= 100 ->
      messageQueue (sends c msgs) = (messageQueue c ++ msgs)%list)
  /\ (100 <= len msgs -> messageQueue (sends c msgs) = newest msgs).
Proof.
  intros Hc Hq Hm. rewrite (sends_newest _ Hm c Hc Hq). simpl messageQueue.
  split; [reflexivity |]. split; [| split].
  - unfold newest, len, queueCapacity. rewrite length_skipn. lia.
  - intros H. apply newest_short. exact H.
  - intros H. unfold newest, queueCapacity, len in *.
    rewrite length_app, skipn_app.
    replace (List.length (messageQueue c) + List.length msgs - Z.to_nat 100
             - List.length (messageQueue c))%nat
      with (List.length msgs - Z.to_nat 100)%nat by lia.
    rewrite skipn_all2 by lia. reflexivity.
Qed.

(** X12 on a full queue and three more messages. *)
Lemma X12_queue_keeps_newest_witness :
  IsConnected full_connection = true
  /\ len (messageQueue full_connection) <= 100
  /\ messageQueue (sends full_connection (queued 100 3)) = queued 3 100.
Proof.
  split; [reflexivity |]. split; [vm_compute; discriminate |].
  destruct (X12_queue_keeps_newest full_connection (queued 100 3)) as (E & _).
  - reflexivity.
  - vm_compute; discriminate.
  - repeat constructor; discriminate.
  - rewrite E. reflexivity.
Defined.

(** ** The queue case of the main loop *)

Lemma queueCase_iter_writes (k : nat) :
  forall c, conn c <> None -> IsConnected c = true ->
    Nat.iter k queueCase c
    = set_messageQueue
        (mkConnection (url c) (apiKey c) (debug c) (conn c) (connected c)
           (authenticated c) (reconnectAttempts c) (maxReconnectAttempts c)
           (reconnectDelay c) (messageQueue c) (done c)
           (trace c ++ List.map EvWrite (List.firstn k (messageQueue c)))%list)
        (List.skipn k (messageQueue c)).
Proof.
  unfold IsConnected.
  induction k as [| k IH]; intros c Hs Hc.
  - simpl. rewrite app_nil_r. destruct c; reflexivity.
  - rewrite Nat.iter_succ_r.
    destruct c as [u a d s co au ra mra rd q dn tr]. simpl in Hs, Hc.
    destruct s as [sock |]; [| congruence].
    destruct q as [| m q].
    + unfold queueCase at 2. simpl. rewrite IH by (simpl; congruence || assumption).
      simpl. rewrite firstn_nil, skipn_nil. reflexivity.
    + unfold queueCase at 2. simpl. rewrite Hc. simpl.
      rewrite IH by (simpl; congruence || assumption).
      unfold set_messageQueue, emit. simpl. rewrite <- app_assoc. reflexivity.
Qed.

Lemma queueCase_iter_discards (k : nat) :
  forall c, conn c = None \/ IsConnected c = false ->
    Nat.iter k queueCase c = set_messageQueue c (List.skipn k (messageQueue c)).
Proof.
  unfold IsConnected.
  induction k as [| k IH]; intros c Hc.
  - simpl. destruct c; reflexivity.
  - rewrite Nat.iter_succ_r.
    destruct c as [u a d s co au ra mra rd q dn tr]. simpl in Hc.
    destruct q as [| m q].
    + unfold queueCase at 2. simpl. rewrite IH by (simpl; exact Hc).
      simpl. rewrite skipn_nil. reflexivity.
    + assert (G : (match s with Some _ => true | None => false end && co && au)
                  = false).
      { destruct Hc as [-> | Hc]; [reflexivity |].
        rewrite <- andb_assoc, Hc. apply andb_false_r. }
      unfold queueCase at 2. simpl. rewrite G.
      rewrite IH by (simpl; exact Hc). reflexivity.
Qed.

(** X13.  The queue case of the main loop takes the messages oldest
    first.  On a socket that is connected and authenticated it writes each
    of them, in the order they were sent; otherwise the messages it takes
    are dropped without a write.  So what is sent, while it fits the queue,
    is written in order once the loop has taken it all. *)
Theorem X13_queue_drain (c : Connection) (k : nat) :
  (conn c <> None -> IsConnected c = true ->
   trace (Nat.iter k queueCase c)
   = (trace c ++ List.map EvWrite (List.firstn k (messageQueue c)))%list
   /\ messageQueue (Nat.iter k queueCase c) = List.skipn k (messageQueue c))
  /\ (conn c = None \/ IsConnected c = false ->
      trace (Nat.iter k queueCase c) = trace c
      /\ messageQueue (Nat.iter k queueCase c) = List.skipn k (messageQueue c))
  /\ (forall msgs, conn c <> None -> IsConnected c = true ->
        Forall (fun m => Payload_ m <> PUnencodable) msgs ->
        len (messageQueue c ++ msgs)%list <= 100 ->
        k = List.length (messageQueue c ++ msgs)%list ->
        trace (Nat.iter k queueCase (sends c msgs))
        = (trace c ++ List.map EvWrite (messageQueue c ++ msgs))%list
        /\ messageQueue (Nat.iter k queueCase (sends c msgs)) = []).
Proof.
  split; [| split].
  - intros Hs Hc. rewrite (queueCase_iter_writes k c Hs Hc). split; reflexivity.
  - intros Hc. rewrite (queueCase_iter_discards k c Hc). split; reflexivity.
  - intros msgs Hs Hc Hm Hl ->.
    assert (Hq : len (messageQueue c) <= queueCapacity).
    { unfold len, queueCapacity in *. rewrite length_app in Hl. lia. }
    rewrite (sends_newest _ Hm c Hc Hq), newest_short by exact Hl.
    rewrite queueCase_iter_writes by (simpl; assumption).
    simpl. rewrite firstn_all, skipn_all. split; reflexivity.
Qed.

(** X13 on a full queue, with and without authentication. *)
Lemma X13_queue_drain_witness :
  let c := set_conn full_connection (Some 1%nat) in
  let stale := set_authenticated c false in
  (conn c <> None /\ IsConnected c = true
   /\ trace (Nat.iter 2 queueCase c)
      = [EvWrite (mkMessage "exception" PValue 0);
         EvWrite (mkMessage "exception" PValue 1)])
  /\ ((conn stale = None \/ IsConnected stale = false)
      /\ trace (Nat.iter 2 queueCase stale) = []
      /\ messageQueue (Nat.iter 2 queueCase stale) = queued 2 98).
Proof.
  intros c stale. split.
  - split; [discriminate |]. split; [reflexivity |].
    apply (proj1 (X13_queue_drain c 2)); [discriminate | reflexivity].
  - split; [right; reflexivity |].
    apply (proj1 (proj2 (X13_queue_drain stale 2))). right. reflexivity.
Defined.

(** ** Disconnect *)

(** X14.  [Disconnect], when it returns, came from an open [done]
    channel and leaves it closed, with no socket (closed when there was
    one) and both flags cleared; the queue keeps its messages, which are
    never written: later calls of [send] change nothing, the queue case
    writes nothing and [Connect] returns at once.  A second [Disconnect]
    panics, also the one that [handleError] makes for a fatal code. *)
Theorem X14_disconnect_once (c c' : Connection) :
  Disconnect c = Ok c' ->
  done c = false /\ done c' = true
  /\ conn c' = None /\ IsConnected c' = false
  /\ messageQueue c' = messageQueue c
  /\ trace c' = (trace c ++ match conn c with Some _ => [EvClose] | None => [] end)%list
  /\ (exists msg, Disconnect c' = Panic msg)
  /\ (forall msgType payload nowMilli,
        send c' msgType payload nowMilli = Returned c')
  /\ (forall k, trace (Nat.iter k queueCase c') = trace c')
  /\ (forall turns, Connect c' turns = (c', Stopped))
  /\ (forall payloadMap,
        string_field payloadMap "code" = "invalid_api_key"
        \/ string_field payloadMap "code" = "auth_error" ->
        exists msg, handleError c' (PObject payloadMap) = Panic msg).
Proof.
  unfold Disconnect. intros H. destruct (done c) eqn:D; [discriminate |].
  inversion H; subst c'; clear H.
  destruct c as [u a d s co au ra mra rd q dn tr]. simpl in D. subst dn.
  destruct s as [sock |]; simpl.
  all: repeat split; try reflexivity.
  all: try (rewrite app_nil_r; reflexivity).
  all: try (eexists; reflexivity).
  all: try (intros msgType payload nowMilli; unfold send; simpl;
            destruct (Marshal _); reflexivity).
  all: try (intros k; rewrite queueCase_iter_discards by (left; reflexivity);
            reflexivity).
  all: try (intros turns; apply Connect_done; reflexivity).
  all: intros payloadMap Hcode; unfold handleError;
    rewrite (fatal_code_test _ Hcode); eexists; reflexivity.
Qed.

(** X14 on a connection with a socket and a full queue. *)
Lemma X14_disconnect_once_witness :
  exists c', Disconnect (set_conn full_connection (Some 1%nat)) = Ok c'
    /\ trace c' = [EvClose]
    /\ messageQueue c' = queued 0 100
    /\ exists msg, Disconnect c' = Panic msg.
Proof.
  eexists. split; [reflexivity |].
  destruct (X14_disconnect_once (set_conn full_connection (Some 1%nat)) _ eq_refl)
    as (_ & _ & _ & _ & Q & T & P & _).
  split; [exact T |]. split; [exact Q | exact P].
Defined.

(** ** The reconnect loop *)

Lemma sleeps_snoc (tr : list Event) (e : Event) :
  sleeps (tr ++ [e])%list
  = (sleeps tr ++ match e with EvSleep d => [d] | _ => [] end)%list.
Proof.
  unfold sleeps. rewrite flat_map_app. simpl. rewrite app_nil_r. reflexivity.
Qed.

(** What the loop relies on at its head. *)
Lemma handleMessage_keeps (c c' : Connection) (data : option Message) :
  handleMessage c data = Ok c' ->
  reconnectDelay c' = reconnectDelay c
  /\ reconnectAttempts c' = reconnectAttempts c
  /\ (maxReconnectAttempts c' = maxReconnectAttempts c \/ maxReconnectAttempts c' = 0)
  /\ sleeps (trace c') = sleeps (trace c).
Proof.
  unfold handleMessage. destruct data as [msg |]; [| intros H; inversion H; tauto].
  destruct (String.eqb (Type_ msg) "registered"); [intros H; inversion H; tauto |].
  destruct (String.eqb (Type_ msg) "error"); [| intros H; inversion H; tauto].
  unfold handleError. destruct (Payload_ msg) as [payloadMap | |];
    try (intros H; inversion H; tauto).
  destruct (_ || _); [| intros H; inversion H; tauto].
  unfold Disconnect. simpl. destruct (done c); [discriminate |].
  intros H. inversion H; subst c'; clear H.
  destruct (conn c); simpl; repeat split; try tauto.
  rewrite sleeps_snoc, app_nil_r. reflexivity.
Qed.

Lemma runMessageLoop_keeps (inbound : list (option Message)) :
  forall c,
    reconnectDelay (fst (runMessageLoop c inbound)) = reconnectDelay c
    /\ reconnectAttempts (fst (runMessageLoop c inbound)) = reconnectAttempts c
    /\ (maxReconnectAttempts (fst (runMessageLoop c inbound)) = maxReconnectAttempts c
        \/ maxReconnectAttempts (fst (runMessageLoop c inbound)) = 0)
    /\ sleeps (trace (fst (runMessageLoop c inbound))) = sleeps (trace c).
Proof.
  induction inbound as [| data rest IH]; intros c.
  - simpl. destruct (conn c); simpl; tauto.
  - rewrite runMessageLoop_cons. destruct (conn c); [| simpl; tauto].
    destruct (handleMessage c data) as [c1 | msg] eqn:E; [| simpl; tauto].
    destruct (handleMessage_keeps _ _ _ E) as (D & A & M & S).
    destruct (IH c1) as (D1 & A1 & M1 & S1).
    rewrite D1, A1, S1, D, A, S. repeat split. destruct M1 as [-> | ->]; tauto.
Qed.

Lemma backoffDelay_in_range (c : Connection) :
  reconnectDelay c = Second -> 1 <= reconnectAttempts c <= 10 ->
  delay_in_range (backoffDelay c) = true.
Proof.
  intros D A. rewrite backoffDelay_formula by (try exact D; lia).
  unfold delay_in_range. apply andb_true_iff. split.
  - apply Z.leb_le.
    assert (1 <= 2 ^ (reconnectAttempts c - 1)).
    { change 1 with (2 ^ 0) at 1. apply Z.pow_le_mono_r; lia. }
    unfold Second in *. lia.
  - apply Z.leb_le. lia.
Qed.

Lemma Connect_sleeps (turns : list Turn) :
  forall c,
    reconnectDelay c = Second -> 0 <= reconnectAttempts c ->
    maxReconnectAttempts c <= 10 ->
    forallb delay_in_range (sleeps (trace c)) = true ->
    forallb delay_in_range (sleeps (trace (fst (Connect c turns)))) = true.
Proof.
  induction turns as [| turn rest IH]; intros c D A M S.
  - simpl. destruct (done c); exact S.
  - simpl. destruct (done c); [exact S |].
    destruct turn as [| | sock nowMilli inbound]; [exact S | |].
    + cbn [reconnectAttempts maxReconnectAttempts set_reconnectAttempts emit].
      destruct (reconnectAttempts c + 1 >? maxReconnectAttempts c) eqn:G.
      * simpl. rewrite sleeps_snoc, app_nil_r. exact S.
      * rewrite Z.gtb_ltb in G. apply Z.ltb_ge in G.
        apply IH; simpl; try assumption; try lia.
        rewrite sleeps_snoc, sleeps_snoc, app_nil_r, forallb_app, S. simpl.
        rewrite backoffDelay_in_range; [reflexivity | exact D | simpl; lia].
    + match goal with
      | |- context [runMessageLoop ?c1 inbound] =>
          destruct (runMessageLoop_keeps inbound c1) as (D1 & A1 & M1 & S1);
          destruct (runMessageLoop c1 inbound) as [c2 [msg |]] eqn:R
      end; simpl in D1, A1, M1, S1.
      * simpl. rewrite S1. unfold connect_ok, sendDirect. simpl.
        rewrite sleeps_snoc, sleeps_snoc, !app_nil_r. exact S.
      * apply IH.
        -- rewrite D1. exact D.
        -- rewrite A1. lia.
        -- destruct M1 as [-> | ->]; [exact M | lia].
        -- rewrite S1. unfold connect_ok, sendDirect. simpl.
           rewrite sleeps_snoc, sleeps_snoc, !app_nil_r. exact S.
Qed.

(** X15.  Whatever the dials and the sessions of the connect loop turn
    out to be, every wait it makes lies between one second and one minute;
    this holds from a new connection, and from any connection with the base
    delay of one second, a counter that is not negative and a ceiling of at
    most 10. *)
Theorem X15_reconnect_delays (url apiKey : string) (debug : bool) (turns : list Turn) :
  forallb delay_in_range
    (sleeps (trace (fst (Connect (NewConnection url apiKey debug) turns)))) = true
  /\ (forall c, reconnectDelay c = Second -> 0 <= reconnectAttempts c ->
        maxReconnectAttempts c <= 10 ->
        forallb delay_in_range (sleeps (trace c)) = true ->
        forallb delay_in_range (sleeps (trace (fst (Connect c turns)))) = true).
Proof.
  split.
  - apply Connect_sleeps; try reflexivity; simpl; lia.
  - apply Connect_sleeps.
Qed.

(** X15 from a connection that failed seven times. *)
Lemma X15_reconnect_delays_witness :
  let c := set_reconnectAttempts (NewConnection "wss://host" "key" false) 7 in
  reconnectDelay c = Second /\ 0 <= reconnectAttempts c
  /\ maxReconnectAttempts c <= 10
  /\ forallb delay_in_range (sleeps (trace c)) = true
  /\ forallb delay_in_range
       (sleeps (trace (fst (Connect c [DialFails; DialFails; DialFails; DialFails]))))
     = true.
Proof.
  intros c. split; [reflexivity |]. split; [simpl; lia |]. split; [simpl; lia |].
  split; [reflexivity |].
  apply (proj2 (X15_reconnect_delays "" "" false
                  [DialFails; DialFails; DialFails; DialFails]) c);
    [reflexivity | simpl; lia | simpl; lia | reflexivity].
Defined.

(** ** A session that ends with a failed read *)





End TransportExtra.

(* ===================================================================== *)
(** * Further properties of package breakpoint                             *)
(* ===================================================================== *)

Module BreakpointExtra.

Import Go Float Breakpoint BreakpointCommands BreakpointSpec.
Local Open Scope Z_scope.

(** ** The registry under any sequence of calls *)

Lemma probe_ok_spec (id : string) (bp : BreakpointInfo) :
  probe_ok id bp = true
  <-> ID bp = id /\ 1 <= MaxHits bp <= 50 /\ 0 <= HitCount bp <= MaxHits bp.
Proof.
  unfold probe_ok. rewrite !andb_true_iff, String.eqb_eq, !Z.leb_le. tauto.
Qed.

Lemma rateLimitOk_count (m : Manager) (t : Z) :
  0 <= captureCount m <= maxCapturesPerSecond ->
  0 <= captureCount (snd (rateLimitOk m t)) <= maxCapturesPerSecond.
Proof.
  unfold rateLimitOk, maxCapturesPerSecond. intros H.
  destruct (Sub t (captureWindowStart m) >=? Second); simpl.
  - lia.
  - destruct (captureCount m >=? 50) eqn:E; simpl; [lia |].
    rewrite Z.geb_leb in E. apply Z.leb_gt in E. lia.
Qed.

Lemma NewManager_registry_ok (debug : bool) (now : Z) :
  registry_ok (NewManager debug now).
Proof.
  unfold registry_ok, NewManager, maxCapturesPerSecond. simpl.
  split; [apply map_Forall_empty |]. split; [lia | reflexivity].
Qed.

Lemma SetBreakpoint_registry_ok (m : Manager) (id filePath : string)
  (lineNumber : Z) (condition : string) (maxHits now : Z) :
  registry_ok m ->
  registry_ok (SetBreakpoint m id filePath lineNumber condition maxHits now).
Proof.
  intros (P & C & S). unfold registry_ok, SetBreakpoint. simpl.
  split; [| split; assumption].
  apply map_Forall_insert_2; [| exact P].
  apply probe_ok_spec. simpl.
  destruct (maxHits <? 1) eqn:E1; [| apply Z.ltb_ge in E1].
  - simpl. repeat split; lia.
  - destruct (maxHits >? 50) eqn:E2.
    + repeat split; lia.
    + rewrite Z.gtb_ltb in E2. apply Z.ltb_ge in E2. repeat split; lia.
Qed.

Lemma RemoveBreakpoint_registry_ok (m : Manager) (id : string) :
  registry_ok m -> registry_ok (RemoveBreakpoint m id).
Proof.
  intros (P & C & S). unfold registry_ok, RemoveBreakpoint. simpl.
  split; [apply map_Forall_delete; exact P | split; assumption].
Qed.

Lemma Hit_registry_ok (m : Manager) (id : string) (w : HitWorld) :
  registry_ok m -> registry_ok (Hit m id w).
Proof.
  intros H0. pose proof H0 as (P & C & S).
  destruct (breakpoints m !! id) as [bp |] eqn:L;
    [| rewrite Hit_unregistered by exact L; exact H0].
  destruct (Z_lt_le_dec (HitCount bp) (MaxHits bp)) as [Hc | Hc];
    [| rewrite (Hit_at_ceiling m id w bp L Hc); exact H0].
  destruct (fst (rateLimitOk m (clock w))) eqn:R;
    [| rewrite Hit_rejected by exact R; exact H0].
  rewrite (Hit_forward m id w bp L Hc R).
  pose proof (proj1 (probe_ok_spec id bp) (P id bp L)) as (I & M & H).
  unfold registry_ok. simpl. split; [| split].
  - apply map_Forall_insert_2; [| exact P].
    apply probe_ok_spec. simpl. repeat split; try assumption; lia.
  - apply rateLimitOk_count. exact C.
  - rewrite forallb_app, S. simpl. unfold payload_ok. simpl.
    rewrite andb_true_r. apply andb_true_iff. rewrite !Z.leb_le. lia.
Qed.

Lemma HandleCommand_cases (impl : float64 -> Z) (m : Manager) (command : string)
  (payload : CommandPayload) (now : Z) :
  HandleCommand impl m command payload now = m
  \/ (exists payloadMap filePath lineNumber maxHits,
        (payload = PMap payloadMap \/ payload = PRaw (Some payloadMap))
        /\ command = "set"
        /\ HandleCommand impl m command payload now
           = SetBreakpoint m (string_of payloadMap "id") filePath lineNumber
               (string_of payloadMap "condition") maxHits now)
  \/ (exists payloadMap,
        (payload = PMap payloadMap \/ payload = PRaw (Some payloadMap))
        /\ command = "remove"
        /\ HandleCommand impl m command payload now
           = RemoveBreakpoint m (string_of payloadMap "id")).
Proof.
  unfold HandleCommand.
  destruct payload as [pm | [pm |] |]; try (left; reflexivity).
  all: destruct (String.eqb command "set") eqn:E1;
    [apply String.eqb_eq in E1; right; left; do 4 eexists;
     split; [eauto | split; [exact E1 | reflexivity]] |].
  all: destruct (String.eqb command "remove") eqn:E2;
    [apply String.eqb_eq in E2; right; right; eexists;
     split; [eauto | split; [exact E2 | reflexivity]] | left; reflexivity].
Qed.

Lemma call_registry_ok (impl : float64 -> Z) (m : Manager) (c : Call) :
  registry_ok m -> registry_ok (call impl m c).
Proof.
  intros H. destruct c as [id f l cnd mh now | id | id w | command payload now]; simpl.
  - apply SetBreakpoint_registry_ok, H.
  - apply RemoveBreakpoint_registry_ok, H.
  - apply Hit_registry_ok, H.
  - destruct (HandleCommand_cases impl m command payload now)
      as [-> | [(pm & f & l & mh & _ & _ & ->) | (pm & _ & _ & ->)]].
    + exact H.
    + apply SetBreakpoint_registry_ok, H.
    + apply RemoveBreakpoint_registry_ok, H.
Qed.

Lemma calls_registry_ok (impl : float64 -> Z) (cs : list Call) :
  forall m, registry_ok m -> registry_ok (calls impl m cs).
Proof.
  unfold calls. induction cs as [| c cs IH]; intros m H; [exact H |].
  simpl. apply IH, call_registry_ok, H.
Qed.

(** X17.  Whatever calls a manager receives ([SetBreakpoint],
    [RemoveBreakpoint], [Hit], [HandleCommand] with any payload), every
    registered probe is filed under its own id with a ceiling between 1 and
    50 and a hit count between 0 and the ceiling, the count of the limiter
    stays between 0 and 50, and every payload forwarded bears a hit count
    between 1 and 50. *)
Theorem X17_registry_invariant (impl : float64 -> Z) (debug : bool) (now : Z)
  (cs : list Call) :
  let m := calls impl (NewManager debug now) cs in
  registry_ok m
  /\ (forall id bp, breakpoints m !! id = Some bp ->
        ID bp = id /\ 1 <= MaxHits bp <= 50 /\ 0 <= HitCount bp <= MaxHits bp)
  /\ 0 <= captureCount m <= 50
  /\ (forall p, In p (sent m) -> 1 <= hit_count (snd p) <= 50)
  /\ (forall m0, registry_ok m0 -> registry_ok (calls impl m0 cs)).
Proof.
  intros m.
  assert (H : registry_ok m)
    by (apply calls_registry_ok, NewManager_registry_ok).
  split; [exact H |]. destruct H as (P & C & S).
  split; [| split; [exact C | split; [| apply calls_registry_ok]]].
  - intros id bp L. apply probe_ok_spec. apply (P id bp L).
  - intros p Hp. rewrite forallb_forall in S. specialize (S p Hp).
    unfold payload_ok in S. apply andb_true_iff in S. rewrite !Z.leb_le in S. exact S.
Qed.

(** X17 on a manager after a set and a trigger, and after a removal. *)
Lemma X17_registry_invariant_witness :
  let m := calls (fun _ => 0) (NewManager false 0)
             [CallSet "a" "a.go" 1 "" 99 0; CallHit "a" (mkHitWorld 0 [] 0)] in
  registry_ok m /\ registry_ok (calls (fun _ => 0) m [CallRemove "a"]).
Proof.
  intros m.
  destruct (X17_registry_invariant (fun _ => 0) false 0
              [CallSet "a" "a.go" 1 "" 99 0; CallHit "a" (mkHitWorld 0 [] 0)])
    as (H & _).
  split; [exact H |].
  destruct (X17_registry_invariant (fun _ => 0) false 0 [CallRemove "a"])
    as (_ & _ & _ & _ & K).
  exact (K m H).
Defined.

(** ** What one probe forwards *)

Lemma forwarded_snoc (id key : string) (m : Manager) (p : HitPayload)
  (sent' : list (string * HitPayload)) :
  sent' = (sent m ++ [(key, p)])%list ->
  List.map snd (List.filter (fun q => String.eqb (fst q) id) sent')
  = (forwarded id m ++ (if String.eqb key id then [p] else []))%list.
Proof.
  intros ->. unfold forwarded. rewrite List.filter_app, List.map_app. simpl.
  destruct (String.eqb key id); reflexivity.
Qed.

Lemma hit_counts_shift (h : Z) (n : nat) :
  forall a, List.map (fun i => h + 1 + Z.of_nat i) (List.seq a n)
            = List.map (fun i => h + Z.of_nat i) (List.seq (S a) n).
Proof.
  induction n as [| n IH]; intros a; [reflexivity |].
  cbn [List.seq List.map]. rewrite IH. f_equal. lia.
Qed.

Lemma hit_counts_cons (h : Z) (n : nat) :
  (h + 1 :: List.map (fun i => h + 1 + Z.of_nat i) (List.seq 1 n))%list
  = List.map (fun i => h + Z.of_nat i) (List.seq 1 (S n)).
Proof.
  cbn [List.seq List.map]. rewrite hit_counts_shift. f_equal.
Qed.

Lemma run_hits_budget (attempts : list (string * HitWorld)) (id : string) :
  forall m bp, registry_ok m -> breakpoints m !! id = Some bp ->
    exists bp' new,
      breakpoints (run_hits m attempts) !! id = Some bp'
      /\ forwarded id (run_hits m attempts) = (forwarded id m ++ new)%list
      /\ HitCount bp' = HitCount bp + len new
      /\ MaxHits bp' = MaxHits bp
      /\ List.map hit_count new
         = List.map (fun i => HitCount bp + Z.of_nat i) (List.seq 1 (List.length new))
      /\ Forall (fun p => hit_file_path p = FilePath bp
                          /\ hit_line_number p = LineNumber bp) new.
Proof.
  induction attempts as [| [id0 w] rest IH]; intros m bp Hok Hl.
  - exists bp, []. simpl. rewrite app_nil_r. unfold len. simpl.
    split; [exact Hl |]. repeat split; try reflexivity; try lia. constructor.
  - change (run_hits m ((id0, w) :: rest)) with (run_hits (Hit m id0 w) rest).
    pose proof (Hit_registry_ok m id0 w Hok) as Hok1.
    destruct (Hit_cases m id0 w) as [E | (bp0 & L0 & Hc & _ & B1 & S1)].
    + rewrite E. apply (IH m bp Hok Hl).
    + destruct Hok as (P & _ & _).
      pose proof (proj1 (probe_ok_spec id0 bp0) (P id0 bp0 L0)) as (I0 & _ & _).
      destruct (decide (id0 = id)) as [-> | Hne].
      * assert (bp0 = bp) by congruence. subst bp0.
        assert (L1 : breakpoints (Hit m id w) !! id = Some (bump bp)).
        { rewrite B1. apply lookup_insert_eq. }
        destruct (IH _ _ Hok1 L1) as (bp' & new1 & L' & F' & H' & M' & C' & Q').
        exists bp', (hitPayload (bump bp) (HitCount bp + 1) w :: new1).
        split; [exact L' |]. split; [| split; [| split; [exact M' | split]]].
        -- rewrite F'. unfold forwarded at 1.
           rewrite (forwarded_snoc id (ID bp) m _ _ S1), I0, String.eqb_refl.
           rewrite <- app_assoc. reflexivity.
        -- rewrite H'. unfold len. simpl bump. simpl HitCount. simpl length. lia.
        -- cbn [List.map List.length]. rewrite C'.
           change (HitCount (bump bp)) with (HitCount bp + 1).
           change (hit_count (hitPayload (bump bp) (HitCount bp + 1) w))
             with (HitCount bp + 1).
           apply hit_counts_cons.
        -- constructor; [simpl; tauto | exact Q'].
      * assert (L1 : breakpoints (Hit m id0 w) !! id = Some bp).
        { rewrite B1, lookup_insert_ne by exact Hne. exact Hl. }
        destruct (IH _ _ Hok1 L1) as (bp' & new1 & L' & F' & R').
        exists bp', new1. split; [exact L' |]. split; [| exact R'].
        rewrite F'. unfold forwarded at 1.
        rewrite (forwarded_snoc id (ID bp0) m _ _ S1), I0.
        assert (String.eqb id0 id = false) by (apply String.eqb_neq; exact Hne).
        rewrite H, app_nil_r. reflexivity.
Qed.

(** X18.  While a probe is not set again, any run of triggers on any
    probes forwards for it at most its ceiling minus its hit count, so at
    most 50 payloads; they are numbered consecutively from the hit count
    on, and each carries the file path and the line of the probe. *)
Theorem X18_probe_budget (m : Manager) (id : string) (bp : BreakpointInfo)
  (attempts : list (string * HitWorld)) :
  registry_ok m -> breakpoints m !! id = Some bp ->
  exists bp' new,
    breakpoints (run_hits m attempts) !! id = Some bp'
    /\ forwarded id (run_hits m attempts) = (forwarded id m ++ new)%list
    /\ HitCount bp' = HitCount bp + len new
    /\ len new <= MaxHits bp - HitCount bp
    /\ len new <= 50
    /\ List.map hit_count new
       = List.map (fun i => HitCount bp + Z.of_nat i) (List.seq 1 (List.length new))
    /\ Forall (fun p => hit_file_path p = FilePath bp
                        /\ hit_line_number p = LineNumber bp) new.
Proof.
  intros Hok Hl.
  destruct (run_hits_budget attempts id m bp Hok Hl)
    as (bp' & new & L' & F' & H' & M' & C' & Q').
  exists bp', new.
  assert (Hok' : registry_ok (run_hits m attempts)).
  { clear - Hok. revert m Hok. induction attempts as [| a rest IH]; intros m Hok;
      [exact Hok |]. apply IH, Hit_registry_ok, Hok. }
  destruct Hok as (P & _ & _). destruct Hok' as (P' & _ & _).
  pose proof (proj1 (probe_ok_spec id bp) (P id bp Hl)) as (_ & B & B0).
  pose proof (proj1 (probe_ok_spec id bp') (P' id bp' L')) as (_ & _ & B').
  repeat split; try assumption; lia.
Qed.

(** X18 on nine triggers of a probe with the ceiling 5. *)
Lemma X18_probe_budget_witness :
  registry_ok probe_manager
  /\ breakpoints probe_manager !! "p" = Some (mkBreakpointInfo "p" "handler.go" 12 "" 5 0 0)
  /\ exists bp' new,
       breakpoints (run_hits probe_manager (List.repeat ("p", probe_world) 9)) !! "p"
       = Some bp'
       /\ forwarded "p" (run_hits probe_manager (List.repeat ("p", probe_world) 9))
          = (forwarded "p" probe_manager ++ new)%list
       /\ len new <= 5.
Proof.
  assert (H : registry_ok probe_manager).
  { apply SetBreakpoint_registry_ok, NewManager_registry_ok. }
  assert (L : breakpoints probe_manager !! "p"
              = Some (mkBreakpointInfo "p" "handler.go" 12 "" 5 0 0))
    by (vm_compute; reflexivity).
  split; [exact H |]. split; [exact L |].
  destruct (X18_probe_budget probe_manager "p" _
              (List.repeat ("p", probe_world) 9) H L)
    as (bp' & new & L' & F' & _ & B & _).
  exists bp', new. split; [exact L' |]. split; [exact F' |]. simpl in B. lia.
Defined.

(** ** RemoveBreakpoint *)

Lemma manager_eq (m : Manager) (bps : gmap string BreakpointInfo) :
  bps = breakpoints m ->
  mkManager (debug m) bps (captureCount m) (captureWindowStart m) (sent m) = m.
Proof. intros ->. destruct m; reflexivity. Qed.

(** X19.  [RemoveBreakpoint] takes the probe out of the registry and
    touches nothing else: triggers of the id are no-ops from then on, other
    probes, the limiter and what was forwarded stay; removing an id that is
    not registered changes nothing, and removing a probe right after setting
    it on a free id gives the manager back. *)
Theorem X19_remove_probe (m : Manager) (id : string) :
  breakpoints (RemoveBreakpoint m id) !! id = None
  /\ (forall w, Hit (RemoveBreakpoint m id) id w = RemoveBreakpoint m id)
  /\ (forall id', id' <> id ->
        breakpoints (RemoveBreakpoint m id) !! id' = breakpoints m !! id')
  /\ sent (RemoveBreakpoint m id) = sent m
  /\ captureCount (RemoveBreakpoint m id) = captureCount m
  /\ captureWindowStart (RemoveBreakpoint m id) = captureWindowStart m
  /\ (breakpoints m !! id = None -> RemoveBreakpoint m id = m)
  /\ (forall filePath lineNumber condition maxHits now,
        breakpoints m !! id = None ->
        RemoveBreakpoint (SetBreakpoint m id filePath lineNumber condition maxHits now) id
        = m)
  /\ (forall attempts,
        Forall (fun a => fst a = id) attempts ->
        run_hits (RemoveBreakpoint m id) attempts = RemoveBreakpoint m id).
Proof.
  assert (L : breakpoints (RemoveBreakpoint m id) !! id = None)
    by (simpl; apply lookup_delete_eq).
  assert (H : forall w, Hit (RemoveBreakpoint m id) id w = RemoveBreakpoint m id)
    by (intros w; apply Hit_unregistered, L).
  split; [exact L |]. split; [exact H |]. split; [| split; [| split; [| split]]];
    try reflexivity.
  - intros id' Hne. simpl. apply lookup_delete_ne. congruence.
  - split; [| split].
    + intros N. unfold RemoveBreakpoint. apply manager_eq, delete_id, N.
    + intros filePath lineNumber condition maxHits now N.
      unfold RemoveBreakpoint, SetBreakpoint. simpl.
      apply manager_eq. rewrite delete_insert_eq. apply delete_id, N.
    + intros attempts Ha. induction Ha as [| [id0 w] rest Hid _ IH]; [reflexivity |].
      simpl in Hid. subst id0.
      change (run_hits (RemoveBreakpoint m id) ((id, w) :: rest))
        with (run_hits (Hit (RemoveBreakpoint m id) id w) rest).
      rewrite H. exact IH.
Qed.

(** X19 on the probe manager. *)
Lemma X19_remove_probe_witness :
  breakpoints (NewManager false 0) !! "p" = None
  /\ RemoveBreakpoint probe_manager "p" = NewManager false 0
  /\ run_hits (RemoveBreakpoint probe_manager "p") [("p", probe_world)]
     = RemoveBreakpoint probe_manager "p".
Proof.
  split; [reflexivity |]. split.
  - apply (proj1 (proj2 (proj2 (proj2 (proj2 (proj2 (proj2 (proj2
             (X19_remove_probe (NewManager false 0) "p"))))))))
             "handler.go" 12 "" 5 0). reflexivity.
  - apply (proj2 (proj2 (proj2 (proj2 (proj2 (proj2 (proj2 (proj2
             (X19_remove_probe probe_manager "p"))))))))
             [("p", probe_world)]).
    repeat constructor.
Defined.

(** ** Commands of the backend *)

Lemma to_int_in_range (impl : float64 -> Z) (mant expo : Z) :
  - 2 ^ 63 <= trunc mant expo < 2 ^ 63 ->
  to_int impl (Fin mant expo) = trunc mant expo.
Proof.
  intros [Hl Hu]. unfold to_int.
  assert (E : ((- 2 ^ 63 <=? trunc mant expo) && (trunc mant expo <? 2 ^ 63)) = true).
  { apply andb_true_iff. split; [apply Z.leb_le | apply Z.ltb_lt]; assumption. }
  rewrite E. reflexivity.
Qed.

(** X20.  [HandleCommand] never forwards a payload and never touches the
    limiter.  A payload that is no map (or raw data that gives none) and a
    command other than [set] and [remove] change nothing.  Otherwise only
    the probe named by the field [id] (the empty id when there is none)
    changes: [remove] takes it out; [set] registers it with hit count 0,
    the file path of [file_path] or else of [file], a ceiling between 1 and
    50 that is 1 without [max_hits], and the line 0 without [line_number]
    and [line]; numbers are truncated towards zero. *)
Theorem X20_commands (impl : float64 -> Z) (m : Manager) (command : string)
  (payload : CommandPayload) (now : Z) :
  let m' := HandleCommand impl m command payload now in
  sent m' = sent m /\ captureCount m' = captureCount m
  /\ captureWindowStart m' = captureWindowStart m
  /\ (payload = POther \/ payload = PRaw None
      \/ (command <> "set" /\ command <> "remove") -> m' = m)
  /\ (forall payloadMap,
        payload = PMap payloadMap \/ payload = PRaw (Some payloadMap) ->
        (forall id', id' <> string_of payloadMap "id" ->
           breakpoints m' !! id' = breakpoints m !! id')
        /\ (command = "remove" ->
            breakpoints m' !! string_of payloadMap "id" = None)
        /\ (command = "set" ->
            exists bp, breakpoints m' !! string_of payloadMap "id" = Some bp
              /\ ID bp = string_of payloadMap "id" /\ HitCount bp = 0
              /\ CreatedAt bp = now
              /\ Condition bp = string_of payloadMap "condition"
              /\ FilePath bp
                 = (if String.eqb (string_of payloadMap "file_path") ""
                    then string_of payloadMap "file"
                    else string_of payloadMap "file_path")
              /\ 1 <= MaxHits bp <= 50
              /\ (float_of payloadMap "max_hits" = None -> MaxHits bp = 1)
              /\ (forall mant expo,
                    float_of payloadMap "max_hits" = Some (Fin mant expo) ->
                    - 2 ^ 63 <= trunc mant expo < 2 ^ 63 ->
                    MaxHits bp = Z.max 1 (Z.min 50 (trunc mant expo)))
              /\ (float_of payloadMap "line_number" = None ->
                  float_of payloadMap "line" = None -> LineNumber bp = 0)
              /\ (forall mant expo,
                    float_of payloadMap "line_number" = Some (Fin mant expo) ->
                    - 2 ^ 63 <= trunc mant expo < 2 ^ 63 ->
                    LineNumber bp = trunc mant expo))).
Proof.
  intros m'. subst m'.
  assert (K : forall payloadMap,
            payload = PMap payloadMap \/ payload = PRaw (Some payloadMap) ->
            HandleCommand impl m command payload now
            = if String.eqb command "set" then
                SetBreakpoint m (string_of payloadMap "id")
                  (if String.eqb (string_of payloadMap "file_path") ""
                   then string_of payloadMap "file"
                   else string_of payloadMap "file_path")
                  match float_of payloadMap "line_number" with
                  | Some ln => to_int impl ln
                  | None => match float_of payloadMap "line" with
                            | Some ln => to_int impl ln
                            | None => 0
                            end
                  end
                  (string_of payloadMap "condition")
                  match float_of payloadMap "max_hits" with
                  | Some mh => to_int impl mh
                  | None => 1
                  end now
              else if String.eqb command "remove" then
                RemoveBreakpoint m (string_of payloadMap "id")
              else m).
  { intros payloadMap [-> | ->]; reflexivity. }
  split; [| split; [| split; [| split]]].
  - destruct (HandleCommand_cases impl m command payload now)
      as [-> | [(pm & f & l & mh & _ & _ & ->) | (pm & _ & _ & ->)]]; reflexivity.
  - destruct (HandleCommand_cases impl m command payload now)
      as [-> | [(pm & f & l & mh & _ & _ & ->) | (pm & _ & _ & ->)]]; reflexivity.
  - destruct (HandleCommand_cases impl m command payload now)
      as [-> | [(pm & f & l & mh & _ & _ & ->) | (pm & _ & _ & ->)]]; reflexivity.
  - intros [-> | [-> | [N1 N2]]]; try reflexivity.
    unfold HandleCommand. destruct payload as [pm | [pm |] |]; try reflexivity.
    all: apply String.eqb_neq in N1, N2; rewrite N1, N2; reflexivity.
  - intros payloadMap Hp. rewrite (K payloadMap Hp). split; [| split].
    + intros id' Hne. destruct (String.eqb command "set").
      * simpl. apply lookup_insert_ne. congruence.
      * destruct (String.eqb command "remove"); [| reflexivity].
        simpl. apply lookup_delete_ne. congruence.
    + intros ->. simpl. apply lookup_delete_eq.
    + intros ->. simpl String.eqb. cbv iota. rewrite SetBreakpoint_lookup.
      eexists. split; [reflexivity |]. simpl.
      repeat split; try reflexivity; try lia.
      * intros ->. reflexivity.
      * intros mant expo -> R. rewrite (to_int_in_range impl mant expo R). lia.
      * intros -> ->. reflexivity.
      * intros mant expo -> R. apply (to_int_in_range impl mant expo R).
Qed.

(** X20 on a [set] with the fields [file], [line] and a ceiling of 2.5,
    and on an unknown command. *)
Lemma X20_commands_witness :
  let pm : gmap string Field :=
    <["id" := FString "p"]> (<["file" := FString "handler.go"]>
    (<["line" := FNumber (Fin 3 2)]> (<["max_hits" := FNumber (Fin 5 (-1))]> ∅))) in
  exists bp,
    breakpoints (HandleCommand (fun _ => 0) (NewManager false 0) "set" (PMap pm) 7)
      !! "p" = Some bp
    /\ FilePath bp = "handler.go" /\ MaxHits bp = 2
    /\ HandleCommand (fun _ => 0) (NewManager false 0) "enable" (PMap pm) 7
       = NewManager false 0.
Proof.
  intros pm.
  destruct (X20_commands (fun _ => 0) (NewManager false 0) "set" (PMap pm) 7)
    as (_ & _ & _ & _ & S).
  destruct (S pm (or_introl eq_refl)) as (_ & _ & B).
  destruct (B eq_refl) as (bp & L & _ & _ & _ & _ & F & _ & _ & M & _).
  exists bp. split; [exact L |]. split; [exact F |]. split.
  - rewrite (M 5 (-1)); [reflexivity | reflexivity | vm_compute; split; [discriminate | reflexivity]].
  - destruct (X20_commands (fun _ => 0) (NewManager false 0) "enable" (PMap pm) 7)
      as (_ & _ & _ & I & _).
    apply I. right. right. split; discriminate.
Defined.

(** X21.  A probe set by a command without [max_hits] fires once: the
    first trigger that the limiter admits forwards one payload, numbered 1,
    with the file path of the command and the stack of the caller, and no
    later trigger of the probe forwards anything. *)
Theorem X21_command_then_hits (impl : float64 -> Z) (m : Manager)
  (payloadMap : gmap string Field) (now : Z) (w : HitWorld) :
  let id := string_of payloadMap "id" in
  let m1 := HandleCommand impl m "set" (PMap payloadMap) now in
  float_of payloadMap "max_hits" = None ->
  fst (rateLimitOk m (clock w)) = true ->
  exists payload,
    sent (Hit m1 id w) = (sent m ++ [(id, payload)])%list
    /\ hit_count payload = 1
    /\ captured_at payload = clockMilli w
    /\ hit_file_path payload
       = (if String.eqb (string_of payloadMap "file_path") ""
          then string_of payloadMap "file"
          else string_of payloadMap "file_path")
    /\ stack_trace payload = buildStackTrace (callStack w)
    /\ forall attempts, Forall (fun a => fst a = id) attempts ->
         sent (run_hits (Hit m1 id w) attempts) = sent (Hit m1 id w).
Proof.
  intros id m1 Hm Hr.
  assert (L : breakpoints m1 !! id
              = Some (mkBreakpointInfo id
                        (if String.eqb (string_of payloadMap "file_path") ""
                         then string_of payloadMap "file"
                         else string_of payloadMap "file_path")
                        match float_of payloadMap "line_number" with
                        | Some ln => to_int impl ln
                        | None => match float_of payloadMap "line" with
                                  | Some ln => to_int impl ln
                                  | None => 0
                                  end
                        end
                        (string_of payloadMap "condition") 1 0 now)).
  { unfold m1, HandleCommand. simpl String.eqb. cbv iota.
    rewrite SetBreakpoint_lookup, Hm. reflexivity. }
  assert (R : fst (rateLimitOk m1 (clock w)) = true).
  { rewrite <- Hr. unfold m1, HandleCommand, rateLimitOk. simpl.
    destruct (Sub (clock w) (captureWindowStart m) >=? Second); simpl;
      [reflexivity |].
    destruct (captureCount m >=? maxCapturesPerSecond); reflexivity. }
  pose proof (Hit_forward m1 id w _ L ltac:(simpl; lia) R) as E.
  eexists. split; [rewrite E; reflexivity |].
  cbn [hit_count captured_at hit_file_path stack_trace hitPayload bump FilePath
       HitCount].
  repeat split; try reflexivity.
  intros attempts Ha.
  assert (L2 : exists bp, breakpoints (Hit m1 id w) !! id = Some bp
                          /\ MaxHits bp <= HitCount bp).
  { rewrite E. simpl. rewrite lookup_insert_eq. eexists. split; [reflexivity |].
    simpl. lia. }
  destruct L2 as (bp & L2 & C2).
  induction Ha as [| [id0 w0] rest Hid _ IH]; [reflexivity |].
  simpl in Hid. subst id0.
  change (run_hits (Hit m1 id w) ((id, w0) :: rest))
    with (run_hits (Hit (Hit m1 id w) id w0) rest).
  rewrite (Hit_at_ceiling _ id w0 bp L2 C2). exact IH.
Qed.

(** X21 on a new manager. *)
Lemma X21_command_then_hits_witness :
  let pm : gmap string Field :=
    <["id" := FString "p"]> (<["file_path" := FString "handler.go"]> ∅) in
  float_of pm "max_hits" = None
  /\ fst (rateLimitOk (NewManager false 0) (clock probe_world)) = true
  /\ exists payload,
       sent (Hit (HandleCommand (fun _ => 0) (NewManager false 0) "set" (PMap pm) 0)
               "p" probe_world)
       = [("p", payload)]
       /\ hit_count payload = 1
       /\ hit_file_path payload = "handler.go".
Proof.
  intros pm. split; [reflexivity |]. split; [reflexivity |].
  destruct (X21_command_then_hits (fun _ => 0) (NewManager false 0) pm 0 probe_world
              eq_refl eq_refl) as (payload & S & C & _ & F & _).
  exists payload. split; [exact S |]. split; [exact C | exact F].
Defined.

End BreakpointExtra.

(* ===================================================================== *)
(** * Properties of package agent                                          *)
(* ===================================================================== *)

Module AgentSpec.

Import Go Float Agent.
Local Open Scope Z_scope.

(** ** Sampling *)

Lemma fin_leb_ltb (m1 e1 m2 e2 : Z) :
  fin_leb m1 e1 m2 e2 = negb (fin_ltb m2 e2 m1 e1).
Proof.
  unfold fin_leb, fin_ltb. rewrite (Z.min_comm e2 e1). apply Z.leb_antisym.
Qed.

(** A rate strictly between 0 and 1 has a positive mantissa below
    [2 ^ (- expo)]. *)
Lemma open_rate (mant expo : Z) :
  fin_ltb 0 0 mant expo = true -> fin_ltb mant expo 1 0 = true ->
  0 < mant /\ expo < 0 /\ mant < 2 ^ (- expo).
Proof.
  unfold fin_ltb. intros H0 H1. apply Z.ltb_lt in H0, H1.
  assert (P0 : 0 < 2 ^ (expo - Z.min 0 expo)) by (apply Z.pow_pos_nonneg; lia).
  assert (M : 0 < mant) by nia.
  destruct (Z_lt_le_dec expo 0) as [E | E].
  - split; [exact M |]. split; [exact E |].
    rewrite Z.min_l in H1 by lia.
    replace (expo - expo) with 0 in H1 by lia.
    replace (0 - expo) with (- expo) in H1 by lia.
    rewrite Z.pow_0_r in H1. lia.
  - exfalso. rewrite Z.min_r in H1 by lia.
    replace (0 - 0) with 0 in H1 by lia. rewrite Z.pow_0_r in H1.
    assert (0 < 2 ^ (expo - 0)) by (apply Z.pow_pos_nonneg; lia). nia.
Qed.

Lemma byte_below_rate (b0 mant expo : Z) :
  fin_ltb b0 (-8) mant expo = (b0 <? threshold mant expo).
Proof.
  unfold fin_ltb, threshold.
  destruct (expo >=? -8) eqn:E.
  - apply Z.geb_le in E. rewrite Z.min_l by lia.
    replace (-8 - -8) with 0 by lia. replace (expo - -8) with (expo + 8) by lia.
    rewrite Z.pow_0_r, Z.mul_1_r. reflexivity.
  - rewrite Z.geb_leb in E. apply Z.leb_gt in E. rewrite Z.min_r by lia.
    replace (expo - expo) with 0 by lia. rewrite Z.pow_0_r, Z.mul_1_r.
    assert (P : 0 < 2 ^ (-8 - expo)) by (apply Z.pow_pos_nonneg; lia).
    destruct (b0 <? (mant - 1) / 2 ^ (-8 - expo) + 1) eqn:T.
    + apply Z.ltb_lt in T. apply Z.ltb_lt.
      pose proof (Z.mul_div_le (mant - 1) (2 ^ (-8 - expo)) P). nia.
    + apply Z.ltb_ge in T. apply Z.ltb_ge.
      destruct (Z_lt_le_dec (b0 * 2 ^ (-8 - expo)) mant) as [L | L]; [| exact L].
      exfalso.
      assert (b0 <= (mant - 1) / 2 ^ (-8 - expo))
        by (apply Z.div_le_lower_bound; [exact P | nia]).
      lia.
Qed.

Lemma threshold_range (mant expo : Z) :
  0 < mant -> expo < 0 -> mant < 2 ^ (- expo) ->
  1 <= threshold mant expo <= 256.
Proof.
  intros M E U. unfold threshold. destruct (expo >=? -8) eqn:G.
  - apply Z.geb_le in G.
    assert (P : 0 < 2 ^ (expo + 8)) by (apply Z.pow_pos_nonneg; lia).
    assert (S : 2 ^ (- expo) * 2 ^ (expo + 8) = 256).
    { rewrite <- Z.pow_add_r by lia. replace (- expo + (expo + 8)) with 8 by lia.
      reflexivity. }
    nia.
  - rewrite Z.geb_leb in G. apply Z.leb_gt in G.
    assert (P : 0 < 2 ^ (-8 - expo)) by (apply Z.pow_pos_nonneg; lia).
    assert (S : 2 ^ (- expo) = 2 ^ (-8 - expo) * 256).
    { replace (- expo) with ((-8 - expo) + 8) by lia.
      rewrite Z.pow_add_r by lia. reflexivity. }
    assert (0 <= (mant - 1) / 2 ^ (-8 - expo)) by (apply Z.div_pos; lia).
    assert ((mant - 1) / 2 ^ (-8 - expo) < 256)
      by (apply Z.div_lt_upper_bound; [exact P | lia]).
    lia.
Qed.

Lemma count_below (t : Z) (n : nat) :
  0 <= t ->
  List.length (List.filter (fun b => b <? t) (List.map Z.of_nat (List.seq 0 n)))
  = Nat.min n (Z.to_nat t).
Proof.
  intros Ht. induction n as [| n IH]; [reflexivity |].
  rewrite List.seq_S, List.map_app, List.filter_app, List.length_app, IH.
  cbn [List.map List.filter Nat.add]. destruct (Z.of_nat n <? t) eqn:E;
    [apply Z.ltb_lt in E | apply Z.ltb_ge in E]; cbn [List.length]; lia.
Qed.

(** X22.  [ShouldSample] samples every event at a rate of 1 or more and
    none at a rate of 0 or less or at a NaN.  At a rate strictly between 0
    and 1 the event is sampled exactly when the random byte is below the
    rate in 256ths rounded up: between 1 and 256 of the 256 byte values
    sample, the byte 0 always does, so that no positive rate samples less
    than one event in 256. *)
Theorem X22_should_sample (c : Config) (b0 : Z) :
  (leb (Fin 1 0) (SamplingRate c) = true -> ShouldSample c b0 = true)
  /\ (leb (Fin 1 0) (SamplingRate c) = false ->
      leb (SamplingRate c) (Fin 0 0) = true -> ShouldSample c b0 = false)
  /\ (SamplingRate c = NaN -> ShouldSample c b0 = false)
  /\ (forall mant expo, SamplingRate c = Fin mant expo ->
        fin_ltb 0 0 mant expo = true -> fin_ltb mant expo 1 0 = true ->
        ShouldSample c b0 = (b0 <? threshold mant expo)
        /\ 1 <= threshold mant expo <= 256
        /\ List.length (sampled_bytes c) = Z.to_nat (threshold mant expo)
        /\ ShouldSample c 0 = true).
Proof.
  split; [| split; [| split]].
  - intros H. unfold ShouldSample. rewrite H. reflexivity.
  - intros H1 H0. unfold ShouldSample. rewrite H1, H0. reflexivity.
  - intros H. unfold ShouldSample. rewrite H. reflexivity.
  - intros mant expo R H0 H1.
    assert (S : forall b, ShouldSample c b = (b <? threshold mant expo)).
    { intros b. unfold ShouldSample. rewrite R. simpl leb.
      rewrite !fin_leb_ltb, H0, H1. simpl. apply byte_below_rate. }
    destruct (open_rate mant expo H0 H1) as (M & E & U).
    pose proof (threshold_range mant expo M E U) as T.
    split; [apply S |]. split; [exact T |]. split.
    + unfold sampled_bytes.
      rewrite (List.filter_ext _ (fun b => b <? threshold mant expo) S).
      rewrite count_below by lia. lia.
    + rewrite S. apply Z.ltb_lt. lia.
Qed.

(** X22 at the rate 1/1024: one byte value in 256 samples. *)
Lemma X22_should_sample_witness :
  let c := mkConfig "" "" "production" (Fin 1 (-10)) 10 1000 100 false true "" "" in
  fin_ltb 0 0 1 (-10) = true /\ fin_ltb 1 (-10) 1 0 = true
  /\ threshold 1 (-10) = 1
  /\ List.length (sampled_bytes c) = 1%nat
  /\ ShouldSample c 0 = true.
Proof.
  intros c. split; [reflexivity |]. split; [reflexivity |]. split; [reflexivity |].
  destruct (X22_should_sample c 0) as (_ & _ & _ & F).
  destruct (F 1 (-10) eq_refl eq_refl eq_refl) as (_ & _ & L & S).
  split; [exact L | exact S].
Defined.

End AgentSpec.
